(** * Vocal extraction pipeline of [src/components/VocalExtraction.tsx]

    A shallow embedding of the in-browser separation pipeline
    ([extractVocals], the wav encoder and the [handleExtractVocals] entry
    point) together with the properties stated for it, followed by what
    surrounds the pipeline: [processAudioWithAI], the upload control of
    [src/components/AudioUpload.tsx], the rendered page, the blob the
    player builds, and the job store with its polling hook
    ([src/stores/ttsStore.ts], [src/hooks/useJobPolling.ts]).

    Numbers. A JavaScript sample is an IEEE-754 number; here a sample is an
    exact rational ([Q]).  Every arithmetic expression of the source is kept
    as written, with the rational operation in place of the rounded one, so
    rounding error, [NaN] and the infinities are outside this model.  A
    [Float32Array] is a [list Q] read with [rd] and written with stdpp's
    [<[i:=v]>], which like a typed array ignores a write past the end. *)

From Stdlib Require Import QArith Qminmax Qabs Qround ZArith Lia Lqa.
From Stdlib Require Import String Ascii.
From stdpp Require Import base option list strings gmap.

Local Open Scope Q_scope.

(** ** Typed arrays and counted loops *)

(** [new Float32Array(n)]: [n] zeros. *)
Definition newFloat32Array (n : nat) : list Q := replicate n 0.

(** [a[i]] for an index inside the array.  Past the end JavaScript yields
    [undefined]; the pipeline only does so for an empty stereo buffer, where
    the value read is written to a position that does not exist either. *)
Definition rd (a : list Q) (i : nat) : Q := default 0 (a !! i).

(** [for (let i = lo; i < hi; i++) body]. *)
Definition for_range {St : Type} (lo hi : nat) (body : nat -> St -> St) (s : St) : St :=
  fold_left (fun acc i => body i acc) (seq lo (hi - lo)) s.

(** [for (let i = i0; cond(i); i = step(i)) body], for loops whose exit is
    not a plain count; [None] when the fuel runs out before [cond] fails. *)
Fixpoint for_loop {St : Type} (fuel : nat) (cond : nat -> bool) (step : nat -> nat)
    (body : nat -> St -> option St) (i : nat) (s : St) : option St :=
  if cond i then
    match fuel with
    | O => None
    | S fuel' =>
        match body i s with
        | Some s' => for_loop fuel' cond step body (step i) s'
        | None => None
        end
    end
  else Some s.

(** [x > y] on samples. *)
Definition Qgtb (x y : Q) : bool := negb (Qle_bool x y).

(** ** Audio buffers *)

(** The Web Audio [AudioBuffer]: [bufferLength] is its [length] property. *)
Record AudioBuffer := mkAudioBuffer {
  numberOfChannels : nat;
  bufferLength : nat;
  sampleRate : Z;
  channels : list (list Q)
}.

(** What the Web Audio API guarantees of every buffer it hands out. *)
Definition wf_buffer (b : AudioBuffer) : Prop :=
  (1 <= numberOfChannels b)%nat /\
  List.length (channels b) = numberOfChannels b /\
  Forall (fun c => List.length c = bufferLength b) (channels b).

(** [context.createBuffer(numberOfChannels, length, sampleRate)]. *)
Definition createBuffer (n len : nat) (rate : Z) : AudioBuffer :=
  mkAudioBuffer n len rate (replicate n (newFloat32Array len)).

(** [buffer.getChannelData(c)].  The array returned is the buffer's own
    storage: a write to it is a write to the buffer, which [setChannelData]
    makes explicit.  For a channel the buffer does not have the source
    throws; the pipeline only asks for channels below [numberOfChannels]. *)
Definition getChannelData (b : AudioBuffer) (c : nat) : list Q :=
  default [] (channels b !! c).

Definition setChannelData (b : AudioBuffer) (c : nat) (d : list Q) : AudioBuffer :=
  mkAudioBuffer (numberOfChannels b) (bufferLength b) (sampleRate b)
                (<[c := d]> (channels b)).

(** ** Channel separator, stereo branch (lines 179-229) *)

Record CenterSide := mkCenterSide {
  centerChannel : list Q;
  sideChannelLeft : list Q;
  sideChannelRight : list Q
}.

(** First pass: center and side channels. *)
Definition firstPass (length : nat) (leftChannel rightChannel : list Q) : CenterSide :=
  for_range 0 length
    (fun i s =>
       let left := rd leftChannel i in
       let right := rd rightChannel i in
       let center := <[i := (left + right) / 2]> (centerChannel s) in
       mkCenterSide center
         (<[i := left - rd center i]> (sideChannelLeft s))
         (<[i := right - rd center i]> (sideChannelRight s)))
    (mkCenterSide (newFloat32Array length) (newFloat32Array length)
                  (newFloat32Array length)).

(** The four output arrays the stereo branch writes. *)
Record Stems := mkStems {
  vocalsLeft : list Q;
  vocalsRight : list Q;
  accompanimentLeft : list Q;
  accompanimentRight : list Q
}.

Definition smoothingFactor : Q := 3 # 10.

(** Second pass: the smoothing filter. *)
Definition secondPass (length : nat) (cs : CenterSide) (out : Stems) : Stems :=
  let out0 :=
    mkStems (<[O := rd (centerChannel cs) 0]> (vocalsLeft out))
            (<[O := rd (centerChannel cs) 0]> (vocalsRight out))
            (<[O := rd (sideChannelLeft cs) 0]> (accompanimentLeft out))
            (<[O := rd (sideChannelRight cs) 0]> (accompanimentRight out)) in
  for_range 1 length
    (fun i s =>
       mkStems
         (<[i := rd (vocalsLeft s) (i - 1) * (1 - smoothingFactor)
                 + rd (centerChannel cs) i * smoothingFactor]> (vocalsLeft s))
         (<[i := rd (vocalsRight s) (i - 1) * (1 - smoothingFactor)
                 + rd (centerChannel cs) i * smoothingFactor]> (vocalsRight s))
         (<[i := rd (accompanimentLeft s) (i - 1) * (1 - smoothingFactor)
                 + rd (sideChannelLeft cs) i * smoothingFactor]> (accompanimentLeft s))
         (<[i := rd (accompanimentRight s) (i - 1) * (1 - smoothingFactor)
                 + rd (sideChannelRight cs) i * smoothingFactor]> (accompanimentRight s)))
    out0.

(** The arrays of channels 0 and 1 of the two fresh output buffers. *)
Definition stemsOf (vocalsBuffer accompanimentBuffer : AudioBuffer) : Stems :=
  mkStems (getChannelData vocalsBuffer 0) (getChannelData vocalsBuffer 1)
          (getChannelData accompanimentBuffer 0) (getChannelData accompanimentBuffer 1).

(** Writing the four arrays back: in the source they are the buffers' own
    channel storage. *)
Definition storeStems (vb ab : AudioBuffer) (s : Stems) : AudioBuffer * AudioBuffer :=
  (setChannelData (setChannelData vb 0 (vocalsLeft s)) 1 (vocalsRight s),
   setChannelData (setChannelData ab 0 (accompanimentLeft s)) 1 (accompanimentRight s)).

(** The stereo separation proper, up to the enhancement step. *)
Definition separateStereo (audioBuffer vocalsBuffer accompanimentBuffer : AudioBuffer)
    : Stems :=
  let length := bufferLength audioBuffer in
  let leftChannel := getChannelData audioBuffer 0 in
  let rightChannel := getChannelData audioBuffer 1 in
  secondPass length (firstPass length leftChannel rightChannel)
             (stemsOf vocalsBuffer accompanimentBuffer).

(** ** Enhancer (lines 231-272) *)

(** The part of TensorFlow.js the enhancer calls.  Each call may throw,
    which is [None] here; [dispose] returns nothing and is not a fault
    point. *)
Record TensorBackend := mkTensorBackend {
  Tensor : Type;
  tensor2d : list (list Q) -> nat * nat -> option Tensor;
  tf_mul : Tensor -> Q -> option Tensor;
  tf_tanh : Tensor -> option Tensor;
  tf_data : Tensor -> option (list Q)
}.

(** The body of the [try] block; [None] is control reaching [catch]. *)
Definition enhanceTry (tf : TensorBackend) (length : nat) (s : Stems) : option Stems :=
  vocalsTensor ← tensor2d tf [vocalsLeft s; vocalsRight s] (2%nat, length);
  accompanimentTensor ←
    tensor2d tf [accompanimentLeft s; accompanimentRight s] (2%nat, length);
  vocalsScaled ← tf_mul tf vocalsTensor (12 # 10);
  vocalsEnhanced ← tf_tanh tf vocalsScaled;
  accompanimentScaled ← tf_mul tf accompanimentTensor (11 # 10);
  accompanimentEnhanced ← tf_tanh tf accompanimentScaled;
  vocalsData ← tf_data tf vocalsEnhanced;
  accompanimentData ← tf_data tf accompanimentEnhanced;
  Some (for_range 0 length
          (fun i o =>
             mkStems (<[i := rd vocalsData i]> (vocalsLeft o))
                     (<[i := rd vocalsData (i + length)]> (vocalsRight o))
                     (<[i := rd accompanimentData i]> (accompanimentLeft o))
                     (<[i := rd accompanimentData (i + length)]> (accompanimentRight o)))
          s).

(** [if (tf) { try { ... } catch (tfError) { console.warn(...) } }]. *)
Definition enhance (tf : option TensorBackend) (length : nat) (s : Stems) : Stems :=
  match tf with
  | Some backend =>
      match enhanceTry backend length s with
      | Some s' => s'
      | None => s
      end
  | None => s
  end.

(** ** Channel separator, mono branch (lines 274-307) *)

Definition windowSize : nat := 1024.
Definition hopSize : nat := Nat.div windowSize 4.

Definition freqWeight (i : nat) : Q :=
  inject_Z (Z.of_nat i) / inject_Z (Z.of_nat windowSize).
Definition vocalWeight (i : nat) : Q := Qmin 1 (freqWeight i * 3).
Definition accompanimentWeight (i : nat) : Q := Qmin 1 ((1 - freqWeight i) * 2).

(** The two weighted copies of one window. *)
Definition weighWindow (window : list Q) : list Q * list Q :=
  for_range 0 windowSize
    (fun i w =>
       let sample := rd window i in
       (<[i := sample * vocalWeight i]> (fst w),
        <[i := sample * accompanimentWeight i]> (snd w)))
    (newFloat32Array windowSize, newFloat32Array windowSize).

(** [for (let i = 0; i < windowSize && start + i < length; i++)]: the
    accumulation into the two output arrays. *)
Definition copyWindow (length start : nat) (w : list Q * list Q)
    (out : list Q * list Q) : option (list Q * list Q) :=
  for_loop windowSize
    (fun i => (i <? windowSize)%nat && (start + i <? length)%nat) S
    (fun i o =>
       Some (<[(start + i)%nat := rd (fst o) (start + i) + rd (fst w) i]> (fst o),
             <[(start + i)%nat := rd (snd o) (start + i) + rd (snd w) i]> (snd o)))
    O out.

(** One iteration of the loop over windows. *)
Definition processWindow (length : nat) (inputData : list Q) (start : nat)
    (out : list Q * list Q) : option (list Q * list Q) :=
  let window := take windowSize (drop start inputData) in
  copyWindow length start (weighWindow window) out.

(** [for (let start = 0; start < length - windowSize; start += hopSize)].
    The bound is a signed difference, hence the comparison in [Z]. *)
Definition separateMono (audioBuffer vocalsBuffer accompanimentBuffer : AudioBuffer)
    : option (list Q * list Q) :=
  let length := bufferLength audioBuffer in
  let inputData := getChannelData audioBuffer 0 in
  for_loop length
    (fun start => (Z.of_nat start <? Z.of_nat length - Z.of_nat windowSize)%Z)
    (fun start => (start + hopSize)%nat)
    (processWindow length inputData)
    O (getChannelData vocalsBuffer 0, getChannelData accompanimentBuffer 0).

(** The accumulation loop as a counted loop over its first [n] positions;
    [copyWindow] runs it for [min windowSize (length - start)] of them
    ([copyWindow_counted] below). *)
Definition accumulate (start n : nat) (w out : list Q * list Q) : list Q * list Q :=
  for_range 0 n
    (fun i o =>
       (<[(start + i)%nat := rd (fst o) (start + i) + rd (fst w) i]> (fst o),
        <[(start + i)%nat := rd (snd o) (start + i) + rd (snd w) i]> (snd o)))
    out.

(** ** Normalizer (lines 310-341) *)

(** The running maxima of the two channels. *)
Definition peaks (length : nat) (vocalsData accompanimentData : list Q) : Q * Q :=
  for_range 0 length
    (fun i m =>
       let vocalsAbs := Qabs (rd vocalsData i) in
       let accompanimentAbs := Qabs (rd accompanimentData i) in
       (if Qgtb vocalsAbs (fst m) then vocalsAbs else fst m,
        if Qgtb accompanimentAbs (snd m) then accompanimentAbs else snd m))
    (0, 0).

(** [for (let i = 0; i < length; i++) data[i] *= gain]. *)
Definition applyGain (length : nat) (gain : Q) (data : list Q) : list Q :=
  for_range 0 length (fun i d => <[i := rd d i * gain]> d) data.

(** The scaling of one channel once its maximum is known. *)
Definition scaleToCeiling (length : nat) (maxAbs : Q) (data : list Q) : list Q :=
  if Qgtb maxAbs 0 then applyGain length (Qmin 1 ((9 # 10) / maxAbs)) data
  else data.

(** The running maximum of one channel, and what the loop over channels does
    to one channel: [peaks] computes [maxAbs] for the two buffers side by
    side ([peaks_maxAbs] below). *)
Definition maxAbs (length : nat) (data : list Q) : Q :=
  for_range 0 length
    (fun i m => let a := Qabs (rd data i) in if Qgtb a m then a else m) 0.

Definition normalizeChannel (length : nat) (data : list Q) : list Q :=
  scaleToCeiling length (maxAbs length data) data.

(** The loop over channels, on both output buffers. *)
Definition normalize (numberOfChannels length : nat)
    (bufs : AudioBuffer * AudioBuffer) : AudioBuffer * AudioBuffer :=
  for_range 0 numberOfChannels
    (fun channel b =>
       let vocalsData := getChannelData (fst b) channel in
       let accompanimentData := getChannelData (snd b) channel in
       let m := peaks length vocalsData accompanimentData in
       (setChannelData (fst b) channel (scaleToCeiling length (fst m) vocalsData),
        setChannelData (snd b) channel (scaleToCeiling length (snd m) accompanimentData)))
    bufs.

(** ** [extractVocals] (lines 161-344) *)

(** The two buffers as they stand when the normalization loop starts. *)
Definition separate (tf : option TensorBackend) (audioBuffer : AudioBuffer)
    : option (AudioBuffer * AudioBuffer) :=
  let length := bufferLength audioBuffer in
  let vocalsBuffer :=
    createBuffer (numberOfChannels audioBuffer) length (sampleRate audioBuffer) in
  let accompanimentBuffer :=
    createBuffer (numberOfChannels audioBuffer) length (sampleRate audioBuffer) in
  if (2 <=? numberOfChannels audioBuffer)%nat then
    Some (storeStems vocalsBuffer accompanimentBuffer
            (enhance tf length
               (separateStereo audioBuffer vocalsBuffer accompanimentBuffer)))
  else
    out ← separateMono audioBuffer vocalsBuffer accompanimentBuffer;
    Some (setChannelData vocalsBuffer 0 (fst out),
          setChannelData accompanimentBuffer 0 (snd out)).

Definition extractVocals (tf : option TensorBackend) (audioBuffer : AudioBuffer)
    : option (AudioBuffer * AudioBuffer) :=
  bufs ← separate tf audioBuffer;
  Some (normalize (numberOfChannels audioBuffer) (bufferLength audioBuffer) bufs).

(** ** Container encoder (lines 346-419) *)

Local Open Scope Z_scope.

(** [type AudioFormat = "mp3" | "wav"]. *)
Inductive AudioFormat := wav | mp3.

(** A [DataView] over an [ArrayBuffer] is a list of bytes, each in
    [0, 256).  The setters are only called inside the buffer, where the
    source's [DataView] cannot throw. *)
Definition toUint (width value : Z) : Z := value mod 2 ^ width.
Definition byteOf (value k : Z) : Z := (value / 2 ^ (8 * k)) mod 256.

Definition setUint8 (view : list Z) (offset : nat) (value : Z) : list Z :=
  <[offset := toUint 8 value]> view.

(** [view.setUint16(offset, value, true)] and [view.setUint32(offset, value,
    true)]: little-endian. *)
Definition setUint16 (view : list Z) (offset : nat) (value : Z) : list Z :=
  let v := toUint 16 value in
  <[(offset + 1)%nat := byteOf v 1]> (<[offset := byteOf v 0]> view).

Definition setUint32 (view : list Z) (offset : nat) (value : Z) : list Z :=
  let v := toUint 32 value in
  <[(offset + 3)%nat := byteOf v 3]>
    (<[(offset + 2)%nat := byteOf v 2]>
       (<[(offset + 1)%nat := byteOf v 1]> (<[offset := byteOf v 0]> view))).

(** The integer part of a number, rounding toward zero, as the conversion to
    [Int16] takes it. *)
Definition truncate (q : Q) : Z := Z.quot (Qnum q) (Zpos (Qden q)).

(** [view.setInt16(offset, value, true)]: the two's complement bytes of the
    truncated value. *)
Definition setInt16 (view : list Z) (offset : nat) (value : Q) : list Z :=
  setUint16 view offset (truncate value).

Definition charCodeAt (s : string) (i : nat) : Z :=
  match String.get i s with
  | Some c => Z.of_nat (nat_of_ascii c)
  | None => 0
  end.

Definition writeString (view : list Z) (offset : nat) (s : string) : list Z :=
  for_range 0 (String.length s)
    (fun i v => setUint8 v (offset + i) (charCodeAt s i)) view.

(** The 44-byte header. *)
Definition writeHeader (audioBuffer : AudioBuffer) (view : list Z) : list Z :=
  let length := Z.of_nat (bufferLength audioBuffer) in
  let numberOfChannels := Z.of_nat (numberOfChannels audioBuffer) in
  let sampleRate := sampleRate audioBuffer in
  let view := writeString view 0 "RIFF" in
  let view := setUint32 view 4 (36 + length * numberOfChannels * 2) in
  let view := writeString view 8 "WAVE" in
  let view := writeString view 12 "fmt " in
  let view := setUint32 view 16 16 in
  let view := setUint16 view 20 1 in
  let view := setUint16 view 22 numberOfChannels in
  let view := setUint32 view 24 sampleRate in
  let view := setUint32 view 28 (sampleRate * numberOfChannels * 2) in
  let view := setUint16 view 32 (numberOfChannels * 2) in
  let view := setUint16 view 34 16 in
  let view := writeString view 36 "data" in
  setUint32 view 40 (length * numberOfChannels * 2).

(** The interleaved samples: the view and the running [offset]. *)
Definition writeSamples (audioBuffer : AudioBuffer) (view : list Z) : list Z * nat :=
  for_range 0 (bufferLength audioBuffer)
    (fun i st =>
       for_range 0 (numberOfChannels audioBuffer)
         (fun channel st =>
            let sample :=
              Qmax (-1) (Qmin 1 (rd (getChannelData audioBuffer channel) i)) in
            (setInt16 (fst st) (snd st) (sample * 32767)%Q, (snd st + 2)%nat))
         st)
    (view, 44%nat).

(** The bytes of [wavData] when the function is done with it. *)
Definition wavBytes (audioBuffer : AudioBuffer) : list Z :=
  let wavData :=
    replicate (44 + bufferLength audioBuffer * numberOfChannels audioBuffer * 2) 0 in
  fst (writeSamples audioBuffer (writeHeader audioBuffer wavData)).

(** [binary += String.fromCharCode(bytes[i])] for every byte. *)
Definition fromCharCode (code : Z) : ascii := ascii_of_N (Z.to_N code).

Definition binaryString (bytes : list Z) : string :=
  for_range 0 (List.length bytes)
    (fun i binary => (binary ++ String (fromCharCode (default 0 (bytes !! i))) EmptyString)%string)
    EmptyString.

(** The browser's [btoa]: base64 (RFC 4648) with padding, of a string of
    characters below 256. *)
Definition base64Alphabet : string :=
  "ABCDEFGHIJKLMNOPQRSTUVWXYZabcdefghijklmnopqrstuvwxyz0123456789+/".

Definition base64Char (sextet : Z) : ascii :=
  match String.get (Z.to_nat sextet) base64Alphabet with
  | Some c => c
  | None => "="%char
  end.

Definition code (c : ascii) : Z := Z.of_nat (nat_of_ascii c).

Fixpoint btoa (binary : string) : string :=
  match binary with
  | EmptyString => EmptyString
  | String a EmptyString =>
      String (base64Char (code a / 4))
        (String (base64Char (code a mod 4 * 16)) "==")
  | String a (String b EmptyString) =>
      String (base64Char (code a / 4))
        (String (base64Char (code a mod 4 * 16 + code b / 16))
           (String (base64Char (code b mod 16 * 4)) "="))
  | String a (String b (String c rest)) =>
      String (base64Char (code a / 4))
        (String (base64Char (code a mod 4 * 16 + code b / 16))
           (String (base64Char (code b mod 16 * 4 + code c / 64))
              (String (base64Char (code c mod 64)) (btoa rest))))
  end.

Definition audioBufferToWavBase64 (audioBuffer : AudioBuffer) : string :=
  btoa (binaryString (wavBytes audioBuffer)).

(** "For now, always use WAV format". *)
Definition audioBufferToMp3Base64 (audioBuffer : AudioBuffer) : string :=
  audioBufferToWavBase64 audioBuffer.

(** [format] is [None] when the caller leaves the argument out, and then
    defaults to ["mp3"]. *)
Definition audioBufferToBase64 (audioBuffer : AudioBuffer)
    (format : option AudioFormat) : string :=
  match default mp3 format with
  | wav => audioBufferToWavBase64 audioBuffer
  | mp3 => audioBufferToMp3Base64 audioBuffer
  end.

Local Close Scope Z_scope.

(** ** The extraction entry point (lines 421-495) *)

(** An uploaded [File]: only its identity matters here. *)
Record File := mkFile { fileName : string; fileBytes : list Z }.

Record ExtractionResult := mkResult {
  vocals : string;
  accompaniment : string;
  original : string
}.

(** The component's extraction state: the [useState] cells the entry point
    writes, and [inputFile]. *)
Record ExtractionState := mkState {
  inputFile : option File;
  isProcessing : bool;
  progress : Z;
  error : option string;
  result : option ExtractionResult
}.

Definition setIsProcessing (s : ExtractionState) (v : bool) : ExtractionState :=
  mkState (inputFile s) v (progress s) (error s) (result s).
Definition setProgress (s : ExtractionState) (v : Z) : ExtractionState :=
  mkState (inputFile s) (isProcessing s) v (error s) (result s).
Definition setError (s : ExtractionState) (v : option string) : ExtractionState :=
  mkState (inputFile s) (isProcessing s) (progress s) v (result s).
Definition setResult (s : ExtractionState) (v : option ExtractionResult)
    : ExtractionState :=
  mkState (inputFile s) (isProcessing s) (progress s) (error s) v.
Definition setInputFile (s : ExtractionState) (v : option File) : ExtractionState :=
  mkState v (isProcessing s) (progress s) (error s) (result s).

(** The synchronous part of [handleExtractVocals]: the new state, and the
    file whose read [reader.readAsDataURL] has started, if any.  The file
    read, the decode and the separation all hang off that read.  Creating
    the reader and starting the read do not throw, so the outer [catch] is
    never entered; console output is not modelled. *)
Definition handleExtractVocals (engineLoaded : bool) (s : ExtractionState)
    : ExtractionState * option File :=
  if isProcessing s then (s, None)
  else
    match inputFile s with
    | None => (setError s (Some "Please select an audio file"%string), None)
    | Some file =>
        if negb engineLoaded then
          (setError s
             (Some "Audio processing engine is not ready yet. Please wait a moment."%string),
           None)
        else
          (setProgress (setResult (setError (setIsProcessing s true) None) None) 0,
           Some file)
    end.

(** What [processAudioWithAI] came to: the two encoded stems, or the thrown
    value's message when it is an [Error]. *)
Inductive Processed :=
| Stems64 (vocals64 accompaniment64 : string)
| Thrown (message : option string).

(** [reader.onload], with its [try], [catch] and [finally]. *)
Definition readerOnload (s : ExtractionState) (originalBase64 : string)
    (p : Processed) : ExtractionState :=
  let s := setProgress s 25 in
  let s :=
    match p with
    | Stems64 v a => setResult (setProgress s 100) (Some (mkResult v a originalBase64))
    | Thrown message =>
        setError s (Some (default "Failed to extract vocals"%string message))
    end in
  setProgress (setIsProcessing s false) 0.

(** [reader.onerror]. *)
Definition readerOnerror (s : ExtractionState) : ExtractionState :=
  setProgress
    (setIsProcessing (setError s (Some "Failed to read the audio file"%string)) false)
    0.

(** The component over time.  [inFlight] counts the runs whose file read has
    started and whose [onload] or [onerror] handler has not yet finished; a
    run that [processAudioWithAI] gives up on after its 30 seconds finishes
    there, with [Thrown].  Every handler sees the state as the handlers
    before it left it. *)
Record Machine := mkMachine {
  engineLoaded : bool;
  extraction : ExtractionState;
  inFlight : nat
}.

Definition initialMachine : Machine :=
  mkMachine false (mkState None false 0 None None) 0.

Definition invoke (m : Machine) : Machine :=
  let r := handleExtractVocals (engineLoaded m) (extraction m) in
  mkMachine (engineLoaded m) (fst r)
            (match snd r with Some _ => S (inFlight m) | None => inFlight m end).

Inductive step : Machine -> Machine -> Prop :=
| step_invoke (m : Machine) :
    step m (invoke m)
| step_loaded (m : Machine) (originalBase64 : string) (p : Processed) :
    (0 < inFlight m)%nat ->
    step m (mkMachine (engineLoaded m)
              (readerOnload (extraction m) originalBase64 p) (inFlight m - 1))
| step_read_error (m : Machine) :
    (0 < inFlight m)%nat ->
    step m (mkMachine (engineLoaded m) (readerOnerror (extraction m)) (inFlight m - 1))
| step_file_change (m : Machine) (file : option File) :
    step m (mkMachine (engineLoaded m) (setInputFile (extraction m) file) (inFlight m))
| step_engine_ready (m : Machine) :
    step m (mkMachine true (extraction m) (inFlight m))
| step_engine_failed (m : Machine) :
    step m (mkMachine (engineLoaded m)
              (setError (extraction m)
                 (Some "Failed to initialize AI processing engine"%string))
              (inFlight m)).

Inductive reachable : Machine -> Prop :=
| reachable_initial : reachable initialMachine
| reachable_step (m m' : Machine) : reachable m -> step m m' -> reachable m'.

(** Runs in flight and the [isProcessing] flag go together. *)
Definition inFlightMatchesFlag (m : Machine) : Prop :=
  inFlight m = if isProcessing (extraction m) then 1%nat else 0%nat.

(** * The specification's vocabulary *)

(** ** The stereo separation as the specification words it *)

(** [center[i] = (left[i] + right[i]) / 2] and the two residuals. *)
Definition center (left right : list Q) (i : nat) : Q :=
  (rd left i + rd right i) / 2.
Definition sideLeft (left right : list Q) (i : nat) : Q :=
  rd left i - center left right i.
Definition sideRight (left right : list Q) (i : nat) : Q :=
  rd right i - center left right i.

(** [y[0] = x[0]], [y[i] = y[i-1]*0.7 + x[i]*0.3]. *)
Fixpoint smoothed (x : nat -> Q) (i : nat) : Q :=
  match i with
  | O => x O
  | S j => smoothed x j * (7 # 10) + x (S j) * (3 # 10)
  end.

(** ** The mono separation as the specification words it *)

(** The offsets of the windows the loop processes: the multiples of the hop
    size, from 0 up to the buffer length, that pass the loop guard
    [start < length - windowSize], in increasing order. *)
Definition processedStarts (length : nat) : list nat :=
  List.filter (fun start => (Z.of_nat start <? Z.of_nat length - 1024)%Z)
              (List.map (fun m => (m * 256)%nat) (seq 0 (length / 256 + 1))).

(** The sum, over the windows of [starts] that overlap position [k], of
    [sample[k] * weight (k - s)]. *)
Definition overlapAdd (weight : nat -> Q) (input : list Q) (starts : list nat)
    (k : nat) : Q :=
  fold_left
    (fun acc s =>
       if (s <=? k)%nat && (k <? s + 1024)%nat
       then acc + rd input k * weight (k - s)%nat
       else acc)
    starts 0.

(** [min(1, (j/1024)*3)] and [min(1, (1 - j/1024)*2)]. *)
Definition vocalsShare (j : nat) : Q := Qmin 1 (inject_Z (Z.of_nat j) / 1024 * 3).
Definition accompanimentShare (j : nat) : Q :=
  Qmin 1 ((1 - inject_Z (Z.of_nat j) / 1024) * 2).

(** ** The normalizer as the specification words it *)

(** [peak = max(|sample|)] over a channel; 0 for an empty one. *)
Definition peak (data : list Q) : Q :=
  fold_left (fun m x => Qmax m (Qabs x)) data 0.

(** [gain = min(1, 0.9 / peak)]. *)
Definition gainFor (p : Q) : Q := Qmin 1 ((9 # 10) / p).

(** What the normalizer is to do to one channel: scale by the gain when the
    peak is positive, and leave the channel alone otherwise; with the three
    consequences the specification draws. *)
Definition normalizedAsSpecified (data data' : list Q) : Prop :=
  (0 < peak data -> data' = List.map (fun x => x * gainFor (peak data)) data) /\
  (~ 0 < peak data -> data' = data) /\
  (0 < peak data -> peak data' <= 9 # 10) /\
  (peak data <= 9 # 10 -> data' = data) /\
  ((forall x, In x data -> x == 0) -> data' = data).

(** ** A wav container as the specification words it *)

Local Open Scope Z_scope.

(** Modelled from the spec: the reader of the container of section 4.5, which
    the repository does not have.  A 44-byte header with the RIFF, WAVE,
    fmt and data tags, PCM format code 1, 16-bit sample depth, block align =
    channelCount * 2, byte rate = sampleRate * channelCount * 2, followed by
    the data bytes the header announces. *)
Record WavInfo := mkWavInfo {
  wavChannels : Z;
  wavSampleRate : Z;
  wavBitsPerSample : Z;
  wavDataBytes : Z
}.

Definition getUint8 (bytes : list Z) (offset : nat) : Z := default 0 (bytes !! offset).
Definition getUint16 (bytes : list Z) (offset : nat) : Z :=
  getUint8 bytes offset + 256 * getUint8 bytes (offset + 1).
Definition getUint32 (bytes : list Z) (offset : nat) : Z :=
  getUint16 bytes offset + 65536 * getUint16 bytes (offset + 2).
Definition tagAt (bytes : list Z) (offset : nat) (tag : string) : bool :=
  forallb (fun i => getUint8 bytes (offset + i) =? charCodeAt tag i)
          (seq 0 (String.length tag)).

Definition parseWav (bytes : list Z) : option WavInfo :=
  let channelCount := getUint16 bytes 22 in
  let rate := getUint32 bytes 24 in
  let dataBytes := getUint32 bytes 40 in
  if tagAt bytes 0 "RIFF" && (getUint32 bytes 4 =? 36 + dataBytes)
     && tagAt bytes 8 "WAVE" && tagAt bytes 12 "fmt "
     && (getUint32 bytes 16 =? 16) && (getUint16 bytes 20 =? 1)
     && (1 <=? channelCount) && (1 <=? rate)
     && (getUint32 bytes 28 =? rate * channelCount * 2)
     && (getUint16 bytes 32 =? channelCount * 2)
     && (getUint16 bytes 34 =? 16)
     && tagAt bytes 36 "data"
     && (Z.of_nat (List.length bytes) =? 44 + dataBytes)
  then Some (mkWavInfo channelCount rate 16 dataBytes)
  else None.

(** The browser's [atob], to read the bytes back out of the text the encoder
    returns: the decoder of the same base64, refusing anything malformed. *)
Fixpoint sextetIn (alphabet : string) (c : ascii) (i : Z) : option Z :=
  match alphabet with
  | EmptyString => None
  | String a rest => if Ascii.eqb a c then Some i else sextetIn rest c (i + 1)
  end.

Definition sextetOf (c : ascii) : option Z := sextetIn base64Alphabet c 0.

Definition isEmpty (s : string) : bool :=
  match s with EmptyString => true | _ => false end.

Fixpoint atob (text : string) : option (list Z) :=
  match text with
  | EmptyString => Some []
  | String c0 (String c1 (String c2 (String c3 rest))) =>
      match sextetOf c0, sextetOf c1 with
      | Some s0, Some s1 =>
          if Ascii.eqb c2 "=" then
            if Ascii.eqb c3 "=" && isEmpty rest then Some [s0 * 4 + s1 / 16]
            else None
          else
            match sextetOf c2 with
            | Some s2 =>
                if Ascii.eqb c3 "=" then
                  if isEmpty rest
                  then Some [s0 * 4 + s1 / 16; s1 mod 16 * 16 + s2 / 4]
                  else None
                else
                  match sextetOf c3, atob rest with
                  | Some s3, Some bytes =>
                      Some (s0 * 4 + s1 / 16
                            :: s1 mod 16 * 16 + s2 / 4
                            :: s2 mod 4 * 64 + s3 :: bytes)
                  | _, _ => None
                  end
            | None => None
            end
      | _, _ => None
      end
  | _ => None
  end.

(** What a [Uint8Array] holds. *)
Definition isByte (b : Z) : Prop := 0 <= b < 256.

(** The sizes a wav header can hold: its fields are 16 and 32 bits wide. *)
Definition fitsWavHeader (audioBuffer : AudioBuffer) : Prop :=
  let length := Z.of_nat (bufferLength audioBuffer) in
  let n := Z.of_nat (numberOfChannels audioBuffer) in
  n * 2 < 2 ^ 16 /\
  1 <= sampleRate audioBuffer /\
  sampleRate audioBuffer * n * 2 < 2 ^ 32 /\
  36 + length * n * 2 < 2 ^ 32.

Local Close Scope Z_scope.

(** * Sample inputs *)

(** A three-sample stereo buffer at 44100 Hz. *)
Definition stereo3 : AudioBuffer :=
  mkAudioBuffer 2 3 44100 [[1; 0; 1 # 2]; [0; 1; 1 # 2]].

(** A mono buffer of 1281 samples, long enough for two windows (offsets 0
    and 256): the samples repeat 0, 1/4, 1/2. *)
Definition mono1281 : AudioBuffer :=
  mkAudioBuffer 1 1281 44100
    [List.map (fun i => inject_Z (Z.of_nat (i mod 3)) / 4) (seq 0 1281)].

(** Two three-sample stereo buffers to normalize: one with a channel that
    clips and a silent channel, one with a quiet and a loud channel. *)
Definition clipping2x3 : AudioBuffer :=
  mkAudioBuffer 2 3 44100 [[2; -1; 1 # 2]; [0; 0; 0]].
Definition mixed2x3 : AudioBuffer :=
  mkAudioBuffer 2 3 44100 [[1 # 2; -1 # 4; 0]; [1; -3; 1 # 2]].

(** A non-silent mono buffer of exactly one window's length. *)
Definition mono1024 : AudioBuffer :=
  mkAudioBuffer 1 1024 44100 [replicate 1024 (1 # 2)].

(** A backend whose tensor construction throws, and one that only fails
    when the enhanced data is read back. *)
Definition throwingBackend : TensorBackend :=
  mkTensorBackend unit (fun _ _ => None) (fun _ _ => None) (fun _ => None)
                  (fun _ => None).
Definition unreadableBackend : TensorBackend :=
  mkTensorBackend (list Q) (fun rows _ => Some (concat rows))
                  (fun t g => Some (List.map (fun x => x * g) t))
                  (fun t => Some t) (fun _ => None).

(** A stereo buffer at 44100 Hz holding the same constant in both channels,
    and the two-second one holding 0.5. *)
Definition constantStereo (n : nat) (v : Q) : AudioBuffer :=
  mkAudioBuffer 2 n 44100 [replicate n v; replicate n v].
Definition halfStereo : AudioBuffer := constantStereo (Z.to_nat (2 * 44100)) (1 # 2).

(** A file, a state in the middle of a run, and the machine after a file
    was chosen, the engine came up and the button was pressed twice. *)
Definition song : File := mkFile "song.wav" [82; 73; 70; 70]%Z.
Definition busyState : ExtractionState := mkState (Some song) true 25 None None.
Definition pressedTwice : Machine :=
  invoke (invoke (mkMachine true (setInputFile (extraction initialMachine) (Some song)) 0)).

(** * More of the component *)

(** ** [processAudioWithAI] (lines 87-159) *)

(** What the browser made of the file by the time the promise settles:
    creating the audio context threw; the reader reported an error; or the
    reader delivered the bytes and then [decodeAudioData] resolved, rejected,
    or lost the race against the 10 second timer. *)
Inductive DecodeOutcome :=
| Decoded (audioBuffer : AudioBuffer)
| DecodeRejected (message : option string)
| DecodeTimedOut.

Inductive ReadOutcome :=
| ContextThrew (message : option string)
| ReadFailed
| ReadLoaded (decode : DecodeOutcome).

(** The value the promise settles with.  [timedOut] says that the 30 second
    timer fired while the promise was still pending; a promise settles once,
    so whatever the handlers do afterwards is lost.  [extractVocals] has no
    fault point of its own: the model's [None] (a loop out of fuel) does not
    occur for a buffer of the Web Audio API ([extractVocals_keeps_shape]). *)
Definition processAudioWithAI (tf : option TensorBackend) (outputFormat : AudioFormat)
    (timedOut : bool) (read : ReadOutcome) : Processed :=
  if timedOut then Thrown (Some "Audio processing timed out after 30 seconds"%string)
  else
    match read with
    | ContextThrew message => Thrown message
    | ReadFailed => Thrown (Some "Failed to read audio file"%string)
    | ReadLoaded DecodeTimedOut => Thrown (Some "Audio decoding timed out"%string)
    | ReadLoaded (DecodeRejected message) => Thrown message
    | ReadLoaded (Decoded audioBuffer) =>
        match extractVocals tf audioBuffer with
        | Some (vocals, accompaniment) =>
            Stems64 (audioBufferToBase64 vocals (Some outputFormat))
                    (audioBufferToBase64 accompaniment (Some outputFormat))
        | None => Thrown None
        end
    end.

(** ** [createAudioBlob] of the API service, which the player calls on each
    stem *)

Record Blob := mkBlob { blobBytes : list Z; blobType : string }.

(** [new Blob([Uint8Array.from(atob(base64Audio), c => c.charCodeAt(0))],
    { type: mimeType })], with [mimeType] defaulting to ["audio/wav"];
    [atob] throws on text that is not base64. *)
Definition createAudioBlob (base64Audio : string) (mimeType : option string)
    : option Blob :=
  audioData ← atob base64Audio;
  Some (mkBlob audioData (default "audio/wav"%string mimeType)).

(** ** [AudioUpload] (src/components/AudioUpload.tsx), the control that sets
    [inputFile] *)

(** A [File] as the upload control looks at it: its MIME type and its size
    in bytes, besides the file itself. *)
Record SelectedFile := mkSelectedFile {
  fileType : string;
  fileSize : Z;
  fileContent : File
}.

(** The control's own [useState] cells. *)
Record UploadState := mkUploadState {
  uploadError : option string;
  isDragOver : bool
}.

Definition setUploadError (u : UploadState) (v : option string) : UploadState :=
  mkUploadState v (isDragOver u).
Definition setIsDragOver (u : UploadState) (v : bool) : UploadState :=
  mkUploadState (uploadError u) v.

(** [s.startsWith(prefix)]. *)
Definition startsWith (s prefix : string) : bool := String.prefix prefix s.

(** Lines 34-50: the new state and the value returned. *)
Definition validateFile (u : UploadState) (selectedFile : SelectedFile)
    : UploadState * bool :=
  if negb (startsWith (fileType selectedFile) "audio/") then
    (setUploadError u (Some "Please upload an audio file"%string), false)
  else
    let maxSize := (50 * 1024 * 1024)%Z in
    if (fileSize selectedFile >? maxSize)%Z then
      (setUploadError u (Some "File size must be less than 50MB"%string), false)
    else (setUploadError u None, true).

(** A handler's effect outside the control: the argument of the call to
    [onFileChange] it made, if it made one ([Some None] is a call with
    [null]). *)
Definition FileChange : Type := option (option File).

(** Lines 52-56. *)
Definition handleFileSelect (u : UploadState) (selectedFile : SelectedFile)
    : UploadState * FileChange :=
  let r := validateFile u selectedFile in
  if snd r then (fst r, Some (Some (fileContent selectedFile))) else (fst r, None).

(** Lines 58-63: [files] is [event.target.files]. *)
Definition handleInputChange (u : UploadState) (files : list SelectedFile)
    : UploadState * FileChange :=
  match files with
  | selectedFile :: _ => handleFileSelect u selectedFile
  | [] => (u, None)
  end.

(** Lines 65-75. *)
Definition handleDragOver (disabled : bool) (u : UploadState) : UploadState :=
  if negb disabled then setIsDragOver u true else u.
Definition handleDragLeave (u : UploadState) : UploadState := setIsDragOver u false.

(** Lines 77-87: [files] is [event.dataTransfer.files]. *)
Definition handleDrop (disabled : bool) (u : UploadState) (files : list SelectedFile)
    : UploadState * FileChange :=
  let u := setIsDragOver u false in
  if disabled then (u, None)
  else
    match files with
    | droppedFile :: _ => handleFileSelect u droppedFile
    | [] => (u, None)
    end.

(** Lines 95-101. *)
Definition handleRemoveFile (u : UploadState) : UploadState * FileChange :=
  (setUploadError u None, Some None).

(** ** The page: the component with its upload control (lines 497-620) *)

Record Page := mkPage {
  component : Machine;
  uploadControl : UploadState
}.

Definition initialPage : Page := mkPage initialMachine (mkUploadState None false).

(** [onFileChange={setInputFile}]. *)
Definition onFileChange (m : Machine) (change : FileChange) : Machine :=
  match change with
  | Some file => mkMachine (engineLoaded m) (setInputFile (extraction m) file) (inFlight m)
  | None => m
  end.

Inductive PageEvent :=
| Click
| InputChange (files : list SelectedFile)
| DragOver
| DragLeave
| Drop (files : list SelectedFile)
| Remove
| ReaderLoaded (originalBase64 : string) (p : Processed)
| ReaderError
| EngineReady
| EngineFailed.

(** Whether an event can reach its handler.  Until the engine is loaded the
    component renders a loading card without controls.  After that the
    button is [disabled={isProcessing || !inputFile}], the upload control is
    [disabled={isProcessing}]: its file input is disabled with it, and its
    remove button is rendered for a selected file of a control that is not
    disabled; the drag handlers are always attached and check [disabled]
    themselves.  A reader handler runs for a run in flight. *)
Definition enabled (p : Page) (e : PageEvent) : bool :=
  let m := component p in
  let s := extraction m in
  match e with
  | Click => engineLoaded m && negb (isProcessing s || negb (bool_decide (inputFile s <> None)))
  | InputChange _ => engineLoaded m && negb (isProcessing s)
  | DragOver | DragLeave | Drop _ => engineLoaded m
  | Remove =>
      engineLoaded m && bool_decide (inputFile s <> None) && negb (isProcessing s)
  | ReaderLoaded _ _ | ReaderError => (0 <? inFlight m)%nat
  | EngineReady | EngineFailed => true
  end.

(** The handler an event runs. *)
Definition handle (p : Page) (e : PageEvent) : Page :=
  let m := component p in
  let u := uploadControl p in
  let disabled := isProcessing (extraction m) in
  match e with
  | Click => mkPage (invoke m) u
  | InputChange files =>
      let r := handleInputChange u files in mkPage (onFileChange m (snd r)) (fst r)
  | DragOver => mkPage m (handleDragOver disabled u)
  | DragLeave => mkPage m (handleDragLeave u)
  | Drop files =>
      let r := handleDrop disabled u files in mkPage (onFileChange m (snd r)) (fst r)
  | Remove =>
      let r := handleRemoveFile u in mkPage (onFileChange m (snd r)) (fst r)
  | ReaderLoaded originalBase64 processed =>
      mkPage (mkMachine (engineLoaded m)
                (readerOnload (extraction m) originalBase64 processed) (inFlight m - 1))
             u
  | ReaderError =>
      mkPage (mkMachine (engineLoaded m) (readerOnerror (extraction m)) (inFlight m - 1)) u
  | EngineReady => mkPage (mkMachine true (extraction m) (inFlight m)) u
  | EngineFailed =>
      mkPage (mkMachine (engineLoaded m)
                (setError (extraction m)
                   (Some "Failed to initialize AI processing engine"%string))
                (inFlight m))
             u
  end.

Inductive pageReachable : Page -> Prop :=
| pageReachable_initial : pageReachable initialPage
| pageReachable_step (p : Page) (e : PageEvent) :
    pageReachable p -> enabled p e = true -> pageReachable (handle p e).

(** * The job store and its polling hook *)

(** ** [useTTSStore] (src/stores/ttsStore.ts) *)

(** [JobStatus["status"]]. *)
Inductive StoreStatus := pending | running | completed | failed.

(** The output object of the remote API ([result?: any]), kept as its JSON
    text. *)
Definition Output : Type := string.

(** A [JobStatus].  [jobId] and [createdAt] are the fields [id] and
    [createdAt]: [updateJobStatus] builds an entry that lacks them when the
    store holds none for the id it is given.  Dates are milliseconds. *)
Record JobStatus := mkJobStatus {
  jobId : option string;
  jobState : StoreStatus;
  jobResult : option Output;
  jobError : option string;
  createdAt : option Z;
  updatedAt : Z
}.

(** The store's state.  [jobs] is a [Record<string, JobStatus>]; the ids are
    those the remote API hands out, none of which names a property that
    every JavaScript object inherits. *)
Record TTSStore := mkTTSStore {
  jobs : gmap string JobStatus;
  currentJobId : option string
}.

Definition initialStore : TTSStore := mkTTSStore ∅ None.

(** Lines 37-51; [now] is [new Date()]. *)
Definition startJob (id : string) (now : Z) (state : TTSStore) : TTSStore :=
  mkTTSStore
    (<[id := mkJobStatus (Some id) pending None None (Some now) now]> (jobs state))
    (Some id).

(** Lines 53-71: the entry found for the id is spread, then [status],
    [result], [error] and [updatedAt] are set, to [undefined] where the
    caller passed nothing. *)
Definition updateJobStatus (id : string) (status : StoreStatus)
    (result : option Output) (error : option string) (now : Z) (state : TTSStore)
    : TTSStore :=
  let old := jobs state !! id in
  mkTTSStore
    (<[id := mkJobStatus (old ≫= jobId) status result error (old ≫= createdAt) now]>
       (jobs state))
    (currentJobId state).

Definition setCurrentJob (id : option string) (state : TTSStore) : TTSStore :=
  mkTTSStore (jobs state) id.

(** Lines 77-86. *)
Definition clearJob (id : string) (state : TTSStore) : TTSStore :=
  mkTTSStore (delete id (jobs state))
    (if bool_decide (currentJobId state = Some id) then None else currentJobId state).

Definition clearAllJobs (state : TTSStore) : TTSStore := mkTTSStore ∅ None.

(** [state.currentJobId ? state.jobs[state.currentJobId] || null : null]:
    the empty string is falsy. *)
Definition getCurrentJob (state : TTSStore) : option JobStatus :=
  match currentJobId state with
  | Some id => if isEmpty id then None else jobs state !! id
  | None => None
  end.

(** [job?.status === "running" || job?.status === "pending"]. *)
Definition isJobRunning (id : string) (state : TTSStore) : bool :=
  match jobs state !! id with
  | Some job =>
      match jobState job with
      | running | pending => true
      | completed | failed => false
      end
  | None => false
  end.

(** ** [useJobPolling] (src/hooks/useJobPolling.ts) *)

(** What [runPodAPI.pollJobStatus(jobId)] came to: a [JobResponse] with its
    [status], [output] and [error], or a throw, with the message of the
    thrown value when it is an [Error]. *)
Inductive PollOutcome :=
| Polled (status : string) (output : option Output) (error : option string)
| PollThrew (message : option string).

(** The [switch] of lines 27-43 and 91-107. *)
Definition storeStatusOf (status : string) : StoreStatus :=
  if String.eqb status "IN_QUEUE" then pending
  else if String.eqb status "IN_PROGRESS" then running
  else if String.eqb status "COMPLETED" then completed
  else if String.eqb status "FAILED" then failed
  else if String.eqb status "CANCELLED" then failed
  else pending.

(** Whether the effect of lines 12-81 sets up the interval: [jobId] is set,
    not empty, and names a job that is running. *)
Definition polls (id : option string) (state : TTSStore) : bool :=
  match id with
  | Some id => negb (isEmpty id) && isJobRunning id state
  | None => false
  end.

(** The ref of line 10, [intervalRef.current]: whether it holds the handle
    of an interval.  The hook sets the ref and the interval together
    (line 72) and clears them together (lines 14-17, 49-52, 64-67, 76-79),
    so one flag stands for both. *)
Definition IntervalRef := bool.

(** The body of the effect, lines 12-72, run after the cleanup of the
    previous run: with no running job it clears the interval, otherwise it
    sets one. *)
Definition startPolling (id : option string) (state : TTSStore)
    (intervalRef : IntervalRef) : IntervalRef :=
  if polls id state then true else false.

(** The cleanup the effect returns, lines 75-80. *)
Definition stopPolling (intervalRef : IntervalRef) : IntervalRef := false.

(** One call of [pollJob], lines 21-69, from the moment its API call
    settles: the new store and the new ref.  The calls are asynchronous, so
    they overlap with later ticks and with the cleanup: [intervalRef] is the
    ref as the call finds it then, which may have been cleared since the
    tick that started the call.  A final status or a throw clears it; any
    other answer leaves it as it is. *)
Definition pollJob (id : string) (outcome : PollOutcome) (now : Z) (state : TTSStore)
    (intervalRef : IntervalRef) : TTSStore * IntervalRef :=
  match outcome with
  | Polled status output error =>
      let storeStatus := storeStatusOf status in
      (updateJobStatus id storeStatus output error now state,
       match storeStatus with
       | completed | failed => false
       | pending | running => intervalRef
       end)
  | PollThrew message =>
      (updateJobStatus id failed None
         (Some (default "Polling failed"%string message)) now state,
       false)
  end.

(** An answer after which [pollJob] does not clear the interval: a response
    whose status is none of the three mapped to completed or failed at
    lines 34-40. *)
Definition notFinal (outcome : PollOutcome) : Prop :=
  exists status output error,
    outcome = Polled status output error /\
    status <> "COMPLETED"%string /\ status <> "FAILED"%string /\
    status <> "CANCELLED"%string.

(** Lines 84-121: the new store; the promise resolves with the response or
    rejects with what was thrown. *)
Definition manualPoll (id : option string) (outcome : PollOutcome) (now : Z)
    (state : TTSStore) : TTSStore :=
  match id with
  | None => state
  | Some id =>
      if isEmpty id then state
      else
        match outcome with
        | Polled status output error =>
            updateJobStatus id (storeStatusOf status) output error now state
        | PollThrew message =>
            updateJobStatus id failed None
              (Some (default "Manual polling failed"%string message)) now state
        end
  end.

(** What can happen to the store: the actions, with [setCurrentJob] given
    the id of a job the store holds, as the page does right after
    [startJob], or [null]. *)
Inductive storeStep : TTSStore -> TTSStore -> Prop :=
| storeStep_start (state : TTSStore) (id : string) (now : Z) :
    storeStep state (startJob id now state)
| storeStep_update (state : TTSStore) (id : string) (status : StoreStatus)
    (result : option Output) (error : option string) (now : Z) :
    storeStep state (updateJobStatus id status result error now state)
| storeStep_select (state : TTSStore) (id : string) :
    is_Some (jobs state !! id) -> storeStep state (setCurrentJob (Some id) state)
| storeStep_deselect (state : TTSStore) :
    storeStep state (setCurrentJob None state)
| storeStep_clear (state : TTSStore) (id : string) :
    storeStep state (clearJob id state)
| storeStep_clear_all (state : TTSStore) :
    storeStep state (clearAllJobs state).

Inductive storeReachable : TTSStore -> Prop :=
| storeReachable_initial : storeReachable initialStore
| storeReachable_step (state state' : TTSStore) :
    storeReachable state -> storeStep state state' -> storeReachable state'.

(** * Notions used to state further properties *)

(** The weights of the windows of [starts] that cover position [k], summed:
    what the mono branch multiplies the sample at [k] by. *)
Definition coverGain (weight : nat -> Q) (starts : list nat) (k : nat) : Q :=
  fold_left
    (fun acc s =>
       if (s <=? k)%nat && (k <? s + 1024)%nat then acc + weight (k - s)%nat else acc)
    starts 0.

(** The windows of [starts] that cover position [k]. *)
Definition covering (starts : list nat) (k : nat) : list nat :=
  List.filter (fun s => (s <=? k)%nat && (k <? s + 1024)%nat) starts.

(** [DataView.getInt16(offset, true)], to read a sample back out of the
    container: the little-endian 16 bits as a two's complement number. *)
Definition getInt16 (bytes : list Z) (offset : nat) : Z :=
  let u := getUint16 bytes offset in
  if (u <? 32768)%Z then u else (u - 65536)%Z.

(** A backend whose calls all succeed, as the library's do on two rows of
    the declared length: a tensor is the row-major list of its entries,
    [tensor2d] throws unless the rows fit the shape, [mul] and [tanh] work
    entry by entry, and [data] hands the entries back.  The product and the
    hyperbolic tangent the backend computes are parameters: the library
    rounds both to single precision, and the hyperbolic tangent has no
    rational values. *)
Definition elementwiseBackend (mul : Q -> Q -> Q) (tanh : Q -> Q) : TensorBackend :=
  mkTensorBackend (list Q)
    (fun rows shape =>
       if (List.length rows =? fst shape)%nat
          && forallb (fun row => (List.length row =? snd shape)%nat) rows
       then Some (concat rows) else None)
    (fun t g => Some (List.map (fun x => mul x g) t))
    (fun t => Some (List.map tanh t))
    (fun t => Some t).

(** A rational function close to the hyperbolic tangent near 0, to run the
    enhancement in the model: [x (15 + x^2) / (15 + 6 x^2)], which is
    0.53706 at 0.6, where the hyperbolic tangent is 0.53705. *)
Definition tanhApprox (x : Q) : Q := x * (15 + x * x) / (15 + 6 * (x * x)).

(** What holds of the store however it was reached ([storeReachable]): the
    current job id names a job the store holds; a job that carries an id
    carries the key it is stored under; and a job carries an id exactly when
    it carries a creation date. *)
Definition storeConsistent (state : TTSStore) : Prop :=
  (forall id, currentJobId state = Some id -> is_Some (jobs state !! id)) /\
  (forall key job, jobs state !! key = Some job ->
     (forall id, jobId job = Some id -> id = key) /\
     (jobId job = None <-> createdAt job = None)).

(** * More sample inputs *)

(** A three-channel buffer: the third channel is as loud as the first two. *)
Definition surround3 : AudioBuffer :=
  mkAudioBuffer 3 2 48000 [[1; 1 # 2]; [-1 # 2; 1]; [1; -1]].

(** The same two channels with a silent third one. *)
Definition surround3quiet : AudioBuffer :=
  mkAudioBuffer 3 2 48000 [[1; 1 # 2]; [-1 # 2; 1]; [0; 0]].

(** A stereo buffer whose channels hold the same signal, and one whose right
    channel is the inverted left channel. *)
Definition dualMono : AudioBuffer :=
  mkAudioBuffer 2 3 44100 [[1; -1 # 2; 1 # 4]; [1; -1 # 2; 1 # 4]].
Definition antiPhase : AudioBuffer :=
  mkAudioBuffer 2 3 44100 [[1; -1 # 2; 1 # 4]; [-1; 1 # 2; -1 # 4]].

(** The machine after the run of [pressedTwice] finished with two stems, and
    after the button was pressed once more. *)
Definition afterFirstRun : Machine :=
  mkMachine true
    (readerOnload (extraction pressedTwice) "b3JpZw==" (Stems64 "dm9j" "YWNj")) 0.
Definition secondRun : Machine := invoke afterFirstRun.

(** Three files as the upload control may be handed them, and the page once
    the engine is loaded. *)
Definition songUpload : SelectedFile := mkSelectedFile "audio/wav" 4 song.
Definition clipUpload : SelectedFile :=
  mkSelectedFile "video/mp4" 3 (mkFile "clip.mp4" [0; 0; 0]%Z).
Definition longUpload : SelectedFile :=
  mkSelectedFile "audio/mpeg" (50 * 1024 * 1024 + 1) (mkFile "long.mp3" [73; 68; 51]%Z).
Definition readyPage : Page := handle initialPage EngineReady.

(** A backend that works, for running the enhancement in the model: a
    tensor is the row-major list of its entries, and the identity stands in
    for [tanh], which has no rational values. *)
Definition rowMajorBackend : TensorBackend :=
  mkTensorBackend (list Q) (fun rows _ => Some (concat rows))
                  (fun t g => Some (List.map (fun x => x * g) t))
                  (fun t => Some t) (fun t => Some t).

(** [stereo3] with its channels exchanged. *)
Definition stereo3swapped : AudioBuffer :=
  mkAudioBuffer 2 3 44100 [[0; 1; 1 # 2]; [1; 0; 1 # 2]].

(** A store in which one job finished and another one is being polled. *)
Definition twoJobs : TTSStore :=
  updateJobStatus "job-1" completed (Some "{}"%string) None 30
    (startJob "job-2" 20 (startJob "job-1" 10 initialStore)).

(** * Properties *)

(** ** Loops *)

Lemma filter_none {A : Type} (f : A -> bool) (l : list A) :
  (forall x, In x l -> f x = false) -> List.filter f l = [].
Proof.
  induction l as [|a l IH]; intros H; simpl; [reflexivity|].
  rewrite (H a) by (left; reflexivity). apply IH. intros x Hx. apply H. right. exact Hx.
Qed.

Section Loops.
Context {A St : Type}.

Lemma for_range_empty (lo hi : nat) (body : nat -> St -> St) (s : St) :
  (hi <= lo)%nat -> for_range lo hi body s = s.
Proof.
  intros H. unfold for_range.
  replace (hi - lo)%nat with O by lia. reflexivity.
Qed.

Lemma for_range_last (lo hi : nat) (body : nat -> St -> St) (s : St) :
  (lo <= hi)%nat ->
  for_range lo (S hi) body s = body hi (for_range lo hi body s).
Proof.
  intros H. unfold for_range.
  replace (S hi - lo)%nat with (S (hi - lo)) by lia.
  rewrite seq_S, fold_left_app. simpl.
  replace (lo + (hi - lo))%nat with hi by lia. reflexivity.
Qed.

Lemma for_range_first (lo hi : nat) (body : nat -> St -> St) (s : St) :
  (lo < hi)%nat -> for_range lo hi body s = for_range (S lo) hi body (body lo s).
Proof.
  intros H. unfold for_range.
  replace (hi - lo)%nat with (S (hi - S lo)) by lia. reflexivity.
Qed.

(** Loop invariants for a counted loop. *)
Lemma for_range_invariant (P : nat -> St -> Prop)
    (lo hi : nat) (body : nat -> St -> St) (s : St) :
  (lo <= hi)%nat ->
  P lo s ->
  (forall i t, (lo <= i < hi)%nat -> P i t -> P (S i) (body i t)) ->
  P hi (for_range lo hi body s).
Proof.
  intros Hle H0 Hstep. induction hi as [|hi IH].
  - assert (lo = O) by lia. subst. rewrite for_range_empty by lia. exact H0.
  - destruct (decide (lo = S hi)) as [->|Hne].
    + rewrite for_range_empty by lia. exact H0.
    + rewrite for_range_last by lia. apply Hstep; [lia|].
      apply IH; [lia|]. intros i t Hi. apply Hstep. lia.
Qed.

(** A loop that reads an array front to back is a fold over the array. *)
Lemma for_range_fold_take (d : A) (f : A -> St -> St)
    (data : list A) (n : nat) :
  forall s : St,
    (n <= List.length data)%nat ->
    for_range 0 n (fun i t => f (default d (data !! i)) t) s
      = fold_left (fun t x => f x t) (take n data) s.
Proof.
  induction n as [|n IH]; intros s Hn.
  - rewrite for_range_empty by lia. reflexivity.
  - rewrite for_range_last by lia. rewrite IH by lia.
    destruct (lookup_lt_is_Some_2 data n ltac:(lia)) as (x & Hx).
    rewrite (take_S_r _ _ _ Hx), fold_left_app. simpl.
    rewrite Hx. reflexivity.
Qed.

(** A [for_loop] that counts up by one and whose body cannot fail is a
    counted loop, given fuel for each of its iterations. *)
Lemma for_loop_counted (cond : nat -> bool) (body : nat -> St -> St)
    (k : nat) :
  forall (fuel i0 : nat) (s : St),
    (forall i, (i0 <= i < i0 + k)%nat -> cond i = true) ->
    cond (i0 + k)%nat = false ->
    (k <= fuel)%nat ->
    for_loop fuel cond S (fun i t => Some (body i t)) i0 s
      = Some (for_range i0 (i0 + k) body s).
Proof.
  induction k as [|k IH]; intros fuel i0 s Htrue Hfalse Hfuel.
  - rewrite Nat.add_0_r in *. rewrite for_range_empty by lia.
    destruct fuel; simpl; rewrite Hfalse; reflexivity.
  - destruct fuel as [|fuel]; [lia|]. simpl.
    rewrite Htrue by lia.
    rewrite for_range_first by lia.
    replace (i0 + S k)%nat with (S i0 + k)%nat in * by lia.
    apply IH; [intros; apply Htrue; lia | exact Hfalse | lia].
Qed.

(** A [for_loop] that advances by [h] while a downward-closed guard holds
    visits the multiples of [h] that pass the guard, in order. *)
Lemma for_loop_strided (cond : nat -> bool) (h : nat)
    (body : nat -> St -> option St) (Inv : St -> Prop) :
  (0 < h)%nat ->
  (forall a b, (a <= b)%nat -> cond b = true -> cond a = true) ->
  (forall i s, cond i = true -> Inv s -> exists s', body i s = Some s' /\ Inv s') ->
  forall (n fuel m0 : nat) (s : St),
    (n <= fuel)%nat ->
    cond ((m0 + n) * h)%nat = false ->
    Inv s ->
    exists r,
      for_loop fuel cond (fun i => (i + h)%nat) body (m0 * h)%nat s = Some r /\
      Inv r /\
      fold_left (fun acc i => acc ≫= body i)
        (List.filter cond (List.map (fun m => (m * h)%nat) (seq m0 n))) (Some s)
        = Some r.
Proof.
  intros Hh Hdown Hbody. induction n as [|n IH]; intros fuel m0 s Hfuel Hend Hs.
  - rewrite Nat.add_0_r in Hend. exists s.
    destruct fuel; simpl; rewrite Hend; auto.
  - destruct (cond (m0 * h)%nat) eqn:Hc.
    + destruct fuel as [|fuel]; [lia|].
      destruct (Hbody _ _ Hc Hs) as (s' & Hb & Hs').
      destruct (IH fuel (S m0) s') as (r & Hr & Hinv & Hfold);
        [lia | | exact Hs' |].
      { replace (S m0 + n)%nat with (m0 + S n)%nat by lia. exact Hend. }
      exists r. split; [|split; [exact Hinv|]].
      * cbn [for_loop]. rewrite Hc, Hb.
        replace (m0 * h + h)%nat with (S m0 * h)%nat by lia. exact Hr.
      * cbn [seq List.map List.filter]. rewrite Hc. cbn [fold_left].
        cbn [mbind option_bind]. rewrite Hb. exact Hfold.
    + exists s. split; [destruct fuel; simpl; rewrite Hc; reflexivity|].
      split; [exact Hs|].
      rewrite filter_none; [reflexivity|].
      intros x Hx. apply in_map_iff in Hx. destruct Hx as (m & <- & Hm).
      apply in_seq in Hm.
      destruct (cond (m * h)%nat) eqn:Hcm; [|reflexivity].
      rewrite (Hdown (m0 * h)%nat (m * h)%nat) in Hc; [discriminate| |exact Hcm].
      apply Nat.mul_le_mono_r. lia.
Qed.

End Loops.

Lemma fold_bind_cons {A B : Type} (f : B -> A -> option A) (x : B) (l : list B)
    (a : A) :
  fold_left (fun acc i => acc ≫= f i) (x :: l) (Some a)
    = fold_left (fun acc i => acc ≫= f i) l (f x a).
Proof. reflexivity. Qed.

(** ** Array reads and writes *)

Lemma rd_insert_eq (a : list Q) (i : nat) (v : Q) :
  (i < List.length a)%nat -> rd (<[i := v]> a) i = v.
Proof. intros H. unfold rd. rewrite list_lookup_insert_eq by exact H. reflexivity. Qed.

Lemma rd_insert_ne (a : list Q) (i j : nat) (v : Q) :
  i <> j -> rd (<[i := v]> a) j = rd a j.
Proof. intros H. unfold rd. rewrite list_lookup_insert_ne by exact H. reflexivity. Qed.

Lemma rd_replicate (n i : nat) (v : Q) : (i < n)%nat -> rd (replicate n v) i = v.
Proof. intros H. unfold rd. rewrite lookup_replicate_2 by exact H. reflexivity. Qed.

Lemma rd_zeros (n i : nat) : rd (newFloat32Array n) i = 0.
Proof.
  unfold rd, newFloat32Array. destruct (replicate n 0 !! i) as [x|] eqn:E; [|reflexivity].
  apply lookup_replicate in E. simpl. tauto.
Qed.

Lemma rd_ext (a b : list Q) :
  List.length a = List.length b ->
  (forall i, (i < List.length a)%nat -> rd a i = rd b i) -> a = b.
Proof.
  intros Hlen H. apply list_eq_same_length with (n := List.length a); auto.
  intros i x y Hi Hx Hy. specialize (H i Hi). unfold rd in H.
  rewrite Hx, Hy in H. exact H.
Qed.

(** ** Stereo branch *)

Lemma createBuffer_channel (n len c : nat) (rate : Z) :
  (c < n)%nat -> getChannelData (createBuffer n len rate) c = newFloat32Array len.
Proof.
  intros H. unfold getChannelData, createBuffer. simpl.
  rewrite lookup_replicate_2 by exact H. reflexivity.
Qed.

Lemma length_zeros (n : nat) : List.length (newFloat32Array n) = n.
Proof. apply length_replicate. Qed.

Lemma firstPass_spec (length : nat) (leftChannel rightChannel : list Q) :
  let cs := firstPass length leftChannel rightChannel in
  List.length (centerChannel cs) = length /\
  List.length (sideChannelLeft cs) = length /\
  List.length (sideChannelRight cs) = length /\
  forall i, (i < length)%nat ->
    rd (centerChannel cs) i = center leftChannel rightChannel i /\
    rd (sideChannelLeft cs) i = sideLeft leftChannel rightChannel i /\
    rd (sideChannelRight cs) i = sideRight leftChannel rightChannel i.
Proof.
  cbv zeta. unfold firstPass.
  set (P := fun (n : nat) (cs : CenterSide) =>
    List.length (centerChannel cs) = length /\
    List.length (sideChannelLeft cs) = length /\
    List.length (sideChannelRight cs) = length /\
    forall i, (i < n)%nat ->
      rd (centerChannel cs) i = center leftChannel rightChannel i /\
      rd (sideChannelLeft cs) i = sideLeft leftChannel rightChannel i /\
      rd (sideChannelRight cs) i = sideRight leftChannel rightChannel i).
  apply (for_range_invariant P); [lia| |].
  - unfold P. simpl. rewrite !length_zeros. repeat split; lia.
  - intros n t Hn (Hc & Hl & Hr & Hrd). unfold P. simpl.
    rewrite !length_insert. repeat split; try assumption.
    all: destruct (decide (i = n)) as [->|Hne];
      [ rewrite !rd_insert_eq by lia; reflexivity
      | rewrite !rd_insert_ne by congruence; apply Hrd; lia ].
Qed.

Lemma secondPass_spec (length : nat) (cs : CenterSide) (out : Stems) :
  List.length (vocalsLeft out) = length ->
  List.length (vocalsRight out) = length ->
  List.length (accompanimentLeft out) = length ->
  List.length (accompanimentRight out) = length ->
  let r := secondPass length cs out in
  List.length (vocalsLeft r) = length /\
  List.length (vocalsRight r) = length /\
  List.length (accompanimentLeft r) = length /\
  List.length (accompanimentRight r) = length /\
  forall i, (i < length)%nat ->
    rd (vocalsLeft r) i = smoothed (rd (centerChannel cs)) i /\
    rd (vocalsRight r) i = smoothed (rd (centerChannel cs)) i /\
    rd (accompanimentLeft r) i = smoothed (rd (sideChannelLeft cs)) i /\
    rd (accompanimentRight r) i = smoothed (rd (sideChannelRight cs)) i.
Proof.
  intros H1 H2 H3 H4. cbv zeta. unfold secondPass.
  destruct length as [|length].
  { rewrite for_range_empty by lia. simpl. rewrite !length_insert.
    repeat split; try assumption; lia. }
  set (P := fun (n : nat) (r : Stems) =>
    List.length (vocalsLeft r) = S length /\
    List.length (vocalsRight r) = S length /\
    List.length (accompanimentLeft r) = S length /\
    List.length (accompanimentRight r) = S length /\
    forall i, (i < n)%nat ->
      rd (vocalsLeft r) i = smoothed (rd (centerChannel cs)) i /\
      rd (vocalsRight r) i = smoothed (rd (centerChannel cs)) i /\
      rd (accompanimentLeft r) i = smoothed (rd (sideChannelLeft cs)) i /\
      rd (accompanimentRight r) i = smoothed (rd (sideChannelRight cs)) i).
  apply (for_range_invariant P); [lia| |].
  - unfold P. simpl. rewrite !length_insert. repeat split; try assumption.
    all: assert (i = O) as -> by lia; rewrite rd_insert_eq by lia; reflexivity.
  - intros n t Hn (L1 & L2 & L3 & L4 & Hrd). unfold P. simpl.
    rewrite !length_insert. repeat split; try assumption.
    all: destruct (decide (i = n)) as [->|Hne];
      [ rewrite !rd_insert_eq by lia; destruct n as [|n]; [lia|];
        simpl; rewrite Nat.sub_0_r;
        destruct (Hrd n ltac:(lia)) as (E1 & E2 & E3 & E4);
        rewrite ?E1, ?E2, ?E3, ?E4; reflexivity
      | rewrite !rd_insert_ne by congruence; apply Hrd; lia ].
Qed.

Lemma smoothed_ext (x y : nat -> Q) (n : nat) :
  (forall i, (i <= n)%nat -> x i = y i) -> smoothed x n = smoothed y n.
Proof.
  induction n as [|n IH]; intros H; simpl.
  - apply H. lia.
  - rewrite IH by (intros; apply H; lia). rewrite (H (S n)) by lia. reflexivity.
Qed.

Lemma getChannelData_set_eq (b : AudioBuffer) (c : nat) (d : list Q) :
  (c < List.length (channels b))%nat -> getChannelData (setChannelData b c d) c = d.
Proof.
  intros H. unfold getChannelData, setChannelData. simpl.
  rewrite list_lookup_insert_eq by exact H. reflexivity.
Qed.

Lemma getChannelData_set_ne (b : AudioBuffer) (c c' : nat) (d : list Q) :
  c <> c' -> getChannelData (setChannelData b c d) c' = getChannelData b c'.
Proof.
  intros H. unfold getChannelData, setChannelData. simpl.
  rewrite list_lookup_insert_ne by exact H. reflexivity.
Qed.

Lemma channels_createBuffer_length (n len : nat) (rate : Z) :
  List.length (channels (createBuffer n len rate)) = n.
Proof. simpl. apply length_replicate. Qed.

Lemma channels_set_length (b : AudioBuffer) (c : nat) (d : list Q) :
  List.length (channels (setChannelData b c d)) = List.length (channels b).
Proof. simpl. apply length_insert. Qed.

(** The arrays of channels 0 and 1 after [storeStems]. *)
Lemma storeStems_channels (n len : nat) (rate : Z) (s : Stems) :
  (2 <= n)%nat ->
  let bufs := storeStems (createBuffer n len rate) (createBuffer n len rate) s in
  getChannelData (fst bufs) 0 = vocalsLeft s /\
  getChannelData (fst bufs) 1 = vocalsRight s /\
  getChannelData (snd bufs) 0 = accompanimentLeft s /\
  getChannelData (snd bufs) 1 = accompanimentRight s.
Proof.
  intros Hn. cbv zeta. unfold storeStems. simpl fst. simpl snd.
  repeat split.
  all: rewrite ?(getChannelData_set_ne _ 1 0) by lia.
  all: apply getChannelData_set_eq.
  all: rewrite ?channels_set_length, channels_createBuffer_length; lia.
Qed.

Lemma separateStereo_spec (audioBuffer : AudioBuffer) :
  (2 <= numberOfChannels audioBuffer)%nat ->
  let length := bufferLength audioBuffer in
  let left := getChannelData audioBuffer 0 in
  let right := getChannelData audioBuffer 1 in
  let vocalsBuffer :=
    createBuffer (numberOfChannels audioBuffer) length (sampleRate audioBuffer) in
  let accompanimentBuffer :=
    createBuffer (numberOfChannels audioBuffer) length (sampleRate audioBuffer) in
  let out := separateStereo audioBuffer vocalsBuffer accompanimentBuffer in
  List.length (vocalsLeft out) = length /\
  List.length (vocalsRight out) = length /\
  List.length (accompanimentLeft out) = length /\
  List.length (accompanimentRight out) = length /\
  forall i, (i < length)%nat ->
    rd (vocalsLeft out) i = smoothed (center left right) i /\
    rd (vocalsRight out) i = smoothed (center left right) i /\
    rd (accompanimentLeft out) i = smoothed (sideLeft left right) i /\
    rd (accompanimentRight out) i = smoothed (sideRight left right) i.
Proof.
  intros Hn. cbv zeta. unfold separateStereo, stemsOf.
  rewrite !createBuffer_channel by lia.
  set (length := bufferLength audioBuffer).
  set (left := getChannelData audioBuffer 0).
  set (right := getChannelData audioBuffer 1).
  destruct (firstPass_spec length left right) as (Lc & Ll & Lr & Hcs).
  match goal with |- context [secondPass _ ?cs ?o] =>
    destruct (secondPass_spec length cs o) as (L1 & L2 & L3 & L4 & Hout);
      [apply length_zeros ..|] end.
  repeat split; try assumption.
  all: destruct (Hout i ltac:(assumption)) as (E1 & E2 & E3 & E4);
    rewrite ?E1, ?E2, ?E3, ?E4;
    apply smoothed_ext; intros j Hj; apply Hcs; lia.
Qed.

(** C1: each vocal output channel of a stereo input is the smoothed center
    signal, and the left and right accompaniment channels are the smoothed
    left and right side signals, as the buffers stand before the enhancement
    step. *)
Theorem C1_stereo_outputs_are_smoothed_center_and_sides (audioBuffer : AudioBuffer) :
  wf_buffer audioBuffer ->
  (2 <= numberOfChannels audioBuffer)%nat ->
  (1 <= bufferLength audioBuffer)%nat ->
  let length := bufferLength audioBuffer in
  let left := getChannelData audioBuffer 0 in
  let right := getChannelData audioBuffer 1 in
  let vocalsBuffer :=
    createBuffer (numberOfChannels audioBuffer) length (sampleRate audioBuffer) in
  let accompanimentBuffer :=
    createBuffer (numberOfChannels audioBuffer) length (sampleRate audioBuffer) in
  let out :=
    storeStems vocalsBuffer accompanimentBuffer
      (separateStereo audioBuffer vocalsBuffer accompanimentBuffer) in
  (forall channel, (channel < 2)%nat ->
     List.length (getChannelData (fst out) channel) = length /\
     List.length (getChannelData (snd out) channel) = length) /\
  forall i, (i < length)%nat ->
    rd (getChannelData (fst out) 0) i = smoothed (center left right) i /\
    rd (getChannelData (fst out) 1) i = smoothed (center left right) i /\
    rd (getChannelData (snd out) 0) i = smoothed (sideLeft left right) i /\
    rd (getChannelData (snd out) 1) i = smoothed (sideRight left right) i.
Proof.
  intros _ Hn _. cbv zeta.
  match goal with |- context [storeStems _ _ ?s] =>
    destruct (storeStems_channels (numberOfChannels audioBuffer)
                (bufferLength audioBuffer) (sampleRate audioBuffer) s Hn)
      as (E1 & E2 & E3 & E4) end.
  destruct (separateStereo_spec audioBuffer Hn) as (L1 & L2 & L3 & L4 & H).
  split.
  - intros channel Hc.
    destruct channel as [|[|channel]]; [| |lia]; rewrite ?E1, ?E2, ?E3, ?E4; auto.
  - intros i Hi. rewrite E1, E2, E3, E4. apply H. exact Hi.
Qed.

Lemma wf_stereo3 : wf_buffer stereo3.
Proof. unfold wf_buffer. simpl. repeat split; [lia|]. repeat constructor. Qed.

Lemma C1_witness :
  wf_buffer stereo3 /\
  (2 <= numberOfChannels stereo3)%nat /\
  (1 <= bufferLength stereo3)%nat /\
  let out :=
    storeStems (createBuffer 2 3 44100) (createBuffer 2 3 44100)
      (separateStereo stereo3 (createBuffer 2 3 44100) (createBuffer 2 3 44100)) in
  (forall channel, (channel < 2)%nat ->
     List.length (getChannelData (fst out) channel) = 3%nat /\
     List.length (getChannelData (snd out) channel) = 3%nat) /\
  forall i, (i < 3)%nat ->
    rd (getChannelData (fst out) 0) i
      = smoothed (center [1; 0; 1 # 2] [0; 1; 1 # 2]) i /\
    rd (getChannelData (fst out) 1) i
      = smoothed (center [1; 0; 1 # 2] [0; 1; 1 # 2]) i /\
    rd (getChannelData (snd out) 0) i
      = smoothed (sideLeft [1; 0; 1 # 2] [0; 1; 1 # 2]) i /\
    rd (getChannelData (snd out) 1) i
      = smoothed (sideRight [1; 0; 1 # 2] [0; 1; 1 # 2]) i.
Proof.
  assert (2 <= numberOfChannels stereo3)%nat as Hn by (simpl; lia).
  assert (1 <= bufferLength stereo3)%nat as Hl by (simpl; lia).
  split; [exact wf_stereo3|]. split; [exact Hn|]. split; [exact Hl|].
  exact (C1_stereo_outputs_are_smoothed_center_and_sides stereo3 wf_stereo3 Hn Hl).
Defined.

(** The separation of [stereo3], computed: center 0.5 throughout, sides
    (0.5, -0.5, 0) and their negation, smoothed. *)
Example stereo3_separated :
  let out :=
    storeStems (createBuffer 2 3 44100) (createBuffer 2 3 44100)
      (separateStereo stereo3 (createBuffer 2 3 44100) (createBuffer 2 3 44100)) in
  Forall2 Qeq (getChannelData (fst out) 0) [1 # 2; 1 # 2; 1 # 2] /\
  Forall2 Qeq (getChannelData (fst out) 1) [1 # 2; 1 # 2; 1 # 2] /\
  Forall2 Qeq (getChannelData (snd out) 0) [1 # 2; 1 # 5; 7 # 50] /\
  Forall2 Qeq (getChannelData (snd out) 1) [-1 # 2; -1 # 5; -7 # 50].
Proof. vm_compute. repeat split; repeat constructor. Qed.

(** ** Mono branch *)

Lemma hopSize_value : hopSize = 256%nat.
Proof. reflexivity. Qed.

Lemma windowSize_value : windowSize = 1024%nat.
Proof. reflexivity. Qed.

Lemma vocalWeight_share (j : nat) : vocalWeight j = vocalsShare j.
Proof. reflexivity. Qed.

Lemma accompanimentWeight_share (j : nat) : accompanimentWeight j = accompanimentShare j.
Proof. reflexivity. Qed.

Lemma weighWindow_spec (window : list Q) :
  let w := weighWindow window in
  List.length (fst w) = windowSize /\
  List.length (snd w) = windowSize /\
  forall i, (i < windowSize)%nat ->
    rd (fst w) i = rd window i * vocalWeight i /\
    rd (snd w) i = rd window i * accompanimentWeight i.
Proof.
  cbv zeta. unfold weighWindow.
  set (P := fun (n : nat) (w : list Q * list Q) =>
    List.length (fst w) = windowSize /\
    List.length (snd w) = windowSize /\
    forall i, (i < n)%nat ->
      rd (fst w) i = rd window i * vocalWeight i /\
      rd (snd w) i = rd window i * accompanimentWeight i).
  apply (for_range_invariant P); [lia| |].
  - unfold P. cbn [fst snd]. rewrite !length_zeros. repeat split; lia.
  - intros n t Hn (L1 & L2 & Hrd). unfold P. cbn [fst snd].
    rewrite !length_insert. repeat split; try assumption.
    all: destruct (decide (i = n)) as [->|Hne];
      [ rewrite rd_insert_eq by lia; reflexivity
      | rewrite rd_insert_ne by congruence; apply Hrd; lia ].
Qed.

Lemma copyWindow_counted (length start : nat) (w out : list Q * list Q) :
  copyWindow length start w out
    = Some (accumulate start (Nat.min windowSize (length - start)) w out).
Proof.
  unfold copyWindow, accumulate.
  apply (for_loop_counted _ _ (Nat.min windowSize (length - start)) windowSize 0 out).
  - intros i Hi. apply andb_true_iff. split; apply Nat.ltb_lt; lia.
  - apply andb_false_iff.
    destruct (Nat.le_gt_cases windowSize (length - start)).
    + left. apply Nat.ltb_ge. lia.
    + right. apply Nat.ltb_ge. lia.
  - lia.
Qed.

Lemma accumulate_spec (start n : nat) (w out : list Q * list Q) :
  (start + n <= List.length (fst out))%nat ->
  (start + n <= List.length (snd out))%nat ->
  let r := accumulate start n w out in
  List.length (fst r) = List.length (fst out) /\
  List.length (snd r) = List.length (snd out) /\
  forall k,
    rd (fst r) k = (if (start <=? k)%nat && (k <? start + n)%nat
                    then rd (fst out) k + rd (fst w) (k - start)
                    else rd (fst out) k) /\
    rd (snd r) k = (if (start <=? k)%nat && (k <? start + n)%nat
                    then rd (snd out) k + rd (snd w) (k - start)
                    else rd (snd out) k).
Proof.
  intros H1 H2. cbv zeta. unfold accumulate.
  set (P := fun (m : nat) (r : list Q * list Q) =>
    List.length (fst r) = List.length (fst out) /\
    List.length (snd r) = List.length (snd out) /\
    forall k,
      rd (fst r) k = (if (start <=? k)%nat && (k <? start + m)%nat
                      then rd (fst out) k + rd (fst w) (k - start)
                      else rd (fst out) k) /\
      rd (snd r) k = (if (start <=? k)%nat && (k <? start + m)%nat
                      then rd (snd out) k + rd (snd w) (k - start)
                      else rd (snd out) k)).
  apply (for_range_invariant P); [lia| |].
  - unfold P. repeat split; try reflexivity.
    all: destruct (Nat.leb_spec start k), (Nat.ltb_spec k (start + 0));
      simpl; try reflexivity; lia.
  - intros m t Hm (L1 & L2 & Hrd). unfold P. cbn [fst snd].
    rewrite !length_insert. repeat split; try assumption.
    all: destruct (Hrd k) as (E1 & E2);
      destruct (decide (k = (start + m)%nat)) as [->|Hne];
      [ rewrite rd_insert_eq by lia;
        destruct (Hrd (start + m)%nat) as (F1 & F2); rewrite ?F1, ?F2;
        replace (start + m - start)%nat with m by lia;
        destruct (Nat.leb_spec start (start + m)),
                 (Nat.ltb_spec (start + m) (start + m)),
                 (Nat.ltb_spec (start + m) (start + S m));
        simpl; try reflexivity; lia
      | rewrite rd_insert_ne by congruence; rewrite ?E1, ?E2;
        destruct (Nat.leb_spec start k), (Nat.ltb_spec k (start + m)),
                 (Nat.ltb_spec k (start + S m));
        simpl; try reflexivity; lia ].
Qed.

Lemma rd_window (inputData : list Q) (start i : nat) :
  (i < windowSize)%nat ->
  rd (take windowSize (drop start inputData)) i = rd inputData (start + i).
Proof.
  intros H. unfold rd. rewrite lookup_take_lt by exact H.
  rewrite lookup_drop. reflexivity.
Qed.

(** One window: every position it covers receives its weighted sample. *)
Lemma processWindow_spec (length : nat) (inputData : list Q) (start : nat)
    (out : list Q * list Q) :
  (start + windowSize <= length)%nat ->
  List.length (fst out) = length ->
  List.length (snd out) = length ->
  exists r,
    processWindow length inputData start out = Some r /\
    List.length (fst r) = length /\
    List.length (snd r) = length /\
    forall k,
      rd (fst r) k = (if (start <=? k)%nat && (k <? start + windowSize)%nat
                      then rd (fst out) k + rd inputData k * vocalWeight (k - start)
                      else rd (fst out) k) /\
      rd (snd r) k = (if (start <=? k)%nat && (k <? start + windowSize)%nat
                      then rd (snd out) k
                           + rd inputData k * accompanimentWeight (k - start)
                      else rd (snd out) k).
Proof.
  intros Hfit L1 L2. unfold processWindow. rewrite copyWindow_counted.
  replace (Nat.min windowSize (length - start)) with windowSize by lia.
  eexists. split; [reflexivity|].
  match goal with |- context [accumulate _ _ ?w _] =>
    destruct (accumulate_spec start windowSize w out) as (R1 & R2 & Hrd);
      [lia | lia |];
    destruct (weighWindow_spec (take windowSize (drop start inputData)))
      as (_ & _ & Hw) end.
  repeat split; try congruence.
  all: destruct (Hrd k) as (E1 & E2); rewrite ?E1, ?E2; clear E1 E2;
    destruct (Nat.leb_spec start k), (Nat.ltb_spec k (start + windowSize));
    cbn [andb]; [|reflexivity ..];
    destruct (Hw (k - start)%nat ltac:(lia)) as (W1 & W2); rewrite ?W1, ?W2;
    rewrite rd_window by lia;
    replace (start + (k - start))%nat with k by lia; reflexivity.
Qed.

Lemma overlapAdd_unfold (weight : nat -> Q) (input : list Q) (starts : list nat)
    (k : nat) :
  overlapAdd weight input starts k
    = fold_left
        (fun acc s =>
           if (s <=? k)%nat && (k <? s + windowSize)%nat
           then acc + rd input k * weight (k - s)%nat
           else acc)
        starts 0.
Proof. reflexivity. Qed.

Lemma processedStarts_unfold (length : nat) :
  processedStarts length
    = List.filter
        (fun start => (Z.of_nat start <? Z.of_nat length - Z.of_nat windowSize)%Z)
        (List.map (fun m => (m * hopSize)%nat) (seq 0 (length / 256 + 1))).
Proof. reflexivity. Qed.

Lemma processedStarts_In (length s : nat) :
  In s (processedStarts length) <->
  (exists m, s = (m * 256)%nat) /\ (Z.of_nat s < Z.of_nat length - 1024)%Z.
Proof.
  unfold processedStarts. rewrite filter_In, in_map_iff, Z.ltb_lt. split.
  - intros ((m & <- & _) & H). split; [exists m; reflexivity | exact H].
  - intros ((m & ->) & H). split; [|exact H].
    exists m. split; [reflexivity|]. apply in_seq.
    assert (m <= length / 256)%nat; [|lia].
    apply Nat.div_le_lower_bound; lia.
Qed.

Lemma processedStarts_NoDup (length : nat) : List.NoDup (processedStarts length).
Proof.
  unfold processedStarts. apply List.NoDup_filter.
  apply Finite.Injective_map_NoDup; [|apply List.seq_NoDup].
  intros a b H. lia.
Qed.

Lemma overlapAdd_uncovered (weight : nat -> Q) (input : list Q) (starts : list nat)
    (k : nat) :
  (forall s, In s starts -> ~ (s <= k < s + 1024)%nat) ->
  overlapAdd weight input starts k = 0.
Proof.
  unfold overlapAdd. generalize 0. induction starts as [|s starts IH]; intros q H.
  - reflexivity.
  - cbn [fold_left].
    destruct (Nat.leb_spec s k), (Nat.ltb_spec k (s + 1024)); cbn [andb].
    1: exfalso; apply (H s); [left; reflexivity | lia].
    all: apply IH; intros s' Hs'; apply H; right; exact Hs'.
Qed.

(** The windows processed one after the other: a position holds the sum of
    what the windows covering it added, in the order they were processed. *)
Lemma windows_fold_spec (length : nat) (inputData : list Q) (starts : list nat) :
  forall (out r : list Q * list Q),
    (forall s, In s starts -> (s + windowSize <= length)%nat) ->
    List.length (fst out) = length ->
    List.length (snd out) = length ->
    fold_left (fun acc i => acc ≫= processWindow length inputData i) starts (Some out)
      = Some r ->
    List.length (fst r) = length /\
    List.length (snd r) = length /\
    forall k,
      rd (fst r) k
        = fold_left
            (fun acc s =>
               if (s <=? k)%nat && (k <? s + windowSize)%nat
               then acc + rd inputData k * vocalWeight (k - s)%nat
               else acc)
            starts (rd (fst out) k) /\
      rd (snd r) k
        = fold_left
            (fun acc s =>
               if (s <=? k)%nat && (k <? s + windowSize)%nat
               then acc + rd inputData k * accompanimentWeight (k - s)%nat
               else acc)
            starts (rd (snd out) k).
Proof.
  induction starts as [|s starts IH]; intros out r Hfit L1 L2 Hfold.
  - simpl in Hfold. injection Hfold as <-. auto.
  - rewrite fold_bind_cons in Hfold.
    destruct (processWindow_spec length inputData s out) as (o & Ho & O1 & O2 & Hrd);
      [apply Hfit; left; reflexivity | exact L1 | exact L2 |].
    rewrite Ho in Hfold.
    destruct (IH o r) as (R1 & R2 & Hr); auto.
    { intros s' Hs'. apply Hfit. right. exact Hs'. }
    repeat split; try assumption.
    all: destruct (Hr k) as (E1 & E2); destruct (Hrd k) as (F1 & F2);
      rewrite ?E1, ?E2; cbn [fold_left]; rewrite <- ?F1, <- ?F2; reflexivity.
Qed.

Lemma separateMono_spec (audioBuffer : AudioBuffer) :
  wf_buffer audioBuffer ->
  let length := bufferLength audioBuffer in
  let input := getChannelData audioBuffer 0 in
  let vocalsBuffer :=
    createBuffer (numberOfChannels audioBuffer) length (sampleRate audioBuffer) in
  let accompanimentBuffer :=
    createBuffer (numberOfChannels audioBuffer) length (sampleRate audioBuffer) in
  exists r,
    separateMono audioBuffer vocalsBuffer accompanimentBuffer = Some r /\
    List.length (fst r) = length /\
    List.length (snd r) = length /\
    forall k,
      rd (fst r) k = overlapAdd vocalsShare input (processedStarts length) k /\
      rd (snd r) k = overlapAdd accompanimentShare input (processedStarts length) k.
Proof.
  intros (Hn & Hch & Hlen). cbv zeta. unfold separateMono.
  rewrite !createBuffer_channel by lia.
  set (length := bufferLength audioBuffer).
  set (input := getChannelData audioBuffer 0).
  set (cond := fun start : nat =>
    (Z.of_nat start <? Z.of_nat length - Z.of_nat windowSize)%Z).
  destruct (decide (length = O)) as [Hzero|Hpos].
  { exists (newFloat32Array length, newFloat32Array length).
    assert (cond O = false) as Hc by (unfold cond; apply Z.ltb_ge; lia).
    split; [rewrite Hzero at 1; cbn [for_loop]; rewrite Hc; reflexivity|].
    cbn [fst snd]. rewrite length_zeros. split; [reflexivity|]. split; [reflexivity|].
    intros k. rewrite !rd_zeros.
    split; symmetry; apply overlapAdd_uncovered; intros s Hs;
      apply processedStarts_In in Hs; lia. }
  destruct (for_loop_strided cond hopSize (processWindow length input)
              (fun o => List.length (fst o) = length /\ List.length (snd o) = length))
    with (n := (length / 256 + 1)%nat) (fuel := length) (m0 := O)
         (s := (newFloat32Array length, newFloat32Array length))
    as (r & Hr & (R1 & R2) & Hfold).
  - rewrite hopSize_value. lia.
  - unfold cond. intros a b Hab Hb. apply Z.ltb_lt. apply Z.ltb_lt in Hb. lia.
  - unfold cond. intros i o Hi (O1 & O2). apply Z.ltb_lt in Hi.
    destruct (processWindow_spec length input i o) as (o' & Ho' & P1 & P2 & _);
      [lia | exact O1 | exact O2 |].
    exists o'. auto.
  - pose proof (Nat.div_lt length 256) as D.
    clearbody length. clear - D Hpos. lia.
  - unfold cond. apply Z.ltb_ge. rewrite hopSize_value.
    pose proof (Nat.div_mod_eq length 256) as D.
    pose proof (Nat.mod_upper_bound length 256 ltac:(lia)) as U.
    clearbody length. clear - D U. lia.
  - cbn [fst snd]. rewrite !length_zeros. auto.
  - exists r. split; [exact Hr|]. split; [exact R1|]. split; [exact R2|].
    apply windows_fold_spec in Hfold; [|clear Hfold|apply length_zeros ..].
    2: { intros s Hs. apply filter_In in Hs. destruct Hs as (_ & Hs).
         apply Z.ltb_lt in Hs. clear -Hs. lia. }
    destruct Hfold as (_ & _ & Hrd).
    intros k. destruct (Hrd k) as (E1 & E2). rewrite E1, E2.
    cbn [fst snd]. rewrite !rd_zeros.
    rewrite !overlapAdd_unfold, processedStarts_unfold. split; reflexivity.
Qed.

Lemma separate_mono (tf : option TensorBackend) (audioBuffer : AudioBuffer) :
  numberOfChannels audioBuffer = 1%nat ->
  separate tf audioBuffer
    = out ← separateMono audioBuffer
              (createBuffer 1 (bufferLength audioBuffer) (sampleRate audioBuffer))
              (createBuffer 1 (bufferLength audioBuffer) (sampleRate audioBuffer));
      Some (setChannelData
              (createBuffer 1 (bufferLength audioBuffer) (sampleRate audioBuffer))
              0 (fst out),
            setChannelData
              (createBuffer 1 (bufferLength audioBuffer) (sampleRate audioBuffer))
              0 (snd out)).
Proof. intros H. unfold separate. rewrite H. reflexivity. Qed.

(** C2: for a mono input the two outputs, as they stand before the
    normalization, are the overlap-add of the processed windows (size 1024,
    hop 256): position [k] holds the sum over the processed windows [s]
    covering it of [sample[k] * min(1, ((k-s)/1024)*3)] for the vocals and of
    [sample[k] * min(1, (1 - (k-s)/1024)*2)] for the accompaniment; a
    position beyond every full window holds zero in both. *)
Theorem C2_mono_outputs_are_overlap_add
    (tf : option TensorBackend) (audioBuffer : AudioBuffer) :
  wf_buffer audioBuffer ->
  numberOfChannels audioBuffer = 1%nat ->
  let length := bufferLength audioBuffer in
  let input := getChannelData audioBuffer 0 in
  exists vocals accompaniment,
    separate tf audioBuffer = Some (vocals, accompaniment) /\
    List.length (getChannelData vocals 0) = length /\
    List.length (getChannelData accompaniment 0) = length /\
    windowSize = 1024%nat /\ hopSize = 256%nat /\
    List.NoDup (processedStarts length) /\
    (forall s, In s (processedStarts length) <->
               (exists m, s = (m * 256)%nat) /\
               (Z.of_nat s < Z.of_nat length - 1024)%Z) /\
    (forall k, (k < length)%nat ->
       rd (getChannelData vocals 0) k
         = overlapAdd vocalsShare input (processedStarts length) k /\
       rd (getChannelData accompaniment 0) k
         = overlapAdd accompanimentShare input (processedStarts length) k) /\
    (forall k, (k < length)%nat ->
       (forall m, (m * 256 + 1024 <= length)%nat -> (m * 256 + 1024 <= k)%nat) ->
       rd (getChannelData vocals 0) k = 0 /\
       rd (getChannelData accompaniment 0) k = 0).
Proof.
  intros Hwf Hmono. cbv zeta. rewrite separate_mono by exact Hmono.
  destruct (separateMono_spec audioBuffer Hwf) as (r & Hr & R1 & R2 & Hrd).
  rewrite Hmono in Hr. rewrite Hr. cbn [mbind option_bind].
  eexists _, _. split; [reflexivity|].
  rewrite !getChannelData_set_eq by (rewrite channels_createBuffer_length; lia).
  split; [exact R1|]. split; [exact R2|].
  split; [reflexivity|]. split; [reflexivity|].
  split; [apply processedStarts_NoDup|].
  split; [apply processedStarts_In|].
  split.
  - intros k _. apply Hrd.
  - intros k _ Hbeyond. destruct (Hrd k) as (E1 & E2). rewrite E1, E2.
    split; apply overlapAdd_uncovered; intros s Hs Hcov;
      apply processedStarts_In in Hs; destruct Hs as ((m & ->) & Hs);
      specialize (Hbeyond m); lia.
Qed.

Lemma wf_mono1281 : wf_buffer mono1281.
Proof.
  unfold wf_buffer. cbn [numberOfChannels bufferLength channels mono1281].
  split; [lia|]. split; [reflexivity|].
  constructor; [|constructor]. rewrite length_map, length_seq. reflexivity.
Qed.

Lemma C2_witness :
  wf_buffer mono1281 /\
  numberOfChannels mono1281 = 1%nat /\
  exists vocals accompaniment,
    separate None mono1281 = Some (vocals, accompaniment) /\
    List.length (getChannelData vocals 0) = 1281%nat /\
    List.length (getChannelData accompaniment 0) = 1281%nat /\
    windowSize = 1024%nat /\ hopSize = 256%nat /\
    List.NoDup (processedStarts 1281) /\
    (forall s, In s (processedStarts 1281) <->
               (exists m, s = (m * 256)%nat) /\ (Z.of_nat s < 1281 - 1024)%Z) /\
    (forall k, (k < 1281)%nat ->
       rd (getChannelData vocals 0) k
         = overlapAdd vocalsShare (getChannelData mono1281 0) (processedStarts 1281) k /\
       rd (getChannelData accompaniment 0) k
         = overlapAdd accompanimentShare (getChannelData mono1281 0)
             (processedStarts 1281) k) /\
    (forall k, (k < 1281)%nat ->
       (forall m, (m * 256 + 1024 <= 1281)%nat -> (m * 256 + 1024 <= k)%nat) ->
       rd (getChannelData vocals 0) k = 0 /\
       rd (getChannelData accompaniment 0) k = 0).
Proof.
  split; [exact wf_mono1281|]. split; [reflexivity|].
  exact (C2_mono_outputs_are_overlap_add None mono1281 wf_mono1281 eq_refl).
Defined.

(** The two windows of [mono1281] at work: position 301 lies in both
    (offsets 301 and 45), position 1279 in the second only (offset 1023),
    and position 1280 in none. *)
Example mono1281_samples :
  exists vocals accompaniment,
    separate None mono1281 = Some (vocals, accompaniment) /\
    processedStarts 1281 = [0; 256]%nat /\
    rd (getChannelData mono1281 0) 301 == 1 # 4 /\
    rd (getChannelData vocals 0) 301
      == (1 # 4) * (903 # 1024) + (1 # 4) * (135 # 1024) /\
    rd (getChannelData accompaniment 0) 301 == (1 # 4) * 1 + (1 # 4) * 1 /\
    rd (getChannelData mono1281 0) 1279 == 1 # 4 /\
    rd (getChannelData vocals 0) 1279 == 1 # 4 /\
    rd (getChannelData accompaniment 0) 1279 == (1 # 4) * (2 # 1024) /\
    rd (getChannelData mono1281 0) 1280 == 1 # 2 /\
    rd (getChannelData vocals 0) 1280 = 0 /\
    rd (getChannelData accompaniment 0) 1280 = 0.
Proof.
  eexists _, _. split; [vm_compute; reflexivity|].
  vm_compute. repeat split; congruence.
Qed.

(** ** Normalizer *)

Lemma Qgtb_true (x y : Q) : Qgtb x y = true <-> y < x.
Proof.
  unfold Qgtb. rewrite negb_true_iff. split.
  - intros H. apply Qnot_le_lt. intros Hle. apply Qle_bool_iff in Hle. congruence.
  - intros H. destruct (Qle_bool x y) eqn:E; [|reflexivity].
    apply Qle_bool_iff in E. exfalso. apply (Qlt_not_le _ _ H E).
Qed.

Lemma Qgtb_false (x y : Q) : Qgtb x y = false <-> x <= y.
Proof.
  unfold Qgtb. rewrite negb_false_iff. apply Qle_bool_iff.
Qed.

(** The running maximum is [Qmax], step by step. *)
Lemma running_max_step (a m : Q) : (if Qgtb a m then a else m) = Qmax m a.
Proof.
  unfold Qmax, GenericMinMax.gmax.
  destruct (Qgtb a m) eqn:E; destruct (Qcompare m a) eqn:C; try reflexivity; exfalso.
  - apply Qgtb_true in E. apply Qeq_alt in C. rewrite C in E.
    apply (Qlt_irrefl _ E).
  - apply Qgtb_true in E. apply Qgt_alt in C.
    apply (Qlt_irrefl m). apply Qlt_trans with a; assumption.
  - apply Qgtb_false in E. apply Qlt_alt in C. apply (Qlt_not_le _ _ C E).
Qed.

Lemma maxAbs_peak (data : list Q) : maxAbs (List.length data) data = peak data.
Proof.
  unfold maxAbs, peak, rd.
  rewrite (for_range_fold_take 0 (fun x m => if Qgtb (Qabs x) m then Qabs x else m))
    by lia.
  rewrite firstn_all.
  generalize 0. induction data as [|x data IH]; intros m; simpl; [reflexivity|].
  rewrite running_max_step. apply IH.
Qed.

(** The running maximum bounds every sample, and is zero or attained. *)
Lemma maxAbs_spec (length : nat) (data : list Q) :
  0 <= maxAbs length data /\
  (forall i, (i < length)%nat -> Qabs (rd data i) <= maxAbs length data) /\
  (maxAbs length data = 0 \/
   exists i, (i < length)%nat /\ maxAbs length data = Qabs (rd data i)).
Proof.
  unfold maxAbs.
  set (P := fun (n : nat) (m : Q) =>
    0 <= m /\
    (forall i, (i < n)%nat -> Qabs (rd data i) <= m) /\
    (m = 0 \/ exists i, (i < n)%nat /\ m = Qabs (rd data i))).
  apply (for_range_invariant P); [lia| |].
  - unfold P. split; [apply Qle_refl|]. split; [intros; lia | left; reflexivity].
  - intros n m Hn (H0 & Hub & Hatt). unfold P. cbv zeta.
    destruct (Qgtb (Qabs (rd data n)) m) eqn:E.
    + apply Qgtb_true in E. split; [apply Qabs_nonneg|]. split.
      * intros i Hi. destruct (decide (i = n)) as [->|Hne]; [apply Qle_refl|].
        apply Qle_trans with m; [apply Hub; lia | apply Qlt_le_weak; exact E].
      * right. exists n. split; [lia | reflexivity].
    + apply Qgtb_false in E. split; [exact H0|]. split.
      * intros i Hi. destruct (decide (i = n)) as [->|Hne]; [exact E|].
        apply Hub. lia.
      * destruct Hatt as [->|(i & Hi & ->)]; [left; reflexivity|].
        right. exists i. split; [lia | reflexivity].
Qed.

Lemma peaks_maxAbs (length : nat) (vocalsData accompanimentData : list Q) :
  peaks length vocalsData accompanimentData
    = (maxAbs length vocalsData, maxAbs length accompanimentData).
Proof.
  unfold peaks, maxAbs.
  set (body := fun (d : list Q) (i : nat) (m : Q) =>
    let a := Qabs (rd d i) in if Qgtb a m then a else m).
  set (P := fun (n : nat) (m : Q * Q) =>
    m = (for_range 0 n (body vocalsData) 0,
         for_range 0 n (body accompanimentData) 0)).
  apply (for_range_invariant P); [lia| |].
  - unfold P. rewrite !for_range_empty by lia. reflexivity.
  - intros n m Hn Hm. unfold P in Hm. subst m. unfold P.
    rewrite !for_range_last by lia. reflexivity.
Qed.

Lemma Qmult_1_r_eq (x : Q) : x * 1 = x.
Proof.
  destruct x as [a b]. unfold Qmult. simpl.
  rewrite Z.mul_1_r, Pos.mul_1_r. reflexivity.
Qed.

Lemma applyGain_map (gain : Q) (data : list Q) :
  applyGain (List.length data) gain data = List.map (fun x => x * gain) data.
Proof.
  unfold applyGain.
  set (P := fun (n : nat) (d : list Q) =>
    List.length d = List.length data /\
    forall i, rd d i = if (i <? n)%nat then rd data i * gain else rd data i).
  assert (P (List.length data)
            (for_range 0 (List.length data)
               (fun i d => <[i := rd d i * gain]> d) data)) as (Hlen & Hrd).
  { apply (for_range_invariant P); [lia| |].
    - unfold P. split; [reflexivity|]. intros i. reflexivity.
    - intros n d Hn (Hlen & Hrd). unfold P. rewrite length_insert.
      split; [exact Hlen|]. intros i.
      destruct (decide (i = n)) as [->|Hne].
      + rewrite rd_insert_eq by lia. rewrite Hrd.
        rewrite Nat.ltb_irrefl. rewrite (proj2 (Nat.ltb_lt n (S n))) by lia.
        reflexivity.
      + rewrite rd_insert_ne by congruence. rewrite Hrd.
        destruct (Nat.ltb_spec i n), (Nat.ltb_spec i (S n)); try reflexivity; lia. }
  apply rd_ext.
  - rewrite Hlen, length_map. reflexivity.
  - intros i Hi. rewrite Hrd. rewrite Hlen in Hi.
    rewrite (proj2 (Nat.ltb_lt _ _) Hi).
    unfold rd. rewrite list_lookup_fmap.
    destruct (lookup_lt_is_Some_2 data i Hi) as (x & Hx). rewrite Hx. reflexivity.
Qed.

Lemma peak_spec (data : list Q) :
  0 <= peak data /\
  (forall x, In x data -> Qabs x <= peak data) /\
  (peak data = 0 \/ exists x, In x data /\ peak data = Qabs x).
Proof.
  rewrite <- maxAbs_peak.
  destruct (maxAbs_spec (List.length data) data) as (H0 & Hub & Hatt).
  split; [exact H0|]. split.
  - intros x Hx. apply list_elem_of_In, list_elem_of_lookup in Hx.
    destruct Hx as (i & Hi). pose proof (lookup_lt_Some _ _ _ Hi) as Hlt.
    specialize (Hub i Hlt). unfold rd in Hub. rewrite Hi in Hub. exact Hub.
  - destruct Hatt as [Hz|(i & Hi & Hm)]; [left; exact Hz|].
    right. destruct (lookup_lt_is_Some_2 data i Hi) as (x & Hx).
    exists x. split.
    + apply list_elem_of_In, list_elem_of_lookup. exists i. exact Hx.
    + rewrite Hm. unfold rd. rewrite Hx. reflexivity.
Qed.

Lemma peak_le_bound (data : list Q) (b : Q) :
  0 <= b -> (forall x, In x data -> Qabs x <= b) -> peak data <= b.
Proof.
  intros Hb H. destruct (peak_spec data) as (_ & _ & [->|(x & Hx & ->)]).
  - exact Hb.
  - apply H. exact Hx.
Qed.

Lemma gainFor_bounds (p : Q) : 0 < p -> 0 <= gainFor p /\ p * gainFor p <= 9 # 10.
Proof.
  intros Hp. unfold gainFor.
  assert (0 <= (9 # 10) / p) as Hq.
  { apply Qle_shift_div_l; [exact Hp|]. rewrite Qmult_0_l. discriminate. }
  split.
  - apply Q.min_glb; [discriminate | exact Hq].
  - apply Qle_trans with (p * ((9 # 10) / p)).
    + apply Qmult_le_l; [exact Hp | apply Q.le_min_r].
    + rewrite Qmult_div_r; [apply Qle_refl|].
      intros E. rewrite E in Hp. apply (Qlt_irrefl _ Hp).
Qed.

Lemma gainFor_one (p : Q) : 0 < p -> p <= 9 # 10 -> gainFor p = 1.
Proof.
  intros Hp Hle. unfold gainFor, Qmin, GenericMinMax.gmin.
  destruct (Qcompare 1 ((9 # 10) / p)) eqn:C; try reflexivity.
  exfalso. apply Qgt_alt in C.
  assert (1 <= (9 # 10) / p) as H.
  { apply Qle_shift_div_l; [exact Hp|]. rewrite Qmult_1_l.
    apply Qle_trans with (9 # 10); [exact Hle | apply Qle_refl]. }
  apply (Qlt_not_le _ _ C H).
Qed.

Lemma normalizeChannel_scaled (data : list Q) :
  0 < peak data ->
  normalizeChannel (List.length data) data
    = List.map (fun x => x * gainFor (peak data)) data.
Proof.
  intros Hp. unfold normalizeChannel, scaleToCeiling. rewrite maxAbs_peak.
  rewrite (proj2 (Qgtb_true _ _) Hp). apply applyGain_map.
Qed.

Lemma normalizeChannel_silent (data : list Q) :
  ~ 0 < peak data -> normalizeChannel (List.length data) data = data.
Proof.
  intros Hp. unfold normalizeChannel, scaleToCeiling. rewrite maxAbs_peak.
  destruct (Qgtb (peak data) 0) eqn:E; [|reflexivity].
  apply Qgtb_true in E. contradiction.
Qed.

Lemma normalizeChannel_length (data : list Q) :
  List.length (normalizeChannel (List.length data) data) = List.length data.
Proof.
  destruct (Qlt_le_dec 0 (peak data)) as [Hp|Hp].
  - rewrite normalizeChannel_scaled by exact Hp. apply length_map.
  - rewrite normalizeChannel_silent; [reflexivity|].
    intros H. apply (Qlt_not_le _ _ H Hp).
Qed.

Lemma map_mult_one (data : list Q) : List.map (fun x => x * 1) data = data.
Proof.
  induction data as [|x data IH]; simpl; [reflexivity|].
  rewrite Qmult_1_r_eq, IH. reflexivity.
Qed.

Lemma normalizeChannel_below_ceiling (data : list Q) :
  peak data <= 9 # 10 -> normalizeChannel (List.length data) data = data.
Proof.
  intros Hle. destruct (Qlt_le_dec 0 (peak data)) as [Hp|Hp].
  - rewrite normalizeChannel_scaled by exact Hp.
    rewrite gainFor_one by assumption. apply map_mult_one.
  - apply normalizeChannel_silent. intros H. apply (Qlt_not_le _ _ H Hp).
Qed.

Lemma normalizeChannel_peak (data : list Q) :
  peak (normalizeChannel (List.length data) data) <= 9 # 10.
Proof.
  destruct (Qlt_le_dec 0 (peak data)) as [Hp|Hp].
  - rewrite normalizeChannel_scaled by exact Hp.
    destruct (gainFor_bounds _ Hp) as (Hg0 & Hg).
    destruct (peak_spec data) as (_ & Hub & _).
    apply peak_le_bound; [discriminate|].
    intros y Hy. apply in_map_iff in Hy. destruct Hy as (x & <- & Hx).
    rewrite Qabs_Qmult, (Qabs_pos (gainFor (peak data))) by exact Hg0.
    apply Qle_trans with (peak data * gainFor (peak data)); [|exact Hg].
    apply Qmult_le_compat_r; [apply Hub; exact Hx | exact Hg0].
  - rewrite normalizeChannel_silent.
    + apply Qle_trans with 0; [exact Hp | discriminate].
    + intros H. apply (Qlt_not_le _ _ H Hp).
Qed.

Lemma normalizeChannel_idempotent (data : list Q) :
  normalizeChannel (List.length data) (normalizeChannel (List.length data) data)
    = normalizeChannel (List.length data) data.
Proof.
  rewrite <- (normalizeChannel_length data) at 1.
  apply normalizeChannel_below_ceiling, normalizeChannel_peak.
Qed.

Lemma peak_zero (data : list Q) :
  (forall x, In x data -> x == 0) -> ~ 0 < peak data.
Proof.
  intros Hz Hp. destruct (peak_spec data) as (_ & _ & [E|(x & Hx & E)]);
    rewrite E in Hp.
  - apply (Qlt_irrefl _ Hp).
  - rewrite (Hz x Hx) in Hp. apply (Qlt_irrefl _ Hp).
Qed.

Lemma insert_mapped_prefix {A : Type} (f : A -> A) (l : list A) (m : nat) (d : A) :
  l !! m = Some d ->
  (List.map f (take m l) ++ drop m l) !! m = Some d /\
  <[m := f d]> (List.map f (take m l) ++ drop m l)
    = List.map f (take (S m) l) ++ drop (S m) l.
Proof.
  intros Hd. pose proof (lookup_lt_Some _ _ _ Hd) as Hlt.
  assert (List.length (List.map f (take m l)) = m) as Hlen.
  { rewrite length_map, length_take. lia. }
  split.
  - rewrite lookup_app_r by lia. rewrite Hlen, Nat.sub_diag.
    rewrite (drop_S _ _ _ Hd). reflexivity.
  - rewrite insert_app_r_alt by lia. rewrite Hlen, Nat.sub_diag.
    rewrite (drop_S _ _ _ Hd). cbn [list_insert insert].
    rewrite (take_S_r _ _ _ Hd), map_app. cbn [List.map].
    rewrite <- app_assoc. reflexivity.
Qed.

(** The loop over channels normalizes each channel on its own. *)
Lemma normalize_channels (length : nat) (vb ab : AudioBuffer) :
  List.length (channels vb) = List.length (channels ab) ->
  normalize (List.length (channels vb)) length (vb, ab)
    = (mkAudioBuffer (numberOfChannels vb) (bufferLength vb) (sampleRate vb)
         (List.map (normalizeChannel length) (channels vb)),
       mkAudioBuffer (numberOfChannels ab) (bufferLength ab) (sampleRate ab)
         (List.map (normalizeChannel length) (channels ab))).
Proof.
  intros Hsame. unfold normalize.
  set (f := normalizeChannel length).
  set (P := fun (m : nat) (b : AudioBuffer * AudioBuffer) =>
    b = (mkAudioBuffer (numberOfChannels vb) (bufferLength vb) (sampleRate vb)
           (List.map f (take m (channels vb)) ++ drop m (channels vb)),
         mkAudioBuffer (numberOfChannels ab) (bufferLength ab) (sampleRate ab)
           (List.map f (take m (channels ab)) ++ drop m (channels ab)))).
  assert (P (List.length (channels vb))
            (for_range 0 (List.length (channels vb))
               (fun channel b =>
                  let vocalsData := getChannelData (fst b) channel in
                  let accompanimentData := getChannelData (snd b) channel in
                  let m := peaks length vocalsData accompanimentData in
                  (setChannelData (fst b) channel
                     (scaleToCeiling length (fst m) vocalsData),
                   setChannelData (snd b) channel
                     (scaleToCeiling length (snd m) accompanimentData)))
               (vb, ab))) as H.
  { apply (for_range_invariant P); [lia| |].
    - unfold P. rewrite !take_0, !drop_0. destruct vb, ab. reflexivity.
    - intros m b Hm Hb. unfold P in Hb. subst b. unfold P. cbv zeta.
      cbn [fst snd]. rewrite peaks_maxAbs. cbn [fst snd].
      destruct (lookup_lt_is_Some_2 (channels vb) m ltac:(lia)) as (dv & Hdv).
      destruct (lookup_lt_is_Some_2 (channels ab) m ltac:(lia)) as (da & Hda).
      destruct (insert_mapped_prefix f _ _ _ Hdv) as (Lv & Iv).
      destruct (insert_mapped_prefix f _ _ _ Hda) as (La & Ia).
      unfold getChannelData, setChannelData.
      cbn [channels numberOfChannels bufferLength sampleRate].
      rewrite Lv, La. cbn [default from_option].
      rewrite <- Iv, <- Ia. reflexivity. }
  unfold P in H. rewrite H.
  rewrite !take_ge, !drop_ge, !app_nil_r by lia. reflexivity.
Qed.

Lemma wf_channel_length (b : AudioBuffer) (c : nat) (d : list Q) :
  wf_buffer b -> channels b !! c = Some d -> List.length d = bufferLength b.
Proof.
  intros (_ & _ & Hall) Hd. rewrite Forall_forall in Hall.
  apply Hall. apply list_elem_of_lookup. exists c. exact Hd.
Qed.

Lemma normalizedAsSpecified_normalizeChannel (data : list Q) :
  normalizedAsSpecified data (normalizeChannel (List.length data) data).
Proof.
  unfold normalizedAsSpecified. repeat split.
  - apply normalizeChannel_scaled.
  - apply normalizeChannel_silent.
  - intros _. apply normalizeChannel_peak.
  - apply normalizeChannel_below_ceiling.
  - intros Hz. apply normalizeChannel_silent, peak_zero, Hz.
Qed.

Lemma normalize_wf (vocalsBuffer accompanimentBuffer : AudioBuffer) :
  wf_buffer vocalsBuffer ->
  wf_buffer accompanimentBuffer ->
  numberOfChannels accompanimentBuffer = numberOfChannels vocalsBuffer ->
  bufferLength accompanimentBuffer = bufferLength vocalsBuffer ->
  normalize (numberOfChannels vocalsBuffer) (bufferLength vocalsBuffer)
            (vocalsBuffer, accompanimentBuffer)
    = (mkAudioBuffer (numberOfChannels vocalsBuffer) (bufferLength vocalsBuffer)
         (sampleRate vocalsBuffer)
         (List.map (fun d => normalizeChannel (List.length d) d)
                   (channels vocalsBuffer)),
       mkAudioBuffer (numberOfChannels accompanimentBuffer)
         (bufferLength accompanimentBuffer) (sampleRate accompanimentBuffer)
         (List.map (fun d => normalizeChannel (List.length d) d)
                   (channels accompanimentBuffer))).
Proof.
  intros Hv Ha Hn HL.
  pose proof Hv as (_ & Lv & Fv). pose proof Ha as (_ & La & Fa).
  pose proof (normalize_channels (bufferLength vocalsBuffer)
                vocalsBuffer accompanimentBuffer ltac:(congruence)) as N.
  rewrite Lv in N. rewrite N. f_equal; f_equal.
  - apply map_ext_in. intros d Hd. rewrite Forall_forall in Fv.
    rewrite (Fv d) by (apply list_elem_of_In; exact Hd). reflexivity.
  - apply map_ext_in. intros d Hd. rewrite Forall_forall in Fa.
    rewrite (Fa d) by (apply list_elem_of_In; exact Hd). rewrite HL. reflexivity.
Qed.

(** C3: on every channel of both output buffers the normalizer multiplies
    every sample by [min(1, 0.9 / peak)] when the channel's peak is positive
    and leaves the channel alone otherwise; so the peak afterwards is at most
    0.9, a channel whose peak is at most 0.9 is unchanged, and so is an
    all-zero channel. *)
Theorem C3_normalizer_scales_each_channel_to_ceiling
    (vocalsBuffer accompanimentBuffer : AudioBuffer) :
  wf_buffer vocalsBuffer ->
  wf_buffer accompanimentBuffer ->
  numberOfChannels accompanimentBuffer = numberOfChannels vocalsBuffer ->
  bufferLength accompanimentBuffer = bufferLength vocalsBuffer ->
  let out :=
    normalize (numberOfChannels vocalsBuffer) (bufferLength vocalsBuffer)
      (vocalsBuffer, accompanimentBuffer) in
  forall channel, (channel < numberOfChannels vocalsBuffer)%nat ->
    normalizedAsSpecified (getChannelData vocalsBuffer channel)
                          (getChannelData (fst out) channel) /\
    normalizedAsSpecified (getChannelData accompanimentBuffer channel)
                          (getChannelData (snd out) channel).
Proof.
  intros Hv Ha Hn HL. cbv zeta. intros channel Hc.
  rewrite normalize_wf by assumption.
  pose proof Hv as (_ & Lv & _). pose proof Ha as (_ & La & _).
  cbn [fst snd]. unfold getChannelData.
  cbn [channels]. rewrite !list_lookup_fmap.
  destruct (lookup_lt_is_Some_2 (channels vocalsBuffer) channel ltac:(lia))
    as (dv & Hdv).
  destruct (lookup_lt_is_Some_2 (channels accompanimentBuffer) channel ltac:(lia))
    as (da & Hda).
  rewrite Hdv, Hda. cbn [fmap option_fmap option_map default from_option id].
  split; apply normalizedAsSpecified_normalizeChannel.
Qed.

Lemma wf_clipping2x3 : wf_buffer clipping2x3.
Proof. unfold wf_buffer. simpl. repeat split; [lia|]. repeat constructor. Qed.

Lemma wf_mixed2x3 : wf_buffer mixed2x3.
Proof. unfold wf_buffer. simpl. repeat split; [lia|]. repeat constructor. Qed.

Lemma C3_witness :
  wf_buffer clipping2x3 /\
  wf_buffer mixed2x3 /\
  numberOfChannels mixed2x3 = numberOfChannels clipping2x3 /\
  bufferLength mixed2x3 = bufferLength clipping2x3 /\
  let out := normalize 2 3 (clipping2x3, mixed2x3) in
  forall channel, (channel < 2)%nat ->
    normalizedAsSpecified (getChannelData clipping2x3 channel)
                          (getChannelData (fst out) channel) /\
    normalizedAsSpecified (getChannelData mixed2x3 channel)
                          (getChannelData (snd out) channel).
Proof.
  split; [exact wf_clipping2x3|]. split; [exact wf_mixed2x3|].
  split; [reflexivity|]. split; [reflexivity|].
  exact (C3_normalizer_scales_each_channel_to_ceiling clipping2x3 mixed2x3
           wf_clipping2x3 wf_mixed2x3 eq_refl eq_refl).
Defined.

(** The normalizer on the two sample buffers: the clipping channel (peak 2)
    is scaled by 0.45, the loud one (peak 3) by 0.3, the quiet and the
    silent channels are returned as they were. *)
Example normalize_samples :
  let out := normalize 2 3 (clipping2x3, mixed2x3) in
  Forall2 Qeq (getChannelData (fst out) 0) [9 # 10; -9 # 20; 9 # 40] /\
  getChannelData (fst out) 1 = [0; 0; 0] /\
  getChannelData (snd out) 0 = [1 # 2; -1 # 4; 0] /\
  Forall2 Qeq (getChannelData (snd out) 1) [3 # 10; -9 # 10; 3 # 20].
Proof.
  vm_compute. repeat split; repeat constructor.
Qed.

Lemma wf_normalized (b : AudioBuffer) :
  wf_buffer b ->
  wf_buffer (mkAudioBuffer (numberOfChannels b) (bufferLength b) (sampleRate b)
               (List.map (fun d => normalizeChannel (List.length d) d) (channels b))).
Proof.
  intros (Hn & Hch & Hall). unfold wf_buffer.
  cbn [numberOfChannels bufferLength channels].
  split; [exact Hn|]. split; [rewrite length_map; exact Hch|].
  apply List.Forall_map. eapply List.Forall_impl; [|exact Hall].
  intros d Hd. cbv beta in *. rewrite normalizeChannel_length. exact Hd.
Qed.

(** C4: normalizing twice is normalizing once. *)
Theorem C4_normalizer_idempotent (vocalsBuffer accompanimentBuffer : AudioBuffer) :
  wf_buffer vocalsBuffer ->
  wf_buffer accompanimentBuffer ->
  numberOfChannels accompanimentBuffer = numberOfChannels vocalsBuffer ->
  bufferLength accompanimentBuffer = bufferLength vocalsBuffer ->
  let n := numberOfChannels vocalsBuffer in
  let length := bufferLength vocalsBuffer in
  normalize n length (normalize n length (vocalsBuffer, accompanimentBuffer))
    = normalize n length (vocalsBuffer, accompanimentBuffer).
Proof.
  intros Hv Ha Hn HL. cbv zeta. rewrite normalize_wf by assumption.
  pose proof (normalize_wf _ _ (wf_normalized _ Hv) (wf_normalized _ Ha) Hn HL) as N.
  cbn [numberOfChannels bufferLength sampleRate channels] in N. rewrite N.
  rewrite !List.map_map.
  f_equal; f_equal; apply map_ext; intros d;
    rewrite normalizeChannel_length; apply normalizeChannel_idempotent.
Qed.

Lemma C4_witness :
  wf_buffer clipping2x3 /\
  wf_buffer mixed2x3 /\
  numberOfChannels mixed2x3 = numberOfChannels clipping2x3 /\
  bufferLength mixed2x3 = bufferLength clipping2x3 /\
  normalize 2 3 (normalize 2 3 (clipping2x3, mixed2x3))
    = normalize 2 3 (clipping2x3, mixed2x3).
Proof.
  split; [exact wf_clipping2x3|]. split; [exact wf_mixed2x3|].
  split; [reflexivity|]. split; [reflexivity|].
  exact (C4_normalizer_idempotent clipping2x3 mixed2x3
           wf_clipping2x3 wf_mixed2x3 eq_refl eq_refl).
Defined.

(** ** Short mono inputs *)

Lemma wf_createBuffer (n len : nat) (rate : Z) :
  (1 <= n)%nat -> wf_buffer (createBuffer n len rate).
Proof.
  intros Hn. unfold wf_buffer, createBuffer.
  cbn [numberOfChannels bufferLength channels].
  split; [exact Hn|]. split; [apply length_replicate|].
  apply Forall_forall. intros c Hc.
  apply elem_of_replicate in Hc. destruct Hc as (-> & _). apply length_zeros.
Qed.

Lemma normalizeChannel_zeros (len : nat) :
  normalizeChannel (List.length (newFloat32Array len)) (newFloat32Array len)
    = newFloat32Array len.
Proof.
  apply normalizeChannel_silent, peak_zero.
  intros x Hx. apply list_elem_of_In, elem_of_replicate in Hx.
  destruct Hx as (-> & _). reflexivity.
Qed.

(** The normalizer leaves freshly created buffers as they are. *)
Lemma normalize_createBuffer (n len : nat) (rate : Z) :
  (1 <= n)%nat ->
  normalize n len (createBuffer n len rate, createBuffer n len rate)
    = (createBuffer n len rate, createBuffer n len rate).
Proof.
  intros Hn.
  pose proof (normalize_wf _ _ (wf_createBuffer n len rate Hn)
                (wf_createBuffer n len rate Hn) eq_refl eq_refl) as N.
  cbn [numberOfChannels bufferLength sampleRate channels createBuffer] in N.
  rewrite N. unfold createBuffer.
  assert (List.map (fun d => normalizeChannel (List.length d) d)
            (replicate n (newFloat32Array len))
          = replicate n (newFloat32Array len)) as ->; [|reflexivity].
  clear Hn N. induction n as [|n IH]; [reflexivity|].
  cbn [replicate List.map]. rewrite normalizeChannel_zeros. f_equal. exact IH.
Qed.

Lemma separateMono_short (audioBuffer vocalsBuffer accompanimentBuffer : AudioBuffer) :
  (bufferLength audioBuffer <= 1024)%nat ->
  separateMono audioBuffer vocalsBuffer accompanimentBuffer
    = Some (getChannelData vocalsBuffer 0, getChannelData accompanimentBuffer 0).
Proof.
  intros Hshort. unfold separateMono.
  assert ((Z.of_nat 0 <? Z.of_nat (bufferLength audioBuffer) - Z.of_nat windowSize)%Z
          = false) as Hguard.
  { apply Z.ltb_ge. change (Z.of_nat windowSize) with 1024%Z. lia. }
  destruct (bufferLength audioBuffer); cbn [for_loop]; rewrite Hguard; reflexivity.
Qed.

(** C10: a mono input of at most 1024 samples has no window processed, so
    both outputs are silent whatever the input holds, before and after the
    normalization; this includes the input of exactly 1024 samples. *)
Theorem C10_short_mono_input_yields_silence
    (tf : option TensorBackend) (audioBuffer : AudioBuffer) :
  wf_buffer audioBuffer ->
  numberOfChannels audioBuffer = 1%nat ->
  (bufferLength audioBuffer <= 1024)%nat ->
  let length := bufferLength audioBuffer in
  exists vocals accompaniment,
    processedStarts length = [] /\
    separate tf audioBuffer = Some (vocals, accompaniment) /\
    extractVocals tf audioBuffer = Some (vocals, accompaniment) /\
    List.length (getChannelData vocals 0) = length /\
    List.length (getChannelData accompaniment 0) = length /\
    forall k, (k < length)%nat ->
      rd (getChannelData vocals 0) k = 0 /\
      rd (getChannelData accompaniment 0) k = 0.
Proof.
  intros Hwf Hmono Hshort. cbv zeta.
  set (silence := createBuffer 1 (bufferLength audioBuffer) (sampleRate audioBuffer)).
  assert (separate tf audioBuffer = Some (silence, silence)) as Hsep.
  { rewrite separate_mono by exact Hmono. rewrite separateMono_short by exact Hshort.
    reflexivity. }
  exists silence, silence. split; [|split; [exact Hsep|split; [|split; [|split]]]].
  - unfold processedStarts. apply filter_none. intros s _. apply Z.ltb_ge. lia.
  - unfold extractVocals. rewrite Hsep. cbn [mbind option_bind].
    rewrite Hmono. unfold silence. rewrite normalize_createBuffer by lia. reflexivity.
  - unfold silence. rewrite createBuffer_channel by lia. apply length_zeros.
  - unfold silence. rewrite createBuffer_channel by lia. apply length_zeros.
  - intros k _. unfold silence. rewrite createBuffer_channel by lia.
    rewrite rd_zeros. split; reflexivity.
Qed.

Lemma wf_mono1024 : wf_buffer mono1024.
Proof.
  unfold wf_buffer. cbn [numberOfChannels bufferLength channels mono1024].
  split; [lia|]. split; [reflexivity|].
  constructor; [|constructor]. apply length_replicate.
Qed.

Lemma C10_witness :
  wf_buffer mono1024 /\
  numberOfChannels mono1024 = 1%nat /\
  (bufferLength mono1024 <= 1024)%nat /\
  exists vocals accompaniment,
    processedStarts 1024 = [] /\
    separate None mono1024 = Some (vocals, accompaniment) /\
    extractVocals None mono1024 = Some (vocals, accompaniment) /\
    List.length (getChannelData vocals 0) = 1024%nat /\
    List.length (getChannelData accompaniment 0) = 1024%nat /\
    forall k, (k < 1024)%nat ->
      rd (getChannelData vocals 0) k = 0 /\
      rd (getChannelData accompaniment 0) k = 0.
Proof.
  assert (bufferLength mono1024 <= 1024)%nat as Hshort
    by (cbn [bufferLength mono1024]; lia).
  split; [exact wf_mono1024|]. split; [reflexivity|]. split; [exact Hshort|].
  exact (C10_short_mono_input_yields_silence None mono1024 wf_mono1024 eq_refl Hshort).
Defined.

(** The 1024 samples of 1/2 come out as 1024 zeros in both stems. *)
Example mono1024_is_silenced :
  rd (getChannelData mono1024 0) 512 = 1 # 2 /\
  extractVocals None mono1024
    = Some (createBuffer 1 1024 44100, createBuffer 1 1024 44100).
Proof. split; vm_compute; reflexivity. Qed.

(** ** Enhancer *)

Lemma separate_stereo (tf : option TensorBackend) (audioBuffer : AudioBuffer) :
  (2 <= numberOfChannels audioBuffer)%nat ->
  let length := bufferLength audioBuffer in
  let vocalsBuffer :=
    createBuffer (numberOfChannels audioBuffer) length (sampleRate audioBuffer) in
  let accompanimentBuffer :=
    createBuffer (numberOfChannels audioBuffer) length (sampleRate audioBuffer) in
  separate tf audioBuffer
    = Some (storeStems vocalsBuffer accompanimentBuffer
              (enhance tf length
                 (separateStereo audioBuffer vocalsBuffer accompanimentBuffer))).
Proof.
  intros Hn. cbv zeta. unfold separate.
  rewrite (proj2 (Nat.leb_le 2 _) Hn). reflexivity.
Qed.

(** The stereo branch has no way to fail: whatever the backend does,
    [extractVocals] returns its two buffers. *)
Lemma extractVocals_stereo_returns (tf : option TensorBackend) (audioBuffer : AudioBuffer) :
  (2 <= numberOfChannels audioBuffer)%nat ->
  exists vocals accompaniment,
    extractVocals tf audioBuffer = Some (vocals, accompaniment).
Proof.
  intros Hn. unfold extractVocals. rewrite separate_stereo by exact Hn.
  cbn [mbind option_bind].
  match goal with |- context [normalize ?n ?l ?b] =>
    destruct (normalize n l b) as [v a] end.
  exists v, a. reflexivity.
Qed.

(** C7: when the backend is missing, or any call of the [try] block throws,
    the stereo arrays go on to the normalizer exactly as the smoothing pass
    left them, and [extractVocals] returns as it does without a backend; and
    no backend makes a stereo run fail. *)
Theorem C7_enhancement_failure_passes_through
    (tf : option TensorBackend) (audioBuffer : AudioBuffer) :
  wf_buffer audioBuffer ->
  (2 <= numberOfChannels audioBuffer)%nat ->
  let length := bufferLength audioBuffer in
  let vocalsBuffer :=
    createBuffer (numberOfChannels audioBuffer) length (sampleRate audioBuffer) in
  let accompanimentBuffer :=
    createBuffer (numberOfChannels audioBuffer) length (sampleRate audioBuffer) in
  let stems := separateStereo audioBuffer vocalsBuffer accompanimentBuffer in
  (exists vocals accompaniment,
     extractVocals tf audioBuffer = Some (vocals, accompaniment)) /\
  (tf = None \/
   (exists backend, tf = Some backend /\ enhanceTry backend length stems = None) ->
   enhance tf length stems = stems /\
   separate tf audioBuffer
     = Some (storeStems vocalsBuffer accompanimentBuffer stems) /\
   extractVocals tf audioBuffer = extractVocals None audioBuffer /\
   extractVocals tf audioBuffer
     = Some (normalize (numberOfChannels audioBuffer) length
               (storeStems vocalsBuffer accompanimentBuffer stems))).
Proof.
  intros _ Hn. cbv zeta. split; [apply extractVocals_stereo_returns; exact Hn|].
  intros Hfail.
  match goal with |- ?e /\ _ => assert e as Hpass end.
  { destruct Hfail as [->|(backend & -> & Htry)]; [reflexivity|].
    unfold enhance. rewrite Htry. reflexivity. }
  split; [exact Hpass|].
  assert (separate tf audioBuffer = separate None audioBuffer) as Hsep.
  { rewrite !separate_stereo by exact Hn. rewrite Hpass. reflexivity. }
  split; [rewrite Hsep, separate_stereo by exact Hn; reflexivity|].
  split.
  - unfold extractVocals. rewrite Hsep. reflexivity.
  - unfold extractVocals. rewrite Hsep, separate_stereo by exact Hn. reflexivity.
Qed.

Lemma C7_witness :
  wf_buffer stereo3 /\
  (2 <= numberOfChannels stereo3)%nat /\
  enhanceTry unreadableBackend 3
    (separateStereo stereo3 (createBuffer 2 3 44100) (createBuffer 2 3 44100)) = None /\
  (exists vocals accompaniment,
     extractVocals (Some unreadableBackend) stereo3 = Some (vocals, accompaniment)) /\
  enhance (Some unreadableBackend) 3
    (separateStereo stereo3 (createBuffer 2 3 44100) (createBuffer 2 3 44100))
    = separateStereo stereo3 (createBuffer 2 3 44100) (createBuffer 2 3 44100) /\
  separate (Some unreadableBackend) stereo3
    = Some (storeStems (createBuffer 2 3 44100) (createBuffer 2 3 44100)
              (separateStereo stereo3 (createBuffer 2 3 44100)
                 (createBuffer 2 3 44100))) /\
  extractVocals (Some unreadableBackend) stereo3 = extractVocals None stereo3 /\
  extractVocals (Some unreadableBackend) stereo3
    = Some (normalize 2 3
              (storeStems (createBuffer 2 3 44100) (createBuffer 2 3 44100)
                 (separateStereo stereo3 (createBuffer 2 3 44100)
                    (createBuffer 2 3 44100)))).
Proof.
  assert (2 <= numberOfChannels stereo3)%nat as Hn
    by (cbn [numberOfChannels stereo3]; lia).
  destruct (C7_enhancement_failure_passes_through (Some unreadableBackend) stereo3
              wf_stereo3 Hn) as (Hret & Hpass).
  split; [exact wf_stereo3|]. split; [exact Hn|]. split; [reflexivity|].
  split; [exact Hret|]. apply Hpass. right.
  exists unreadableBackend. split; reflexivity.
Defined.

(** Each call of the [try] block is a fault point: a backend that throws at
    the first call and one that throws at the last both reach [catch]. *)
Example backends_reach_catch (s : Stems) (length : nat) :
  enhanceTry throwingBackend length s = None /\
  enhanceTry unreadableBackend length s = None.
Proof. split; reflexivity. Qed.

(** A run whose backend throws is the run without a backend. *)
Lemma extractVocals_throwing (audioBuffer : AudioBuffer) :
  extractVocals (Some throwingBackend) audioBuffer = extractVocals None audioBuffer.
Proof.
  unfold extractVocals, separate. cbv zeta.
  destruct (2 <=? numberOfChannels audioBuffer)%nat; reflexivity.
Qed.

(** ** A constant stereo input *)

Lemma smoothed_half (x : nat -> Q) (i : nat) :
  (forall j, (j <= i)%nat -> x j == 1 # 2) -> smoothed x i == 1 # 2.
Proof.
  induction i as [|i IH]; intros H; simpl.
  - apply H. lia.
  - rewrite IH by (intros; apply H; lia). rewrite (H (S i)) by lia. reflexivity.
Qed.

Lemma smoothed_zero (x : nat -> Q) (i : nat) :
  (forall j, (j <= i)%nat -> x j == 0) -> smoothed x i == 0.
Proof.
  induction i as [|i IH]; intros H; simpl.
  - apply H. lia.
  - rewrite IH by (intros; apply H; lia). rewrite (H (S i)) by lia. reflexivity.
Qed.

Lemma all_of_rd (d : list Q) (n : nat) (P : Q -> Prop) :
  List.length d = n ->
  (forall i, (i < n)%nat -> P (rd d i)) ->
  forall x, In x d -> P x.
Proof.
  intros Hlen H x Hx. apply list_elem_of_In, list_elem_of_lookup in Hx.
  destruct Hx as (i & Hi). pose proof (lookup_lt_Some _ _ _ Hi) as Hlt.
  specialize (H i ltac:(lia)). unfold rd in H. rewrite Hi in H. exact H.
Qed.

(** The peak of a non-empty channel whose samples all equal [v >= 0]. *)
Lemma peak_constant (d : list Q) (v : Q) :
  0 <= v -> d <> [] -> (forall x, In x d -> x == v) -> peak d == v.
Proof.
  intros Hv Hne Hall. apply Qle_antisym.
  - apply peak_le_bound; [exact Hv|]. intros x Hx.
    rewrite (Hall x Hx), Qabs_pos by exact Hv. apply Qle_refl.
  - destruct d as [|x d]; [congruence|].
    destruct (peak_spec (x :: d)) as (_ & Hub & _).
    specialize (Hub x ltac:(left; reflexivity)).
    assert (Qabs x == v) as E.
    { rewrite (Hall x ltac:(left; reflexivity)). apply Qabs_pos. exact Hv. }
    apply Qle_trans with (Qabs x); [rewrite E; apply Qle_refl | exact Hub].
Qed.

Lemma length_nonempty (d : list Q) : (1 <= List.length d)%nat -> d <> [].
Proof. destruct d; simpl; [lia | congruence]. Qed.

(** The whole run on [constantStereo n (1 # 2)], without a backend. *)
Lemma constant_half_run (n : nat) :
  (1 <= n)%nat ->
  let audioBuffer := constantStereo n (1 # 2) in
  let left := getChannelData audioBuffer 0 in
  let right := getChannelData audioBuffer 1 in
  let length := bufferLength audioBuffer in
  let vocalsBuffer := createBuffer 2 length 44100 in
  let accompanimentBuffer := createBuffer 2 length 44100 in
  let stems := separateStereo audioBuffer vocalsBuffer accompanimentBuffer in
  (forall i, (i < length)%nat ->
     center left right i == 1 # 2 /\
     sideLeft left right i == 0 /\ sideRight left right i == 0) /\
  (forall i, (i < length)%nat ->
     rd (vocalsLeft stems) i == 1 # 2 /\ rd (vocalsRight stems) i == 1 # 2 /\
     rd (accompanimentLeft stems) i == 0 /\ rd (accompanimentRight stems) i == 0) /\
  exists vocals accompaniment,
    extractVocals None audioBuffer = Some (vocals, accompaniment) /\
    extractVocals (Some throwingBackend) audioBuffer = Some (vocals, accompaniment) /\
    (vocals, accompaniment) = storeStems vocalsBuffer accompanimentBuffer stems /\
    peak (getChannelData vocals 0) == 1 # 2 /\
    peak (getChannelData vocals 1) == 1 # 2 /\
    peak (getChannelData accompaniment 0) == 0 /\
    peak (getChannelData accompaniment 1) == 0.
Proof.
  intros Hn. cbv zeta. rewrite extractVocals_throwing.
  cbn [bufferLength numberOfChannels sampleRate constantStereo].
  change (getChannelData (constantStereo n (1 # 2)) 0) with (replicate n (1 # 2)).
  change (getChannelData (constantStereo n (1 # 2)) 1) with (replicate n (1 # 2)).
  set (half := replicate n (1 # 2)).
  assert (forall i, (i < n)%nat ->
            center half half i == 1 # 2 /\
            sideLeft half half i == 0 /\ sideRight half half i == 0) as Hcs.
  { intros i Hi. unfold sideLeft, sideRight, center, half.
    rewrite !rd_replicate by exact Hi. repeat split; reflexivity. }
  split; [exact Hcs|].
  destruct (separateStereo_spec (constantStereo n (1 # 2)) ltac:(simpl; lia))
    as (L1 & L2 & L3 & L4 & Hout).
  cbn [bufferLength numberOfChannels sampleRate constantStereo] in L1, L2, L3, L4, Hout.
  change (getChannelData (constantStereo n (1 # 2)) 0) with half in Hout.
  change (getChannelData (constantStereo n (1 # 2)) 1) with half in Hout.
  set (stems := separateStereo (constantStereo n (1 # 2))
                  (createBuffer 2 n 44100) (createBuffer 2 n 44100)) in *.
  assert (forall i, (i < n)%nat ->
            rd (vocalsLeft stems) i == 1 # 2 /\ rd (vocalsRight stems) i == 1 # 2 /\
            rd (accompanimentLeft stems) i == 0 /\
            rd (accompanimentRight stems) i == 0) as Hst.
  { intros i Hi. destruct (Hout i Hi) as (E1 & E2 & E3 & E4).
    rewrite E1, E2, E3, E4. repeat split.
    1,2: apply smoothed_half; intros j Hj; apply Hcs; lia.
    all: apply smoothed_zero; intros j Hj; apply Hcs; lia. }
  split; [exact Hst|].
  assert (forall x, In x (vocalsLeft stems) -> x == 1 # 2) as Vl
    by (apply (all_of_rd _ n); [exact L1 | intros; apply Hst; assumption]).
  assert (forall x, In x (vocalsRight stems) -> x == 1 # 2) as Vr
    by (apply (all_of_rd _ n); [exact L2 | intros; apply Hst; assumption]).
  assert (forall x, In x (accompanimentLeft stems) -> x == 0) as Al
    by (apply (all_of_rd _ n); [exact L3 | intros; apply Hst; assumption]).
  assert (forall x, In x (accompanimentRight stems) -> x == 0) as Ar
    by (apply (all_of_rd _ n); [exact L4 | intros; apply Hst; assumption]).
  pose proof (peak_constant _ (1 # 2) ltac:(discriminate)
                (length_nonempty _ ltac:(rewrite L1; exact Hn)) Vl) as Pvl.
  pose proof (peak_constant _ (1 # 2) ltac:(discriminate)
                (length_nonempty _ ltac:(rewrite L2; exact Hn)) Vr) as Pvr.
  pose proof (peak_constant _ 0 ltac:(discriminate)
                (length_nonempty _ ltac:(rewrite L3; exact Hn)) Al) as Pal.
  pose proof (peak_constant _ 0 ltac:(discriminate)
                (length_nonempty _ ltac:(rewrite L4; exact Hn)) Ar) as Par.
  assert (exists bufs,
            extractVocals None (constantStereo n (1 # 2)) = Some bufs /\
            bufs = storeStems (createBuffer 2 n 44100) (createBuffer 2 n 44100) stems)
    as (bufs & Hrun & ->).
  2: { eexists _, _. split; [exact Hrun|]. split; [exact Hrun|].
       split; [reflexivity|].
       cbn [fst snd storeStems]. unfold getChannelData, setChannelData, createBuffer.
       cbn [channels replicate]. cbn. auto. }
  eexists. split; [|reflexivity].
  - unfold extractVocals.
    rewrite (separate_stereo None (constantStereo n (1 # 2))) by (simpl; lia).
    cbn [mbind option_bind enhance bufferLength numberOfChannels sampleRate
         constantStereo].
    fold stems. f_equal.
    assert (storeStems (createBuffer 2 n 44100) (createBuffer 2 n 44100) stems
            = (mkAudioBuffer 2 n 44100 [vocalsLeft stems; vocalsRight stems],
               mkAudioBuffer 2 n 44100
                 [accompanimentLeft stems; accompanimentRight stems])) as ->
      by reflexivity.
    rewrite (normalize_wf (mkAudioBuffer 2 n 44100 _) (mkAudioBuffer 2 n 44100 _));
      try reflexivity.
    2,3: unfold wf_buffer; cbn [numberOfChannels bufferLength channels];
      split; [lia|]; split; [reflexivity|]; repeat constructor; assumption.
    cbn [numberOfChannels bufferLength sampleRate channels List.map].
    rewrite !normalizeChannel_below_ceiling; [reflexivity|..].
    + rewrite Par. discriminate.
    + rewrite Pal. discriminate.
    + rewrite Pvr. discriminate.
    + rewrite Pvl. discriminate.
Qed.

(** The run without the enhancement on four samples, computed. *)
Example constant_half_four_samples :
  exists vocals accompaniment,
    extractVocals None (constantStereo 4 (1 # 2)) = Some (vocals, accompaniment) /\
    Forall2 Qeq (getChannelData vocals 0) [1 # 2; 1 # 2; 1 # 2; 1 # 2] /\
    Forall2 Qeq (getChannelData vocals 1) [1 # 2; 1 # 2; 1 # 2; 1 # 2] /\
    Forall2 Qeq (getChannelData accompaniment 0) [0; 0; 0; 0] /\
    Forall2 Qeq (getChannelData accompaniment 1) [0; 0; 0; 0].
Proof.
  eexists _, _. split; [vm_compute; reflexivity|].
  vm_compute. repeat split; repeat constructor.
Qed.

(** ** Container encoder *)

Local Open Scope Z_scope.

Lemma toUint_small (width value : Z) :
  0 <= value < 2 ^ width -> toUint width value = value.
Proof. intros H. unfold toUint. apply Z.mod_small. exact H. Qed.

Lemma toUint_range (width value : Z) :
  0 <= width -> 0 <= toUint width value < 2 ^ width.
Proof.
  intros H. unfold toUint. apply Z.mod_pos_bound. apply Z.pow_pos_nonneg; lia.
Qed.

(** Two and four little-endian bytes read back as the number written. *)
Lemma bytes16 (v : Z) :
  0 <= v < 2 ^ 16 -> byteOf v 0 + 256 * byteOf v 1 = v.
Proof.
  intros H. unfold byteOf.
  change (2 ^ (8 * 0)) with 1. change (2 ^ (8 * 1)) with 256.
  change (2 ^ 16) with 65536 in H.
  rewrite Z.div_1_r. Z.div_mod_to_equations. lia.
Qed.

Lemma bytes32 (v : Z) :
  0 <= v < 2 ^ 32 ->
  byteOf v 0 + 256 * byteOf v 1 + 65536 * (byteOf v 2 + 256 * byteOf v 3) = v.
Proof.
  intros H. unfold byteOf.
  change (2 ^ (8 * 0)) with 1. change (2 ^ (8 * 1)) with 256.
  change (2 ^ (8 * 2)) with 65536. change (2 ^ (8 * 3)) with 16777216.
  change (2 ^ 32) with 4294967296 in H.
  rewrite Z.div_1_r. Z.div_mod_to_equations. lia.
Qed.

Lemma toUint8_code (c : ascii) :
  toUint 8 (Z.of_nat (nat_of_ascii c)) = Z.of_nat (nat_of_ascii c).
Proof.
  apply toUint_small. pose proof (nat_ascii_bounded c).
  change (2 ^ 8) with 256. lia.
Qed.

(** The header is written into the first 44 bytes only. *)
Lemma writeHeader_app (audioBuffer : AudioBuffer) (tail : list Z) :
  writeHeader audioBuffer (replicate 44 0 ++ tail)
    = writeHeader audioBuffer (replicate 44 0) ++ tail.
Proof.
  unfold writeHeader, writeString, setUint32, setUint16, setUint8, for_range.
  cbn -[toUint byteOf Z.mul Z.add Z.of_nat]. reflexivity.
Qed.

Lemma writeHeader_length (audioBuffer : AudioBuffer) :
  List.length (writeHeader audioBuffer (replicate 44 0)) = 44%nat.
Proof.
  unfold writeHeader, writeString, setUint32, setUint16, setUint8, for_range.
  cbn -[toUint byteOf Z.mul Z.add Z.of_nat]. reflexivity.
Qed.

(** What a reader finds in the header fields. *)
Lemma header_fields (audioBuffer : AudioBuffer) (payload : list Z) :
  let bytes := writeHeader audioBuffer (replicate 44 0) ++ payload in
  let length := Z.of_nat (bufferLength audioBuffer) in
  let n := Z.of_nat (numberOfChannels audioBuffer) in
  tagAt bytes 0 "RIFF" = true /\
  getUint32 bytes 4 = toUint 32 (36 + length * n * 2) /\
  tagAt bytes 8 "WAVE" = true /\
  tagAt bytes 12 "fmt " = true /\
  getUint32 bytes 16 = 16 /\
  getUint16 bytes 20 = 1 /\
  getUint16 bytes 22 = toUint 16 n /\
  getUint32 bytes 24 = toUint 32 (sampleRate audioBuffer) /\
  getUint32 bytes 28 = toUint 32 (sampleRate audioBuffer * n * 2) /\
  getUint16 bytes 32 = toUint 16 (n * 2) /\
  getUint16 bytes 34 = 16 /\
  tagAt bytes 36 "data" = true /\
  getUint32 bytes 40 = toUint 32 (length * n * 2).
Proof.
  cbv zeta.
  unfold writeHeader, writeString, setUint32, setUint16, setUint8, for_range.
  unfold tagAt, getUint32, getUint16, getUint8, charCodeAt.
  cbn -[toUint byteOf Z.mul Z.add Z.of_nat Z.eqb nat_of_ascii].
  rewrite !toUint8_code, !Z.eqb_refl. cbn [andb].
  rewrite !bytes32, !bytes16 by (apply toUint_range; lia).
  repeat split; reflexivity.
Qed.

Lemma setInt16_frame (view : list Z) (offset : nat) (value : Q) :
  (44 <= offset)%nat ->
  List.length (setInt16 view offset value) = List.length view /\
  take 44 (setInt16 view offset value) = take 44 view.
Proof.
  intros H. unfold setInt16, setUint16. cbv zeta.
  rewrite !length_insert, !take_insert_ge by lia. auto.
Qed.

(** The samples are written behind the header and leave it alone. *)
Lemma writeSamples_frame (audioBuffer : AudioBuffer) (view : list Z) :
  List.length (fst (writeSamples audioBuffer view)) = List.length view /\
  take 44 (fst (writeSamples audioBuffer view)) = take 44 view.
Proof.
  unfold writeSamples.
  set (P := fun (_ : nat) (st : list Z * nat) =>
    List.length (fst st) = List.length view /\
    take 44 (fst st) = take 44 view /\ (44 <= snd st)%nat).
  match goal with |- context [for_range 0 ?hi ?body ?s] =>
    assert (P hi (for_range 0 hi body s)) as (H1 & H2 & _) end;
    [|split; assumption].
  apply (for_range_invariant P); [lia| |].
  - unfold P. cbn [fst snd]. auto.
  - intros i st _ Hst. apply (for_range_invariant (fun _ => P (S i))); [lia|exact Hst|].
    intros channel st' _ (H1 & H2 & H3). unfold P. cbn [fst snd].
    destruct (setInt16_frame (fst st') (snd st')
                (Qmax (-1) (Qmin 1 (rd (getChannelData audioBuffer channel) i))
                 * 32767)%Q H3) as (F1 & F2).
    rewrite F1, F2. repeat split; try assumption. lia.
Qed.

Lemma wavBytes_shape (audioBuffer : AudioBuffer) :
  exists payload,
    wavBytes audioBuffer = writeHeader audioBuffer (replicate 44 0) ++ payload /\
    List.length payload
      = (bufferLength audioBuffer * numberOfChannels audioBuffer * 2)%nat.
Proof.
  unfold wavBytes. cbv zeta.
  set (k := (bufferLength audioBuffer * numberOfChannels audioBuffer * 2)%nat).
  rewrite replicate_add, writeHeader_app.
  set (header := writeHeader audioBuffer (replicate 44 0)).
  destruct (writeSamples_frame audioBuffer (header ++ replicate k 0)) as (Hlen & Htake).
  set (bytes := fst (writeSamples audioBuffer (header ++ replicate k 0))) in *.
  assert (List.length header = 44%nat) as Hh by apply writeHeader_length.
  exists (drop 44 bytes). split.
  - rewrite <- (take_drop 44 bytes) at 1. rewrite Htake.
    rewrite take_app_length' by (symmetry; exact Hh). reflexivity.
  - rewrite length_drop, Hlen, length_app, length_replicate. lia.
Qed.

(** The encoder's bytes are a wav container announcing the buffer's channel
    count, sample rate and data size, whenever these fit the header. *)
Lemma parseWav_wavBytes (audioBuffer : AudioBuffer) :
  wf_buffer audioBuffer ->
  fitsWavHeader audioBuffer ->
  parseWav (wavBytes audioBuffer)
    = Some (mkWavInfo (Z.of_nat (numberOfChannels audioBuffer))
              (sampleRate audioBuffer) 16
              (Z.of_nat (bufferLength audioBuffer)
               * Z.of_nat (numberOfChannels audioBuffer) * 2)).
Proof.
  intros (Hn & _ & _) (Hc & Hr & Hbr & Hsz).
  destruct (wavBytes_shape audioBuffer) as (payload & -> & Hpay).
  destruct (header_fields audioBuffer payload)
    as (T0 & F4 & T8 & T12 & F16 & F20 & F22 & F24 & F28 & F32 & F34 & T36 & F40).
  cbv zeta in *. unfold parseWav. cbv zeta.
  rewrite T0, F4, T8, T12, F16, F20, F22, F24, F28, F32, F34, T36, F40.
  rewrite length_app, writeHeader_length, Hpay.
  set (length := Z.of_nat (bufferLength audioBuffer)) in *.
  set (n := Z.of_nat (numberOfChannels audioBuffer)) in *.
  assert (1 <= n) as Hn1 by (unfold n; lia).
  assert (0 <= length) as Hl0 by (unfold length; lia).
  assert (0 <= length * n * 2) as Hd0 by nia.
  rewrite (toUint_small 16 n) by lia.
  rewrite (toUint_small 16 (n * 2)) by lia.
  rewrite (toUint_small 32 (sampleRate audioBuffer)) by nia.
  rewrite (toUint_small 32 (sampleRate audioBuffer * n * 2)) by nia.
  rewrite (toUint_small 32 (length * n * 2)) by lia.
  rewrite (toUint_small 32 (36 + length * n * 2)) by lia.
  rewrite !Z.eqb_refl.
  rewrite (proj2 (Z.leb_le 1 n) Hn1), (proj2 (Z.leb_le 1 _) Hr).
  replace (Z.of_nat (44 + bufferLength audioBuffer * numberOfChannels audioBuffer * 2))
    with (44 + length * n * 2) by (unfold length, n; lia).
  rewrite Z.eqb_refl. reflexivity.
Qed.

(** *** Base64 *)

Lemma code_range (c : ascii) : 0 <= code c < 256.
Proof. unfold code. pose proof (nat_ascii_bounded c). lia. Qed.

Lemma code_fromCharCode (b : Z) : 0 <= b < 256 -> code (fromCharCode b) = b.
Proof.
  intros H. unfold code, fromCharCode, nat_of_ascii.
  rewrite N_ascii_embedding by lia. lia.
Qed.

(** The alphabet read backwards: every sextet is found again, and none is
    the padding character. *)
Lemma base64Char_sextet (n : Z) :
  0 <= n < 64 ->
  sextetOf (base64Char n) = Some n /\ Ascii.eqb (base64Char n) "=" = false.
Proof.
  intros H.
  assert (forallb
            (fun k =>
               match sextetOf (base64Char (Z.of_nat k)) with
               | Some m => (m =? Z.of_nat k) && negb (Ascii.eqb (base64Char (Z.of_nat k)) "=")
               | None => false
               end)
            (seq 0 64) = true) as Hall by (vm_compute; reflexivity).
  rewrite forallb_forall in Hall.
  specialize (Hall (Z.to_nat n) ltac:(apply in_seq; lia)).
  rewrite Z2Nat.id in Hall by lia.
  destruct (sextetOf (base64Char n)) as [m|]; [|discriminate].
  apply andb_true_iff in Hall. destruct Hall as (Hm & Hpad).
  apply Z.eqb_eq in Hm. apply negb_true_iff in Hpad. subst m. auto.
Qed.

Lemma sextets_one (a : Z) :
  0 <= a < 256 ->
  0 <= a / 4 < 64 /\ 0 <= a mod 4 * 16 < 64 /\
  a / 4 * 4 + a mod 4 * 16 / 16 = a.
Proof. intros H. Z.div_mod_to_equations. lia. Qed.

Lemma sextets_two (a b : Z) :
  0 <= a < 256 -> 0 <= b < 256 ->
  0 <= a / 4 < 64 /\ 0 <= a mod 4 * 16 + b / 16 < 64 /\ 0 <= b mod 16 * 4 < 64 /\
  a / 4 * 4 + (a mod 4 * 16 + b / 16) / 16 = a /\
  (a mod 4 * 16 + b / 16) mod 16 * 16 + b mod 16 * 4 / 4 = b.
Proof. intros Ha Hb. Z.div_mod_to_equations. lia. Qed.

Lemma sextets_three (a b c : Z) :
  0 <= a < 256 -> 0 <= b < 256 -> 0 <= c < 256 ->
  0 <= a / 4 < 64 /\ 0 <= a mod 4 * 16 + b / 16 < 64 /\
  0 <= b mod 16 * 4 + c / 64 < 64 /\ 0 <= c mod 64 < 64 /\
  a / 4 * 4 + (a mod 4 * 16 + b / 16) / 16 = a /\
  (a mod 4 * 16 + b / 16) mod 16 * 16 + (b mod 16 * 4 + c / 64) / 4 = b /\
  (b mod 16 * 4 + c / 64) mod 4 * 64 + c mod 64 = c.
Proof. intros Ha Hb Hc. Z.div_mod_to_equations. lia. Qed.

(** [atob] undoes [btoa]. *)
Lemma atob_btoa (binary : string) :
  atob (btoa binary) = Some (List.map code (list_ascii_of_string binary)).
Proof.
  remember (String.length binary) as n eqn:Hn.
  revert binary Hn. induction n as [n IH] using lt_wf_ind. intros binary Hn.
  destruct binary as [|a [|b [|c rest]]].
  - reflexivity.
  - destruct (sextets_one (code a) (code_range a)) as (R0 & R1 & E).
    destruct (base64Char_sextet _ R0) as (S0 & _).
    destruct (base64Char_sextet _ R1) as (S1 & _).
    cbn [btoa atob]. rewrite S0, S1. cbn. rewrite E. reflexivity.
  - destruct (sextets_two (code a) (code b) (code_range a) (code_range b))
      as (R0 & R1 & R2 & Ea & Eb).
    destruct (base64Char_sextet _ R0) as (S0 & _).
    destruct (base64Char_sextet _ R1) as (S1 & _).
    destruct (base64Char_sextet _ R2) as (S2 & P2).
    cbn [btoa atob]. rewrite S0, S1, P2, S2. cbn. rewrite Ea, Eb. reflexivity.
  - destruct (sextets_three (code a) (code b) (code c)
                (code_range a) (code_range b) (code_range c))
      as (R0 & R1 & R2 & R3 & Ea & Eb & Ec).
    destruct (base64Char_sextet _ R0) as (S0 & _).
    destruct (base64Char_sextet _ R1) as (S1 & _).
    destruct (base64Char_sextet _ R2) as (S2 & P2).
    destruct (base64Char_sextet _ R3) as (S3 & P3).
    cbn [btoa atob]. rewrite S0, S1, P2, S2, P3, S3.
    rewrite (IH (String.length rest)) by (subst n; cbn; lia || reflexivity).
    cbn [list_ascii_of_string List.map]. rewrite Ea, Eb, Ec. reflexivity.
Qed.

Lemma list_ascii_of_string_snoc (s : string) (c : ascii) :
  list_ascii_of_string (s ++ String c EmptyString) = (list_ascii_of_string s ++ [c])%list.
Proof.
  induction s as [|a s IH]; [reflexivity|].
  change (list_ascii_of_string (String a (s ++ String c EmptyString))
          = (a :: list_ascii_of_string s ++ [c])%list).
  cbn [list_ascii_of_string]. rewrite IH. reflexivity.
Qed.

Lemma binaryString_chars (bytes : list Z) :
  list_ascii_of_string (binaryString bytes) = List.map fromCharCode bytes.
Proof.
  unfold binaryString.
  rewrite (for_range_fold_take 0
             (fun x binary => (binary ++ String (fromCharCode x) EmptyString)%string))
    by lia.
  rewrite firstn_all.
  assert (forall (l : list Z) (acc : string),
            list_ascii_of_string
              (fold_left (fun t x => (t ++ String (fromCharCode x) EmptyString)%string) l acc)
            = (list_ascii_of_string acc ++ List.map fromCharCode l)%list) as H.
  { induction l as [|x l IHl]; intros acc; cbn [fold_left List.map].
    - rewrite app_nil_r. reflexivity.
    - rewrite IHl, list_ascii_of_string_snoc, <- app_assoc. reflexivity. }
  apply (H bytes EmptyString).
Qed.

Lemma byteOf_isByte (v k : Z) : isByte (byteOf v k).
Proof. unfold isByte, byteOf. apply Z.mod_pos_bound. lia. Qed.

Lemma setUint8_bytes (view : list Z) (offset : nat) (value : Z) :
  Forall isByte view -> Forall isByte (setUint8 view offset value).
Proof.
  intros H. unfold setUint8. apply Forall_insert; [exact H|].
  apply (toUint_range 8). lia.
Qed.

Lemma setUint16_bytes (view : list Z) (offset : nat) (value : Z) :
  Forall isByte view -> Forall isByte (setUint16 view offset value).
Proof.
  intros H. unfold setUint16. cbv zeta.
  repeat apply Forall_insert; auto using byteOf_isByte.
Qed.

Lemma setUint32_bytes (view : list Z) (offset : nat) (value : Z) :
  Forall isByte view -> Forall isByte (setUint32 view offset value).
Proof.
  intros H. unfold setUint32. cbv zeta.
  repeat apply Forall_insert; auto using byteOf_isByte.
Qed.

Lemma writeString_bytes (view : list Z) (offset : nat) (s : string) :
  Forall isByte view -> Forall isByte (writeString view offset s).
Proof.
  intros H. unfold writeString.
  apply (for_range_invariant (fun _ v => Forall isByte v)); [lia|exact H|].
  intros i v _ Hv. apply setUint8_bytes. exact Hv.
Qed.

Lemma wavBytes_bytes (audioBuffer : AudioBuffer) : Forall isByte (wavBytes audioBuffer).
Proof.
  unfold wavBytes. cbv zeta. unfold writeSamples.
  match goal with |- context [for_range 0 ?hi ?body (?v, ?o)] =>
    assert (Forall isByte v) as Hheader end.
  { unfold writeHeader. cbv zeta.
    repeat first [apply setUint32_bytes | apply setUint16_bytes | apply writeString_bytes].
    apply Forall_forall. intros x Hx. apply elem_of_replicate in Hx.
    destruct Hx as (-> & _). unfold isByte. lia. }
  apply (for_range_invariant (fun _ st => Forall isByte (fst st)));
    [lia | exact Hheader |].
  intros i st _ Hst.
  apply (for_range_invariant (fun _ st => Forall isByte (fst st))); [lia | exact Hst |].
  intros channel st' _ Hst'. cbn [fst]. unfold setInt16. apply setUint16_bytes. exact Hst'.
Qed.

(** The text the encoder returns decodes to the bytes it wrote. *)
Lemma atob_audioBufferToWavBase64 (audioBuffer : AudioBuffer) :
  atob (audioBufferToWavBase64 audioBuffer) = Some (wavBytes audioBuffer).
Proof.
  unfold audioBufferToWavBase64. rewrite atob_btoa, binaryString_chars, List.map_map.
  f_equal. pose proof (wavBytes_bytes audioBuffer) as H.
  induction H as [|b l Hb _ IH]; cbn [List.map]; [reflexivity|].
  rewrite code_fromCharCode by exact Hb. rewrite IH. reflexivity.
Qed.

Local Close Scope Z_scope.

(** C6: a request for mp3 returns what a request for wav returns, the base64
    text of the wav bytes, and so does a request that names no format; the
    text decodes to those bytes, and for a buffer whose sizes fit the header
    fields they are a wav container announcing the buffer's channel count,
    sample rate, 16 bits per sample and data size. *)
Theorem C6_mp3_request_returns_the_wav_encoding (audioBuffer : AudioBuffer) :
  audioBufferToBase64 audioBuffer (Some mp3)
    = audioBufferToBase64 audioBuffer (Some wav) /\
  audioBufferToBase64 audioBuffer None
    = audioBufferToBase64 audioBuffer (Some wav) /\
  audioBufferToBase64 audioBuffer (Some mp3)
    = btoa (binaryString (wavBytes audioBuffer)) /\
  atob (audioBufferToBase64 audioBuffer (Some mp3)) = Some (wavBytes audioBuffer) /\
  (wf_buffer audioBuffer ->
   fitsWavHeader audioBuffer ->
   parseWav (wavBytes audioBuffer)
     = Some (mkWavInfo (Z.of_nat (numberOfChannels audioBuffer))
               (sampleRate audioBuffer) 16
               (Z.of_nat (bufferLength audioBuffer)
                * Z.of_nat (numberOfChannels audioBuffer) * 2))).
Proof.
  split; [reflexivity|]. split; [reflexivity|]. split; [reflexivity|].
  split; [apply atob_audioBufferToWavBase64 | apply parseWav_wavBytes].
Qed.

Lemma fitsWavHeader_stereo3 : fitsWavHeader stereo3.
Proof. unfold fitsWavHeader. simpl. lia. Qed.

Lemma C6_witness :
  wf_buffer stereo3 /\
  fitsWavHeader stereo3 /\
  audioBufferToBase64 stereo3 (Some mp3) = audioBufferToBase64 stereo3 (Some wav) /\
  audioBufferToBase64 stereo3 None = audioBufferToBase64 stereo3 (Some wav) /\
  audioBufferToBase64 stereo3 (Some mp3) = btoa (binaryString (wavBytes stereo3)) /\
  atob (audioBufferToBase64 stereo3 (Some mp3)) = Some (wavBytes stereo3) /\
  parseWav (wavBytes stereo3) = Some (mkWavInfo 2 44100 16 12).
Proof.
  destruct (C6_mp3_request_returns_the_wav_encoding stereo3)
    as (H1 & H2 & H3 & H4 & H5).
  split; [exact wf_stereo3|]. split; [exact fitsWavHeader_stereo3|].
  split; [exact H1|]. split; [exact H2|]. split; [exact H3|]. split; [exact H4|].
  exact (H5 wf_stereo3 fitsWavHeader_stereo3).
Defined.

(** The container of [stereo3], byte by byte, and its base64 text. *)
Example stereo3_wav :
  wavBytes stereo3
    = [82; 73; 70; 70; 48; 0; 0; 0; 87; 65; 86; 69; 102; 109; 116; 32;
       16; 0; 0; 0; 1; 0; 2; 0; 68; 172; 0; 0; 16; 177; 2; 0; 4; 0; 16; 0;
       100; 97; 116; 97; 12; 0; 0; 0;
       255; 127; 0; 0; 0; 0; 255; 127; 255; 63; 255; 63]%Z /\
  audioBufferToBase64 stereo3 (Some mp3)
    = "UklGRjAAAABXQVZFZm10IBAAAAABAAIARKwAABCxAgAEABAAZGF0YQwAAAD/fwAAAAD/f/8//z8="%string.
Proof. split; vm_compute; reflexivity. Qed.

(** ** The entry point *)

Lemma handleExtractVocals_busy (engine : bool) (s : ExtractionState) :
  isProcessing s = true -> handleExtractVocals engine s = (s, None).
Proof. intros H. unfold handleExtractVocals. rewrite H. reflexivity. Qed.

Lemma step_preserves_flag (m m' : Machine) :
  inFlightMatchesFlag m -> step m m' -> inFlightMatchesFlag m'.
Proof.
  unfold inFlightMatchesFlag. intros Hinv Hstep.
  destruct Hstep as [m | m o p Hpos | m Hpos | m f | m | m]; cbn.
  - unfold invoke, handleExtractVocals.
    destruct (isProcessing (extraction m)) eqn:E; cbn; [rewrite E; exact Hinv|].
    destruct (inputFile (extraction m)); cbn; [|rewrite E; exact Hinv].
    destruct (engineLoaded m); cbn; [lia | rewrite E; exact Hinv].
  - destruct (isProcessing (extraction m)); [|lia].
    destruct p; cbn; lia.
  - destruct (isProcessing (extraction m)); lia.
  - exact Hinv.
  - exact Hinv.
  - exact Hinv.
Qed.

Lemma reachable_flag (m : Machine) : reachable m -> inFlightMatchesFlag m.
Proof.
  induction 1 as [|m m' _ IH Hstep].
  - reflexivity.
  - exact (step_preserves_flag m m' IH Hstep).
Qed.

(** C8: invoked while [isProcessing] is true, the entry point returns the
    state it was given, field for field, and starts no read (hence no
    decode); nothing is queued, and over any sequence of events at most one
    run is in flight, exactly when the flag is set. *)
Theorem C8_busy_invocation_is_rejected :
  (forall (engine : bool) (s : ExtractionState),
     isProcessing s = true ->
     handleExtractVocals engine s = (s, None)) /\
  (forall m : Machine,
     reachable m ->
     (inFlight m <= 1)%nat /\
     (isProcessing (extraction m) = true <-> inFlight m = 1%nat) /\
     invoke (invoke m) = invoke m).
Proof.
  split; [exact handleExtractVocals_busy|].
  intros m Hm. pose proof (reachable_flag m Hm) as Hinv.
  unfold inFlightMatchesFlag in Hinv. split; [|split].
  - destruct (isProcessing (extraction m)); lia.
  - destruct (isProcessing (extraction m)); split; intros; try lia; congruence.
  - unfold invoke, handleExtractVocals.
    destruct (isProcessing (extraction m)) eqn:E; cbn; [rewrite E; cbn; reflexivity|].
    destruct (inputFile (extraction m)) eqn:F; cbn; [|rewrite E, F; reflexivity].
    destruct (engineLoaded m); cbn; [reflexivity | rewrite E, F; reflexivity].
Qed.

Lemma reachable_pressedTwice : reachable pressedTwice.
Proof.
  unfold pressedTwice.
  apply reachable_step with (m := invoke (mkMachine true
          (setInputFile (extraction initialMachine) (Some song)) 0));
    [|apply step_invoke].
  apply reachable_step with (m := mkMachine true
          (setInputFile (extraction initialMachine) (Some song)) 0);
    [|apply step_invoke].
  apply reachable_step with (m := mkMachine false
          (setInputFile (extraction initialMachine) (Some song)) 0);
    [|apply (step_engine_ready (mkMachine false _ 0))].
  apply reachable_step with (m := initialMachine);
    [apply reachable_initial | apply (step_file_change initialMachine (Some song))].
Qed.

Lemma C8_witness :
  isProcessing busyState = true /\
  reachable pressedTwice /\
  handleExtractVocals true busyState = (busyState, None) /\
  (inFlight pressedTwice <= 1)%nat /\
  (isProcessing (extraction pressedTwice) = true <-> inFlight pressedTwice = 1%nat) /\
  invoke (invoke pressedTwice) = invoke pressedTwice.
Proof.
  destruct C8_busy_invocation_is_rejected as (Hbusy & Hone).
  split; [reflexivity|]. split; [exact reachable_pressedTwice|]. split.
  - apply (Hbusy true busyState). reflexivity.
  - apply (Hone pressedTwice). exact reachable_pressedTwice.
Defined.

(** The second press found the run of the first in progress. *)
Example pressedTwice_state :
  pressedTwice = mkMachine true (mkState (Some song) true 0 None None) 1.
Proof. reflexivity. Qed.

(** C9 as stated fails: with no file chosen the request is rejected but the
    state is not as it was, the [error] field now holds a message. *)
Lemma C9_counterexample :
  ~ (forall (engine : bool) (s : ExtractionState),
       isProcessing s = true \/ inputFile s = None \/ engine = false ->
       handleExtractVocals engine s = (s, None)).
Proof.
  intros H.
  specialize (H true (mkState None false 0 None None) ltac:(right; left; reflexivity)).
  discriminate H.
Qed.

(** C9, amended: when a run is in progress, or no file is chosen, or the
    engine is not loaded, the request starts nothing and leaves [inputFile],
    [isProcessing], [progress] and [result] as they were; [error] is left as
    it was when a run is in progress, and is otherwise set to the message
    that tells the user what is missing. *)
Theorem C9_rejected_request_only_sets_error (engine : bool) (s : ExtractionState) :
  isProcessing s = true \/ inputFile s = None \/ engine = false ->
  let s' := fst (handleExtractVocals engine s) in
  snd (handleExtractVocals engine s) = None /\
  inputFile s' = inputFile s /\
  isProcessing s' = isProcessing s /\
  progress s' = progress s /\
  result s' = result s /\
  (isProcessing s = true -> s' = s) /\
  (isProcessing s = false -> inputFile s = None ->
   error s' = Some "Please select an audio file"%string) /\
  (isProcessing s = false -> inputFile s <> None -> engine = false ->
   error s'
     = Some "Audio processing engine is not ready yet. Please wait a moment."%string).
Proof.
  intros Hreject. cbv zeta. unfold handleExtractVocals.
  destruct (isProcessing s) eqn:E.
  { cbn. repeat split; auto; intros; congruence. }
  destruct (inputFile s) as [file|] eqn:F.
  2: { cbn. repeat split; auto; intros; congruence. }
  destruct engine.
  { exfalso. destruct Hreject as [H|[H|H]]; congruence. }
  cbn. repeat split; auto; intros; congruence.
Qed.

Lemma C9_witness :
  let s := mkState (Some song) false 0 None None in
  let s' := fst (handleExtractVocals false s) in
  (isProcessing s = true \/ inputFile s = None \/ false = false) /\
  snd (handleExtractVocals false s) = None /\
  inputFile s' = inputFile s /\
  isProcessing s' = isProcessing s /\
  progress s' = progress s /\
  result s' = result s /\
  (isProcessing s = true -> s' = s) /\
  (isProcessing s = false -> inputFile s = None ->
   error s' = Some "Please select an audio file"%string) /\
  (isProcessing s = false -> inputFile s <> None -> false = false ->
   error s'
     = Some "Audio processing engine is not ready yet. Please wait a moment."%string).
Proof.
  cbv zeta. split; [right; right; reflexivity|].
  apply (C9_rejected_request_only_sets_error false (mkState (Some song) false 0 None None)).
  right. right. reflexivity.
Defined.

(** The three rejections, computed. *)
Example rejections :
  handleExtractVocals true busyState = (busyState, None) /\
  handleExtractVocals true (mkState None false 0 None None)
    = (mkState None false 0 (Some "Please select an audio file"%string) None, None) /\
  handleExtractVocals false (mkState (Some song) false 0 None None)
    = (mkState (Some song) false 0
         (Some "Audio processing engine is not ready yet. Please wait a moment."%string)
         None, None) /\
  handleExtractVocals true (mkState (Some song) false 0 (Some "old"%string) None)
    = (mkState (Some song) true 0 None None, Some song).
Proof. repeat split. Qed.

(** * Further properties of the pipeline *)

(** ** The buffers [extractVocals] returns *)

Lemma wf_setChannelData (b : AudioBuffer) (c : nat) (d : list Q) :
  wf_buffer b -> List.length d = bufferLength b -> wf_buffer (setChannelData b c d).
Proof.
  intros (Hn & Hch & Hall) Hd. unfold wf_buffer, setChannelData.
  cbn [numberOfChannels bufferLength channels].
  split; [exact Hn|]. split; [rewrite length_insert; exact Hch|].
  apply Forall_insert; assumption.
Qed.

(** The enhancement writes inside the four arrays, whatever the backend
    hands back. *)
Lemma enhance_lengths (tf : option TensorBackend) (length : nat) (s : Stems) :
  let s' := enhance tf length s in
  List.length (vocalsLeft s') = List.length (vocalsLeft s) /\
  List.length (vocalsRight s') = List.length (vocalsRight s) /\
  List.length (accompanimentLeft s') = List.length (accompanimentLeft s) /\
  List.length (accompanimentRight s') = List.length (accompanimentRight s).
Proof.
  cbv zeta. destruct tf as [backend|]; cbn [enhance]; [|auto].
  destruct (enhanceTry backend length s) as [s'|] eqn:E; [|auto].
  unfold enhanceTry in E.
  repeat match type of E with
  | (mbind _ ?m = Some _) => destruct m; cbn [mbind option_bind] in E; [|discriminate]
  end.
  injection E as <-.
  apply (for_range_invariant (fun _ o =>
    List.length (vocalsLeft o) = List.length (vocalsLeft s) /\
    List.length (vocalsRight o) = List.length (vocalsRight s) /\
    List.length (accompanimentLeft o) = List.length (accompanimentLeft s) /\
    List.length (accompanimentRight o) = List.length (accompanimentRight s)));
    [lia|auto|].
  intros i o _ (H1 & H2 & H3 & H4).
  cbn [vocalsLeft vocalsRight accompanimentLeft accompanimentRight].
  rewrite !length_insert. auto.
Qed.

(** The buffers as the normalization loop finds them: of the input's shape,
    for every backend and every well-formed input, mono or not. *)
Lemma separate_wf (tf : option TensorBackend) (audioBuffer : AudioBuffer) :
  wf_buffer audioBuffer ->
  exists vb ab,
    separate tf audioBuffer = Some (vb, ab) /\
    wf_buffer vb /\ wf_buffer ab /\
    numberOfChannels vb = numberOfChannels audioBuffer /\
    numberOfChannels ab = numberOfChannels audioBuffer /\
    bufferLength vb = bufferLength audioBuffer /\
    bufferLength ab = bufferLength audioBuffer /\
    sampleRate vb = sampleRate audioBuffer /\
    sampleRate ab = sampleRate audioBuffer.
Proof.
  intros Hwf. pose proof Hwf as (Hn & _ & _).
  destruct (le_lt_dec 2 (numberOfChannels audioBuffer)) as [Hst|Hmono].
  - rewrite separate_stereo by exact Hst. cbv zeta.
    eexists _, _. split; [reflexivity|].
    destruct (separateStereo_spec audioBuffer Hst) as (L1 & L2 & L3 & L4 & _).
    cbv zeta in L1, L2, L3, L4.
    match goal with |- context [enhance tf ?l ?s] =>
      destruct (enhance_lengths tf l s) as (E1 & E2 & E3 & E4);
      cbv zeta in E1, E2, E3, E4 end.
    unfold storeStems.
    repeat split; try reflexivity.
    all: repeat apply wf_setChannelData; try (apply wf_createBuffer; exact Hn).
    all: cbn [bufferLength setChannelData createBuffer]; congruence.
  - assert (numberOfChannels audioBuffer = 1%nat) as H1 by lia.
    rewrite separate_mono by exact H1.
    destruct (separateMono_spec audioBuffer Hwf) as (r & Hr & R1 & R2 & _).
    cbv zeta in Hr, R1, R2. rewrite H1 in Hr. rewrite Hr. cbn [mbind option_bind].
    eexists _, _. split; [reflexivity|].
    repeat split; try (cbn; congruence).
    all: apply wf_setChannelData; [apply wf_createBuffer; lia | exact R1 || exact R2].
Qed.

(** What [extractVocals] returns: each channel of the separated buffers,
    normalized on its own. *)
Lemma extractVocals_normalized (tf : option TensorBackend) (audioBuffer : AudioBuffer) :
  wf_buffer audioBuffer ->
  exists vb ab,
    separate tf audioBuffer = Some (vb, ab) /\
    wf_buffer vb /\ wf_buffer ab /\
    numberOfChannels vb = numberOfChannels audioBuffer /\
    numberOfChannels ab = numberOfChannels audioBuffer /\
    bufferLength vb = bufferLength audioBuffer /\
    bufferLength ab = bufferLength audioBuffer /\
    extractVocals tf audioBuffer
      = Some (mkAudioBuffer (numberOfChannels audioBuffer) (bufferLength audioBuffer)
                (sampleRate audioBuffer)
                (List.map (fun d => normalizeChannel (List.length d) d) (channels vb)),
              mkAudioBuffer (numberOfChannels audioBuffer) (bufferLength audioBuffer)
                (sampleRate audioBuffer)
                (List.map (fun d => normalizeChannel (List.length d) d) (channels ab))).
Proof.
  intros Hwf.
  destruct (separate_wf tf audioBuffer Hwf)
    as (vb & ab & Hsep & Wv & Wa & Nv & Na & Lv & La & Rv & Ra).
  exists vb, ab. repeat (split; [assumption|]).
  unfold extractVocals. rewrite Hsep. cbn [mbind option_bind].
  rewrite <- Nv at 1. rewrite <- Lv at 1.
  rewrite normalize_wf by congruence.
  rewrite Nv, Na, Lv, La, Rv, Ra. reflexivity.
Qed.

Lemma getChannelData_normalized (n len : nat) (rate : Z) (chans : list (list Q))
    (c : nat) (d : list Q) :
  chans !! c = Some d ->
  getChannelData
    (mkAudioBuffer n len rate
       (List.map (fun d => normalizeChannel (List.length d) d) chans)) c
    = normalizeChannel (List.length d) d.
Proof.
  intros Hd. unfold getChannelData. cbn [channels].
  rewrite list_lookup_fmap, Hd. reflexivity.
Qed.

(** Channel by channel: what is returned is the separated channel, run
    through the normalizer. *)
Lemma extractVocals_channels (tf : option TensorBackend) (audioBuffer : AudioBuffer) :
  wf_buffer audioBuffer ->
  exists vb ab vocals accompaniment,
    separate tf audioBuffer = Some (vb, ab) /\
    extractVocals tf audioBuffer = Some (vocals, accompaniment) /\
    wf_buffer vocals /\ wf_buffer accompaniment /\
    numberOfChannels vocals = numberOfChannels audioBuffer /\
    numberOfChannels accompaniment = numberOfChannels audioBuffer /\
    bufferLength vocals = bufferLength audioBuffer /\
    bufferLength accompaniment = bufferLength audioBuffer /\
    sampleRate vocals = sampleRate audioBuffer /\
    sampleRate accompaniment = sampleRate audioBuffer /\
    forall channel, (channel < numberOfChannels audioBuffer)%nat ->
      List.length (getChannelData vb channel) = bufferLength audioBuffer /\
      List.length (getChannelData ab channel) = bufferLength audioBuffer /\
      getChannelData vocals channel
        = normalizeChannel (bufferLength audioBuffer) (getChannelData vb channel) /\
      getChannelData accompaniment channel
        = normalizeChannel (bufferLength audioBuffer) (getChannelData ab channel).
Proof.
  intros Hwf.
  destruct (extractVocals_normalized tf audioBuffer Hwf)
    as (vb & ab & Hsep & Wv & Wa & Nv & Na & Lv & La & Hrun).
  eexists vb, ab, _, _. split; [exact Hsep|]. split; [exact Hrun|].
  pose proof (wf_normalized vb Wv) as Wv'. pose proof (wf_normalized ab Wa) as Wa'.
  unfold wf_buffer in Wv', Wa' |- *.
  cbn [numberOfChannels bufferLength sampleRate channels] in Wv', Wa' |- *.
  rewrite Nv, Lv in Wv'. rewrite Na, La in Wa'.
  split; [exact Wv'|]. split; [exact Wa'|].
  repeat (split; [reflexivity|]).
  intros channel Hc.
  pose proof Wv as (_ & Cv & _). pose proof Wa as (_ & Ca & _).
  destruct (lookup_lt_is_Some_2 (channels vb) channel ltac:(lia)) as (dv & Hdv).
  destruct (lookup_lt_is_Some_2 (channels ab) channel ltac:(lia)) as (da & Hda).
  rewrite (getChannelData_normalized _ _ _ _ _ _ Hdv).
  rewrite (getChannelData_normalized _ _ _ _ _ _ Hda).
  unfold getChannelData. rewrite Hdv, Hda. cbn [default from_option id].
  rewrite (wf_channel_length vb channel dv Wv Hdv), Lv.
  rewrite (wf_channel_length ab channel da Wa Hda), La.
  auto.
Qed.

(** X1: for every well-formed input and every backend, [extractVocals]
    returns, and the two buffers it returns are well formed and have the
    input's channel count, length and sample rate. *)
Theorem extractVocals_keeps_shape (tf : option TensorBackend) (audioBuffer : AudioBuffer) :
  wf_buffer audioBuffer ->
  exists vocals accompaniment,
    extractVocals tf audioBuffer = Some (vocals, accompaniment) /\
    wf_buffer vocals /\ wf_buffer accompaniment /\
    numberOfChannels vocals = numberOfChannels audioBuffer /\
    numberOfChannels accompaniment = numberOfChannels audioBuffer /\
    bufferLength vocals = bufferLength audioBuffer /\
    bufferLength accompaniment = bufferLength audioBuffer /\
    sampleRate vocals = sampleRate audioBuffer /\
    sampleRate accompaniment = sampleRate audioBuffer.
Proof.
  intros Hwf.
  destruct (extractVocals_channels tf audioBuffer Hwf)
    as (vb & ab & v & a & _ & Hrun & Wv & Wa & Nv & Na & Lv & La & Rv & Ra & _).
  exists v, a. repeat (split; [assumption|]). assumption.
Qed.

Lemma wf_surround3 : wf_buffer surround3.
Proof. unfold wf_buffer. simpl. repeat split; [lia|]. repeat constructor. Qed.

Lemma extractVocals_keeps_shape_witness :
  wf_buffer surround3 /\
  exists vocals accompaniment,
    extractVocals (Some unreadableBackend) surround3 = Some (vocals, accompaniment) /\
    wf_buffer vocals /\ wf_buffer accompaniment /\
    numberOfChannels vocals = 3%nat /\ numberOfChannels accompaniment = 3%nat /\
    bufferLength vocals = 2%nat /\ bufferLength accompaniment = 2%nat /\
    sampleRate vocals = 48000%Z /\ sampleRate accompaniment = 48000%Z.
Proof.
  split; [exact wf_surround3|].
  exact (extractVocals_keeps_shape (Some unreadableBackend) surround3 wf_surround3).
Defined.

Lemma Qabs_rd_le_peak (d : list Q) (i : nat) : Qabs (rd d i) <= peak d.
Proof.
  destruct (peak_spec d) as (H0 & Hub & _). unfold rd.
  destruct (d !! i) as [x|] eqn:E; cbn [default from_option id].
  - apply Hub. apply list_elem_of_In, list_elem_of_lookup. exists i. exact E.
  - exact H0.
Qed.

(** X2: no output sample clips.  For every well-formed input and every
    backend, whatever the backend returns, every channel of both returned
    buffers has a peak of at most 0.9, so every sample lies in
    [[-0.9, 0.9]]. *)
Theorem extractVocals_never_clips (tf : option TensorBackend) (audioBuffer : AudioBuffer) :
  wf_buffer audioBuffer ->
  exists vocals accompaniment,
    extractVocals tf audioBuffer = Some (vocals, accompaniment) /\
    forall channel, (channel < numberOfChannels audioBuffer)%nat ->
      peak (getChannelData vocals channel) <= 9 # 10 /\
      peak (getChannelData accompaniment channel) <= 9 # 10 /\
      forall i, (i < bufferLength audioBuffer)%nat ->
        - (9 # 10) <= rd (getChannelData vocals channel) i <= 9 # 10 /\
        - (9 # 10) <= rd (getChannelData accompaniment channel) i <= 9 # 10.
Proof.
  intros Hwf.
  destruct (extractVocals_channels tf audioBuffer Hwf)
    as (vb & ab & v & a & _ & Hrun & _ & _ & _ & _ & _ & _ & _ & _ & Hch).
  exists v, a. split; [exact Hrun|]. intros channel Hc.
  destruct (Hch channel Hc) as (Lv & La & Ev & Ea).
  assert (peak (getChannelData v channel) <= 9 # 10) as Pv.
  { rewrite Ev, <- Lv. apply normalizeChannel_peak. }
  assert (peak (getChannelData a channel) <= 9 # 10) as Pa.
  { rewrite Ea, <- La. apply normalizeChannel_peak. }
  split; [exact Pv|]. split; [exact Pa|]. intros i _.
  split; apply Qabs_Qle_condition.
  - apply Qle_trans with (peak (getChannelData v channel)); [apply Qabs_rd_le_peak|exact Pv].
  - apply Qle_trans with (peak (getChannelData a channel)); [apply Qabs_rd_le_peak|exact Pa].
Qed.

Lemma extractVocals_never_clips_witness :
  wf_buffer clipping2x3 /\
  exists vocals accompaniment,
    extractVocals None clipping2x3 = Some (vocals, accompaniment) /\
    forall channel, (channel < 2)%nat ->
      peak (getChannelData vocals channel) <= 9 # 10 /\
      peak (getChannelData accompaniment channel) <= 9 # 10 /\
      forall i, (i < 3)%nat ->
        - (9 # 10) <= rd (getChannelData vocals channel) i <= 9 # 10 /\
        - (9 # 10) <= rd (getChannelData accompaniment channel) i <= 9 # 10.
Proof.
  split; [exact wf_clipping2x3|].
  exact (extractVocals_never_clips None clipping2x3 wf_clipping2x3).
Defined.

(** ** Inputs of more than two channels *)

Lemma storeStems_other_channels (n len c : nat) (rate : Z) (s : Stems) :
  (2 <= c < n)%nat ->
  let bufs := storeStems (createBuffer n len rate) (createBuffer n len rate) s in
  getChannelData (fst bufs) c = newFloat32Array len /\
  getChannelData (snd bufs) c = newFloat32Array len.
Proof.
  intros Hc. cbv zeta. unfold storeStems. cbn [fst snd].
  rewrite !getChannelData_set_ne by lia.
  rewrite createBuffer_channel by lia. auto.
Qed.

(** X3: the pipeline reads the first two channels of an input and nothing
    else.  Two inputs of the same shape that agree on channels 0 and 1 are
    separated alike, and in the buffers returned every channel beyond the
    second is silent, whatever the input holds there. *)
Theorem extractVocals_uses_two_channels
    (tf : option TensorBackend) (audioBuffer other : AudioBuffer) :
  wf_buffer audioBuffer ->
  (2 <= numberOfChannels audioBuffer)%nat ->
  numberOfChannels other = numberOfChannels audioBuffer ->
  bufferLength other = bufferLength audioBuffer ->
  sampleRate other = sampleRate audioBuffer ->
  getChannelData other 0 = getChannelData audioBuffer 0 ->
  getChannelData other 1 = getChannelData audioBuffer 1 ->
  extractVocals tf other = extractVocals tf audioBuffer /\
  exists vocals accompaniment,
    extractVocals tf audioBuffer = Some (vocals, accompaniment) /\
    forall channel, (2 <= channel < numberOfChannels audioBuffer)%nat ->
      getChannelData vocals channel = newFloat32Array (bufferLength audioBuffer) /\
      getChannelData accompaniment channel = newFloat32Array (bufferLength audioBuffer).
Proof.
  intros Hwf Hst Hn HL Hr H0 H1. split.
  - unfold extractVocals, separate, separateStereo, separateMono.
    rewrite Hn, HL, Hr, H0, H1. reflexivity.
  - destruct (extractVocals_channels tf audioBuffer Hwf)
      as (vb & ab & v & a & Hsep & Hrun & _ & _ & _ & _ & _ & _ & _ & _ & Hch).
    exists v, a. split; [exact Hrun|]. intros channel Hc.
    destruct (Hch channel ltac:(lia)) as (_ & _ & Ev & Ea).
    rewrite separate_stereo in Hsep by exact Hst. cbv zeta in Hsep.
    match type of Hsep with Some (storeStems ?b1 ?b2 ?s) = _ =>
      assert (storeStems b1 b2 s = (vb, ab)) as Hbufs by congruence;
      destruct (storeStems_other_channels (numberOfChannels audioBuffer)
                  (bufferLength audioBuffer) channel (sampleRate audioBuffer) s Hc)
        as (Zv & Za) end.
    cbv zeta in Zv, Za. rewrite Hbufs in Zv, Za. cbn [fst snd] in Zv, Za.
    pose proof (normalizeChannel_zeros (bufferLength audioBuffer)) as Hz.
    rewrite length_zeros in Hz. rewrite Ev, Ea, Zv, Za, Hz. auto.
Qed.

Lemma extractVocals_uses_two_channels_witness :
  wf_buffer surround3 /\
  (2 <= numberOfChannels surround3)%nat /\
  numberOfChannels surround3quiet = numberOfChannels surround3 /\
  bufferLength surround3quiet = bufferLength surround3 /\
  sampleRate surround3quiet = sampleRate surround3 /\
  getChannelData surround3quiet 0 = getChannelData surround3 0 /\
  getChannelData surround3quiet 1 = getChannelData surround3 1 /\
  extractVocals None surround3quiet = extractVocals None surround3 /\
  exists vocals accompaniment,
    extractVocals None surround3 = Some (vocals, accompaniment) /\
    forall channel, (2 <= channel < 3)%nat ->
      getChannelData vocals channel = [0; 0] /\
      getChannelData accompaniment channel = [0; 0].
Proof.
  assert (2 <= numberOfChannels surround3)%nat as Hn by (simpl; lia).
  split; [exact wf_surround3|]. split; [exact Hn|].
  do 5 (split; [reflexivity|]).
  exact (extractVocals_uses_two_channels None surround3 surround3quiet
           wf_surround3 Hn eq_refl eq_refl eq_refl eq_refl eq_refl).
Defined.

(** ** What the stereo branch makes of the two channels *)

Lemma rd_map (f : Q -> Q) (d : list Q) (i : nat) :
  (i < List.length d)%nat -> rd (List.map f d) i = f (rd d i).
Proof.
  intros H. unfold rd. rewrite list_lookup_fmap.
  destruct (lookup_lt_is_Some_2 d i H) as (x & ->). reflexivity.
Qed.

(** A stereo run without the enhancement, channel by channel: the smoothed
    center and side signals, normalized. *)
Lemma extractVocals_basic_stereo (audioBuffer : AudioBuffer) :
  wf_buffer audioBuffer ->
  (2 <= numberOfChannels audioBuffer)%nat ->
  let length := bufferLength audioBuffer in
  let left := getChannelData audioBuffer 0 in
  let right := getChannelData audioBuffer 1 in
  exists vocals accompaniment vl vr al ar,
    extractVocals None audioBuffer = Some (vocals, accompaniment) /\
    (List.length vl = length /\ List.length vr = length /\
     List.length al = length /\ List.length ar = length) /\
    (forall i, (i < length)%nat ->
       rd vl i = smoothed (center left right) i /\
       rd vr i = smoothed (center left right) i /\
       rd al i = smoothed (sideLeft left right) i /\
       rd ar i = smoothed (sideRight left right) i) /\
    getChannelData vocals 0 = normalizeChannel length vl /\
    getChannelData vocals 1 = normalizeChannel length vr /\
    getChannelData accompaniment 0 = normalizeChannel length al /\
    getChannelData accompaniment 1 = normalizeChannel length ar.
Proof.
  intros Hwf Hst. cbv zeta.
  destruct (extractVocals_channels None audioBuffer Hwf)
    as (vb & ab & v & a & Hsep & Hrun & _ & _ & _ & _ & _ & _ & _ & _ & Hch).
  rewrite separate_stereo in Hsep by exact Hst. cbv zeta in Hsep.
  cbn [enhance] in Hsep.
  destruct (separateStereo_spec audioBuffer Hst) as (L1 & L2 & L3 & L4 & Hrd).
  cbv zeta in L1, L2, L3, L4, Hrd.
  match type of Hsep with Some (storeStems ?b1 ?b2 ?s) = _ =>
    assert (storeStems b1 b2 s = (vb, ab)) as Hbufs by congruence;
    destruct (storeStems_channels (numberOfChannels audioBuffer)
                (bufferLength audioBuffer) (sampleRate audioBuffer) s Hst)
      as (E1 & E2 & E3 & E4);
    exists v, a, (vocalsLeft s), (vocalsRight s),
           (accompanimentLeft s), (accompanimentRight s)
  end.
  cbv zeta in E1, E2, E3, E4. rewrite Hbufs in E1, E2, E3, E4.
  cbn [fst snd] in E1, E2, E3, E4.
  split; [exact Hrun|]. split; [auto|]. split; [exact Hrd|].
  destruct (Hch 0%nat ltac:(lia)) as (_ & _ & Ev0 & Ea0).
  destruct (Hch 1%nat ltac:(lia)) as (_ & _ & Ev1 & Ea1).
  rewrite Ev0, Ev1, Ea0, Ea1, E1, E2, E3, E4. auto.
Qed.

Lemma normalizeChannel_all_zero (d : list Q) (n : nat) :
  List.length d = n ->
  (forall i, (i < n)%nat -> rd d i == 0) ->
  forall i, (i < n)%nat -> rd (normalizeChannel n d) i == 0.
Proof.
  intros Hd H i Hi. rewrite <- Hd at 1.
  rewrite normalizeChannel_silent; [apply H; exact Hi|].
  apply peak_zero. apply (all_of_rd d n (fun x => x == 0) Hd). exact H.
Qed.

(** X5: without the enhancement, a stereo input whose two channels hold the
    same signal comes back with a silent accompaniment, and one whose right
    channel is the inverted left channel comes back with silent vocals. *)
Theorem stereo_centered_or_inverted_input (audioBuffer : AudioBuffer) :
  wf_buffer audioBuffer ->
  (2 <= numberOfChannels audioBuffer)%nat ->
  exists vocals accompaniment,
    extractVocals None audioBuffer = Some (vocals, accompaniment) /\
    (getChannelData audioBuffer 1 = getChannelData audioBuffer 0 ->
     forall i, (i < bufferLength audioBuffer)%nat ->
       rd (getChannelData accompaniment 0) i == 0 /\
       rd (getChannelData accompaniment 1) i == 0) /\
    (getChannelData audioBuffer 1 = List.map Qopp (getChannelData audioBuffer 0) ->
     forall i, (i < bufferLength audioBuffer)%nat ->
       rd (getChannelData vocals 0) i == 0 /\
       rd (getChannelData vocals 1) i == 0).
Proof.
  intros Hwf Hst.
  destruct (extractVocals_basic_stereo audioBuffer Hwf Hst)
    as (v & a & vl & vr & al & ar & Hrun & (L1 & L2 & L3 & L4) & Hrd
        & E1 & E2 & E3 & E4).
  cbv zeta in *. exists v, a. split; [exact Hrun|]. split.
  - intros Hsame i Hi. rewrite E3, E4.
    split; apply normalizeChannel_all_zero; try assumption.
    all: intros k Hk; destruct (Hrd k Hk) as (_ & _ & R3 & R4).
    all: rewrite ?R3, ?R4; apply smoothed_zero; intros j _.
    all: unfold sideLeft, sideRight, center; rewrite Hsame; field.
  - intros Hinv i Hi. rewrite E1, E2.
    assert (List.length (getChannelData audioBuffer 0) = bufferLength audioBuffer)
      as Hlen.
    { pose proof Hwf as (_ & Hc & _).
      destruct (lookup_lt_is_Some_2 (channels audioBuffer) 0 ltac:(lia)) as (d & Hd).
      unfold getChannelData. rewrite Hd. cbn [default from_option id].
      exact (wf_channel_length audioBuffer 0 d Hwf Hd). }
    assert (forall k, (k < bufferLength audioBuffer)%nat ->
              smoothed (center (getChannelData audioBuffer 0)
                               (getChannelData audioBuffer 1)) k == 0) as Hz.
    { intros k Hk. apply smoothed_zero. intros j Hj. unfold center.
      rewrite Hinv, rd_map by lia. field. }
    split; apply normalizeChannel_all_zero; try assumption.
    all: intros k Hk; destruct (Hrd k Hk) as (R1 & R2 & _).
    all: rewrite ?R1, ?R2; apply Hz; exact Hk.
Qed.

Lemma wf_dualMono : wf_buffer dualMono.
Proof. unfold wf_buffer. simpl. repeat split; [lia|]. repeat constructor. Qed.

Lemma stereo_centered_or_inverted_input_witness :
  wf_buffer dualMono /\
  (2 <= numberOfChannels dualMono)%nat /\
  exists vocals accompaniment,
    extractVocals None dualMono = Some (vocals, accompaniment) /\
    (getChannelData dualMono 1 = getChannelData dualMono 0 ->
     forall i, (i < 3)%nat ->
       rd (getChannelData accompaniment 0) i == 0 /\
       rd (getChannelData accompaniment 1) i == 0) /\
    (getChannelData dualMono 1 = List.map Qopp (getChannelData dualMono 0) ->
     forall i, (i < 3)%nat ->
       rd (getChannelData vocals 0) i == 0 /\
       rd (getChannelData vocals 1) i == 0).
Proof.
  assert (2 <= numberOfChannels dualMono)%nat as Hn by (simpl; lia).
  split; [exact wf_dualMono|]. split; [exact Hn|].
  exact (stereo_centered_or_inverted_input dualMono wf_dualMono Hn).
Defined.

(** The two cases, computed: [dualMono] keeps its signal in the vocals and
    [antiPhase] in the accompaniment. *)
Example centered_and_inverted_runs :
  (exists vocals accompaniment,
     extractVocals None dualMono = Some (vocals, accompaniment) /\
     Forall2 Qeq (getChannelData vocals 0) [9 # 10; 99 # 200; 207 # 500] /\
     Forall2 Qeq (getChannelData accompaniment 0) [0; 0; 0]) /\
  (exists vocals accompaniment,
     extractVocals None antiPhase = Some (vocals, accompaniment) /\
     Forall2 Qeq (getChannelData vocals 0) [0; 0; 0] /\
     Forall2 Qeq (getChannelData accompaniment 0) [9 # 10; 99 # 200; 207 # 500] /\
     Forall2 Qeq (getChannelData accompaniment 1) [-9 # 10; -99 # 200; -207 # 500]).
Proof.
  split; eexists _, _; (split; [vm_compute; reflexivity|]).
  all: vm_compute; repeat split; repeat constructor.
Qed.

(** ** What the mono branch makes of the samples *)

Lemma overlapAdd_factor (weight : nat -> Q) (input : list Q) (starts : list nat)
    (k : nat) :
  overlapAdd weight input starts k == rd input k * coverGain weight starts k.
Proof.
  unfold overlapAdd, coverGain.
  assert (forall a b, a == rd input k * b ->
    fold_left
      (fun acc s =>
         if (s <=? k)%nat && (k <? s + 1024)%nat
         then acc + rd input k * weight (k - s)%nat else acc) starts a
    == rd input k *
       fold_left
         (fun acc s =>
            if (s <=? k)%nat && (k <? s + 1024)%nat
            then acc + weight (k - s)%nat else acc) starts b) as H.
  { induction starts as [|s starts IH]; intros a b Hab; cbn [fold_left].
    - exact Hab.
    - destruct ((s <=? k)%nat && (k <? s + 1024)%nat); apply IH.
      + rewrite Hab. ring.
      + exact Hab. }
  apply H. ring.
Qed.

Lemma coverGain_bounds (weight : nat -> Q) (starts : list nat) (k : nat) :
  (forall s, In s starts -> (s <= k < s + 1024)%nat ->
     0 <= weight (k - s)%nat <= 1) ->
  0 <= coverGain weight starts k
    <= inject_Z (Z.of_nat (List.length (covering starts k))).
Proof.
  unfold coverGain, covering. intros Hw.
  assert (forall a,
    a <= fold_left
           (fun acc s =>
              if (s <=? k)%nat && (k <? s + 1024)%nat
              then acc + weight (k - s)%nat else acc) starts a
      <= a + inject_Z (Z.of_nat (List.length
             (List.filter (fun s => (s <=? k)%nat && (k <? s + 1024)%nat) starts))))
    as H.
  { induction starts as [|s starts IH]; intros a; cbn [fold_left List.filter].
    - cbn [List.length]. change (inject_Z (Z.of_nat 0)) with 0.
      rewrite Qplus_0_r. split; apply Qle_refl.
    - specialize (IH ltac:(intros s' Hs'; apply Hw; right; exact Hs')).
      destruct ((s <=? k)%nat && (k <? s + 1024)%nat) eqn:C.
      + apply andb_prop in C. destruct C as (C1 & C2).
        apply Nat.leb_le in C1. apply Nat.ltb_lt in C2.
        destruct (Hw s ltac:(left; reflexivity) ltac:(lia)) as (W0 & W1).
        destruct (IH (a + weight (k - s)%nat)) as (I1 & I2). split.
        * apply Qle_trans with (a + weight (k - s)%nat); [|exact I1].
          rewrite <- (Qplus_0_r a) at 1. apply Qplus_le_r. exact W0.
        * apply (Qle_trans _ _ _ I2). cbn [List.length].
          rewrite Nat2Z.inj_succ, <- Z.add_1_r, inject_Z_plus.
          rewrite <- Qplus_assoc. apply Qplus_le_r.
          rewrite (Qplus_comm (inject_Z _)). apply Qplus_le_l. exact W1.
      + apply IH. }
  specialize (H 0). rewrite Qplus_0_l in H. exact H.
Qed.

(** At most four of the processed windows cover a position. *)
Lemma covering_processedStarts (length k : nat) :
  (List.length (covering (processedStarts length) k) <= 4)%nat.
Proof.
  change 4%nat
    with (List.length (List.map (fun m => (m * 256)%nat) (seq (k / 256 - 3) 4))).
  apply List.NoDup_incl_length.
  - apply List.NoDup_filter, processedStarts_NoDup.
  - intros s Hs. unfold covering in Hs. apply filter_In in Hs.
    destruct Hs as (Hs & C). apply andb_prop in C. destruct C as (C1 & C2).
    apply Nat.leb_le in C1. apply Nat.ltb_lt in C2.
    apply processedStarts_In in Hs. destruct Hs as ((m & ->) & _).
    apply in_map_iff. exists m. split; [reflexivity|]. apply in_seq.
    assert (m <= k / 256)%nat by (apply Nat.div_le_lower_bound; lia).
    assert (k / 256 < m + 4)%nat by (apply Nat.Div0.div_lt_upper_bound; lia).
    lia.
Qed.

Lemma vocalsShare_bounds (j : nat) : 0 <= vocalsShare j <= 1.
Proof.
  unfold vocalsShare. split; [|apply Q.le_min_l].
  apply Q.min_glb; [discriminate|].
  unfold Qle, Qdiv, Qmult, Qinv, inject_Z. simpl. lia.
Qed.

Lemma accompanimentShare_bounds (j : nat) :
  (j <= 1024)%nat -> 0 <= accompanimentShare j <= 1.
Proof.
  intros Hj. unfold accompanimentShare. split; [|apply Q.le_min_l].
  apply Q.min_glb; [discriminate|].
  unfold Qle, Qdiv, Qmult, Qinv, Qminus, Qplus, Qopp, inject_Z. simpl. lia.
Qed.

Lemma coverGain_processedStarts (length k : nat) :
  0 <= coverGain vocalsShare (processedStarts length) k <= 4 /\
  0 <= coverGain accompanimentShare (processedStarts length) k <= 4.
Proof.
  assert (inject_Z (Z.of_nat (List.length (covering (processedStarts length) k))) <= 4)
    as H4.
  { pose proof (covering_processedStarts length k) as H.
    change 4 with (inject_Z 4). rewrite <- Zle_Qle. lia. }
  split.
  - destruct (coverGain_bounds vocalsShare (processedStarts length) k) as (H0 & H1).
    { intros s _ _. apply vocalsShare_bounds. }
    split; [exact H0 | exact (Qle_trans _ _ _ H1 H4)].
  - destruct (coverGain_bounds accompanimentShare (processedStarts length) k)
      as (H0 & H1).
    { intros s _ Hs. apply accompanimentShare_bounds. lia. }
    split; [exact H0 | exact (Qle_trans _ _ _ H1 H4)].
Qed.

(** The normalizer multiplies a channel by one gain in (0, 1]. *)
Lemma normalizeChannel_gain (d : list Q) (n : nat) :
  List.length d = n ->
  exists g, 0 < g /\ g <= 1 /\
    forall k, (k < n)%nat -> rd (normalizeChannel n d) k == rd d k * g.
Proof.
  intros Hd. subst n. destruct (Qlt_le_dec 0 (peak d)) as [Hp|Hp].
  - exists (gainFor (peak d)). split; [|split].
    + unfold gainFor. apply Q.min_glb_lt; [reflexivity|].
      apply Qlt_shift_div_l; [exact Hp|]. rewrite Qmult_0_l. reflexivity.
    + apply Q.le_min_l.
    + intros k Hk. rewrite normalizeChannel_scaled by exact Hp.
      rewrite rd_map by exact Hk. reflexivity.
  - exists 1. split; [reflexivity|]. split; [apply Qle_refl|].
    intros k _. rewrite normalizeChannel_silent.
    + ring.
    + intros C. apply (Qlt_not_le _ _ C Hp).
Qed.

(** X6: the mono branch keeps silence and polarity, and never consults the
    backend.  For a mono input the run is the same with every backend as
    with none.  At every position a sample of 0 comes back as 0 in both
    stems, a sample that is not negative comes back not negative and one
    that is not positive comes back not positive: each returned sample is
    the input sample at its position times weights that are not negative
    (the windows') and a gain above 0 (the normalizer's). *)
Theorem mono_outputs_keep_silence_and_polarity
    (tf : option TensorBackend) (audioBuffer : AudioBuffer) :
  wf_buffer audioBuffer ->
  numberOfChannels audioBuffer = 1%nat ->
  let length := bufferLength audioBuffer in
  let input := getChannelData audioBuffer 0 in
  extractVocals tf audioBuffer = extractVocals None audioBuffer /\
  exists vocals accompaniment,
    extractVocals tf audioBuffer = Some (vocals, accompaniment) /\
    forall k, (k < length)%nat ->
      (rd input k == 0 ->
       rd (getChannelData vocals 0) k == 0 /\
       rd (getChannelData accompaniment 0) k == 0) /\
      (0 <= rd input k ->
       0 <= rd (getChannelData vocals 0) k /\
       0 <= rd (getChannelData accompaniment 0) k) /\
      (rd input k <= 0 ->
       rd (getChannelData vocals 0) k <= 0 /\
       rd (getChannelData accompaniment 0) k <= 0).
Proof.
  intros Hwf Hmono. cbv zeta.
  split; [unfold extractVocals; rewrite !separate_mono by exact Hmono; reflexivity|].
  destruct (extractVocals_channels tf audioBuffer Hwf)
    as (vb & ab & v & a & Hsep & Hrun & _ & _ & _ & _ & _ & _ & _ & _ & Hch).
  destruct (Hch 0%nat ltac:(lia)) as (Lv & La & Ev & Ea).
  destruct (separateMono_spec audioBuffer Hwf) as (r & Hr & _ & _ & Hrd).
  cbv zeta in Hr, Hrd. rewrite Hmono in Hr.
  rewrite separate_mono in Hsep by exact Hmono. rewrite Hr in Hsep.
  cbn [mbind option_bind] in Hsep.
  assert (getChannelData vb 0 = fst r /\ getChannelData ab 0 = snd r) as (Fv & Fa).
  { injection Hsep as <- <-.
    rewrite !getChannelData_set_eq by (rewrite channels_createBuffer_length; lia).
    auto. }
  destruct (normalizeChannel_gain (getChannelData vb 0) _ Lv) as (gv & Gv0 & Gv1 & Hgv).
  destruct (normalizeChannel_gain (getChannelData ab 0) _ La) as (ga & Ga0 & Ga1 & Hga).
  exists v, a. split; [exact Hrun|].
  intros k Hk. destruct (Hrd k) as (R1 & R2).
  rewrite Ev, Ea, (Hgv k Hk), (Hga k Hk), Fv, Fa, R1, R2.
  rewrite !overlapAdd_factor.
  destruct (coverGain_processedStarts (bufferLength audioBuffer) k)
    as ((Cv & _) & (Ca & _)).
  set (x := rd (getChannelData audioBuffer 0) k) in *.
  set (cv := coverGain vocalsShare (processedStarts (bufferLength audioBuffer)) k) in *.
  set (ca := coverGain accompanimentShare
               (processedStarts (bufferLength audioBuffer)) k) in *.
  assert (0 <= cv * gv) as Pv by (apply Qmult_le_0_compat; [exact Cv | lra]).
  assert (0 <= ca * ga) as Pa by (apply Qmult_le_0_compat; [exact Ca | lra]).
  rewrite <- !Qmult_assoc.
  split; [|split].
  - intros ->. split; ring.
  - intros Hx. split; apply Qmult_le_0_compat; assumption.
  - intros Hx. generalize dependent (cv * gv). generalize dependent (ca * ga).
    intros pa Pa pv Pv. split; nra.
Qed.

Lemma mono_outputs_keep_silence_and_polarity_witness :
  wf_buffer mono1281 /\
  numberOfChannels mono1281 = 1%nat /\
  extractVocals (Some unreadableBackend) mono1281 = extractVocals None mono1281 /\
  exists vocals accompaniment,
    extractVocals (Some unreadableBackend) mono1281 = Some (vocals, accompaniment) /\
    forall k, (k < 1281)%nat ->
      (rd (getChannelData mono1281 0) k == 0 ->
       rd (getChannelData vocals 0) k == 0 /\
       rd (getChannelData accompaniment 0) k == 0) /\
      (0 <= rd (getChannelData mono1281 0) k ->
       0 <= rd (getChannelData vocals 0) k /\
       0 <= rd (getChannelData accompaniment 0) k) /\
      (rd (getChannelData mono1281 0) k <= 0 ->
       rd (getChannelData vocals 0) k <= 0 /\
       rd (getChannelData accompaniment 0) k <= 0).
Proof.
  split; [exact wf_mono1281|]. split; [reflexivity|].
  exact (mono_outputs_keep_silence_and_polarity (Some unreadableBackend) mono1281
           wf_mono1281 eq_refl).
Defined.

(** ** The samples inside the container *)

(** The conversion to an integer drops less than one unit, toward zero. *)
Lemma truncate_error (q : Q) : Qabs (inject_Z (truncate q) - q) < 1.
Proof.
  destruct q as [a b]. unfold truncate. cbn [Qnum Qden].
  apply Qabs_Qlt_condition.
  unfold Qlt, Qminus, Qplus, Qopp, inject_Z. cbn [Qnum Qden].
  pose proof (Z.quot_rem' a (Zpos b)) as E.
  assert (Z.abs (Z.rem a (Zpos b)) < Zpos b)%Z as R by (apply Z.rem_bound_abs; lia).
  split; nia.
Qed.

Lemma truncate_bounds (q : Q) (m : Z) :
  (0 <= m)%Z -> - inject_Z (m + 1) < q < inject_Z (m + 1) ->
  (- m <= truncate q <= m)%Z.
Proof.
  destruct q as [a b]. unfold truncate, Qlt, Qopp, inject_Z. cbn [Qnum Qden].
  intros Hm (H1 & H2).
  pose proof (Z.quot_rem' a (Zpos b)) as E.
  assert (Z.abs (Z.rem a (Zpos b)) < Zpos b)%Z as R by (apply Z.rem_bound_abs; lia).
  assert (0 <= Z.rem a (Zpos b) * a)%Z as S by (apply Z.rem_sign_mul; lia).
  split; nia.
Qed.

Lemma getUint16_setUint16 (view : list Z) (offset : nat) (value : Z) :
  (offset + 1 < List.length view)%nat ->
  getUint16 (setUint16 view offset value) offset = toUint 16 value.
Proof.
  intros H. unfold getUint16, getUint8, setUint16. cbv zeta.
  rewrite list_lookup_insert_ne by lia.
  rewrite list_lookup_insert_eq by lia.
  rewrite list_lookup_insert_eq by (rewrite length_insert; lia).
  cbn [default from_option id]. apply bytes16. apply toUint_range. lia.
Qed.

Lemma getUint16_setUint16_ne (view : list Z) (offset other : nat) (value : Z) :
  (other + 1 < offset \/ offset + 1 < other)%nat ->
  getUint16 (setUint16 view offset value) other = getUint16 view other.
Proof.
  intros H. unfold getUint16, getUint8, setUint16. cbv zeta.
  rewrite !list_lookup_insert_ne by lia. reflexivity.
Qed.

Lemma length_setUint16 (view : list Z) (offset : nat) (value : Z) :
  List.length (setUint16 view offset value) = List.length view.
Proof. unfold setUint16. cbv zeta. rewrite !length_insert. reflexivity. Qed.

(** The sample of frame [i], channel [c] is written at byte
    [44 + 2 * (i * n + c)], and no later write touches it. *)
Lemma writeSamples_layout (audioBuffer : AudioBuffer) (view : list Z) :
  let n := numberOfChannels audioBuffer in
  (44 + bufferLength audioBuffer * n * 2 <= List.length view)%nat ->
  forall i c, (i < bufferLength audioBuffer)%nat -> (c < n)%nat ->
    getUint16 (fst (writeSamples audioBuffer view)) (44 + 2 * (i * n + c))
      = toUint 16
          (truncate (Qmax (-1) (Qmin 1 (rd (getChannelData audioBuffer c) i)) * 32767)).
Proof.
  cbv zeta. intros Hlen. unfold writeSamples.
  set (n := numberOfChannels audioBuffer) in *.
  set (L := bufferLength audioBuffer) in *.
  set (enc := fun i c =>
    toUint 16
      (truncate (Qmax (-1) (Qmin 1 (rd (getChannelData audioBuffer c) i)) * 32767))).
  set (P := fun (i c : nat) (st : list Z * nat) =>
    snd st = (44 + 2 * (i * n + c))%nat /\
    List.length (fst st) = List.length view /\
    forall i' c', (c' < n)%nat -> (i' * n + c' < i * n + c)%nat ->
      getUint16 (fst st) (44 + 2 * (i' * n + c')) = enc i' c').
  match goal with |- context [for_range 0 L ?body ?s] =>
    assert (P L O (for_range 0 L body s)) as (_ & _ & H) end.
  - apply (for_range_invariant (fun i => P i O)); [lia| |].
    + unfold P. cbn [fst snd]. split; [lia|]. split; [reflexivity|].
      intros i' c' _ Hlt. lia.
    + intros i st Hi Hst.
      assert (P i n (for_range 0 n
        (fun channel st0 =>
           (setInt16 (fst st0) (snd st0)
              (Qmax (-1) (Qmin 1 (rd (getChannelData audioBuffer channel) i)) * 32767),
            (snd st0 + 2)%nat)) st)) as (Q1 & Q2 & Q3).
      { apply (for_range_invariant (P i)); [lia|exact Hst|].
        intros c st' Hc (R1 & R2 & R3). unfold P. cbn [fst snd]. unfold setInt16.
        split; [lia|]. split; [rewrite length_setUint16; exact R2|].
        intros i' c' Hc' Hlt.
        assert (i * n + c < L * n)%nat as Hin by nia.
        destruct (decide (i' * n + c' = i * n + c)%nat) as [E|NE].
        - assert (i' = i) as ->.
          { destruct (lt_eq_lt_dec i' i) as [[Hl|He]|Hg]; [exfalso|exact He|exfalso].
            - pose proof (Nat.mul_le_mono_r (S i') i n ltac:(lia)). lia.
            - pose proof (Nat.mul_le_mono_r (S i) i' n ltac:(lia)). lia. }
          assert (c' = c) as -> by lia.
          rewrite R1. apply getUint16_setUint16. lia.
        - rewrite R1, getUint16_setUint16_ne by lia. apply R3; [exact Hc'|lia]. }
      unfold P. split; [lia|]. split; [exact Q2|].
      intros i' c' Hc' Hlt. apply Q3; [exact Hc'|lia].
  - intros i c Hi Hc. apply H; [exact Hc|nia].
Qed.

Lemma wavBytes_length (audioBuffer : AudioBuffer) :
  List.length (wavBytes audioBuffer)
    = (44 + bufferLength audioBuffer * numberOfChannels audioBuffer * 2)%nat.
Proof.
  destruct (wavBytes_shape audioBuffer) as (payload & -> & Hp).
  rewrite length_app, writeHeader_length, Hp. reflexivity.
Qed.

Lemma getInt16_toUint (v : Z) :
  (-32768 <= v < 32768)%Z ->
  (let u := toUint 16 v in if (u <? 32768)%Z then u else (u - 65536)%Z) = v.
Proof.
  intros H. cbv zeta. unfold toUint. change (2 ^ 16)%Z with 65536%Z.
  destruct (Z.ltb_spec (v mod 65536) 32768); Z.div_mod_to_equations; lia.
Qed.

Lemma clamp_range (x : Q) : -1 <= Qmax (-1) (Qmin 1 x) <= 1.
Proof.
  split; [apply Q.le_max_l|]. apply Q.max_lub; [discriminate | apply Q.le_min_l].
Qed.

Lemma truncate_clamped (x : Q) :
  (-32767 <= truncate (Qmax (-1) (Qmin 1 x) * 32767) <= 32767)%Z.
Proof.
  apply (truncate_bounds (Qmax (-1) (Qmin 1 x) * 32767) 32767); [lia|].
  destruct (clamp_range x) as (C1 & C2).
  set (sample := Qmax (-1) (Qmin 1 x)) in *.
  clearbody sample. change (inject_Z (32767 + 1)) with 32768.
  split.
  - apply Qlt_le_trans with (-1 * 32767); [reflexivity|].
    apply Qmult_le_compat_r; [exact C1|discriminate].
  - apply Qle_lt_trans with (1 * 32767); [|reflexivity].
    apply Qmult_le_compat_r; [exact C2|discriminate].
Qed.

(** What a reader of the container finds for frame [i], channel [c]. *)
Lemma wavBytes_sample (audioBuffer : AudioBuffer) (i c : nat) :
  (i < bufferLength audioBuffer)%nat ->
  (c < numberOfChannels audioBuffer)%nat ->
  getInt16 (wavBytes audioBuffer) (44 + 2 * (i * numberOfChannels audioBuffer + c))
    = truncate (Qmax (-1) (Qmin 1 (rd (getChannelData audioBuffer c) i)) * 32767).
Proof.
  intros Hi Hc. unfold getInt16, wavBytes. cbv zeta.
  rewrite writeSamples_layout; [|
    rewrite replicate_add, writeHeader_app, length_app, writeHeader_length,
      length_replicate; lia | exact Hi | exact Hc].
  apply getInt16_toUint.
  pose proof (truncate_clamped (rd (getChannelData audioBuffer c) i)). lia.
Qed.

(** X7: the container holds the frames one after the other and, inside a
    frame, the channels in order: the two bytes at [44 + 2 * (i * n + c)]
    read back as the sample of frame [i], channel [c], clamped to [[-1, 1]],
    times 32767, with the fraction dropped.  The number stored lies in
    [[-32767, 32767]] and is less than one unit away from the scaled sample. *)
Theorem wav_holds_interleaved_16_bit_samples (audioBuffer : AudioBuffer) (i channel : nat) :
  (i < bufferLength audioBuffer)%nat ->
  (channel < numberOfChannels audioBuffer)%nat ->
  let sample := Qmax (-1) (Qmin 1 (rd (getChannelData audioBuffer channel) i)) in
  let stored :=
    getInt16 (wavBytes audioBuffer)
             (44 + 2 * (i * numberOfChannels audioBuffer + channel)) in
  List.length (wavBytes audioBuffer)
    = (44 + bufferLength audioBuffer * numberOfChannels audioBuffer * 2)%nat /\
  stored = truncate (sample * 32767) /\
  (-32767 <= stored <= 32767)%Z /\
  Qabs (inject_Z stored - sample * 32767) < 1.
Proof.
  intros Hi Hc. cbv zeta. rewrite wavBytes_sample by assumption.
  split; [apply wavBytes_length|]. split; [reflexivity|].
  split; [apply truncate_clamped | apply truncate_error].
Qed.

Lemma wav_holds_interleaved_16_bit_samples_witness :
  (2 < bufferLength stereo3)%nat /\
  (1 < numberOfChannels stereo3)%nat /\
  List.length (wavBytes stereo3) = 56%nat /\
  getInt16 (wavBytes stereo3) 54 = truncate ((1 # 2) * 32767) /\
  (-32767 <= getInt16 (wavBytes stereo3) 54 <= 32767)%Z /\
  Qabs (inject_Z (getInt16 (wavBytes stereo3) 54) - (1 # 2) * 32767) < 1.
Proof.
  assert (2 < bufferLength stereo3)%nat as Hi by (simpl; lia).
  assert (1 < numberOfChannels stereo3)%nat as Hc by (simpl; lia).
  split; [exact Hi|]. split; [exact Hc|].
  exact (wav_holds_interleaved_16_bit_samples stereo3 2 1 Hi Hc).
Defined.

Lemma clamp_inside (x : Q) : -1 < x -> x < 1 -> Qmax (-1) (Qmin 1 x) = x.
Proof.
  intros H1 H2. unfold Qmax, Qmin, GenericMinMax.gmax, GenericMinMax.gmin.
  rewrite (proj1 (Qgt_alt 1 x) H2). rewrite (proj1 (Qlt_alt (-1) x) H1). reflexivity.
Qed.

Lemma truncate_normalized (x : Q) :
  Qabs x <= 9 # 10 ->
  Qmax (-1) (Qmin 1 x) = x /\ (-29490 <= truncate (x * 32767) <= 29490)%Z.
Proof.
  intros H. apply Qabs_Qle_condition in H. destruct H as (H1 & H2). split.
  - apply clamp_inside.
    + apply Qlt_le_trans with (- (9 # 10)); [reflexivity | exact H1].
    + apply Qle_lt_trans with (9 # 10); [exact H2 | reflexivity].
  - apply (truncate_bounds (x * 32767) 29490); [lia|].
    change (inject_Z (29490 + 1)) with 29491. split.
    + apply Qlt_le_trans with (- (9 # 10) * 32767); [reflexivity|].
      apply Qmult_le_compat_r; [exact H1|discriminate].
    + apply Qle_lt_trans with ((9 # 10) * 32767); [|reflexivity].
      apply Qmult_le_compat_r; [exact H2|discriminate].
Qed.

(** X8: the stems are stored as they are.  Every sample [extractVocals]
    returns is within the normalizer's ceiling, so the encoder's clamp to
    [[-1, 1]] changes none of them: the container of either stem holds, for
    frame [i] and channel [c], the sample times 32767 with the fraction
    dropped, a number in [[-29490, 29490]]. *)
Theorem stems_are_encoded_without_clamping
    (tf : option TensorBackend) (audioBuffer : AudioBuffer) :
  wf_buffer audioBuffer ->
  exists vocals accompaniment,
    extractVocals tf audioBuffer = Some (vocals, accompaniment) /\
    forall i c, (i < bufferLength audioBuffer)%nat ->
      (c < numberOfChannels audioBuffer)%nat ->
      let offset := (44 + 2 * (i * numberOfChannels audioBuffer + c))%nat in
      getInt16 (wavBytes vocals) offset
        = truncate (rd (getChannelData vocals c) i * 32767) /\
      getInt16 (wavBytes accompaniment) offset
        = truncate (rd (getChannelData accompaniment c) i * 32767) /\
      (-29490 <= getInt16 (wavBytes vocals) offset <= 29490)%Z /\
      (-29490 <= getInt16 (wavBytes accompaniment) offset <= 29490)%Z.
Proof.
  intros Hwf.
  destruct (extractVocals_channels tf audioBuffer Hwf)
    as (vb & ab & v & a & _ & Hrun & _ & _ & Nv & Na & Lv & La & _ & _ & Hch).
  exists v, a. split; [exact Hrun|]. intros i c Hi Hc. cbv zeta.
  destruct (Hch c Hc) as (Hv & Ha & Ev & Ea).
  assert (Qabs (rd (getChannelData v c) i) <= 9 # 10) as Bv.
  { apply Qle_trans with (peak (getChannelData v c)); [apply Qabs_rd_le_peak|].
    rewrite Ev, <- Hv. apply normalizeChannel_peak. }
  assert (Qabs (rd (getChannelData a c) i) <= 9 # 10) as Ba.
  { apply Qle_trans with (peak (getChannelData a c)); [apply Qabs_rd_le_peak|].
    rewrite Ea, <- Ha. apply normalizeChannel_peak. }
  destruct (truncate_normalized _ Bv) as (Cv & Tv).
  destruct (truncate_normalized _ Ba) as (Ca & Ta).
  pose proof (wavBytes_sample v i c ltac:(lia) ltac:(lia)) as Sv.
  pose proof (wavBytes_sample a i c ltac:(lia) ltac:(lia)) as Sa.
  rewrite Nv, Cv in Sv. rewrite Na, Ca in Sa.
  rewrite Sv, Sa. auto.
Qed.

Lemma stems_are_encoded_without_clamping_witness :
  wf_buffer clipping2x3 /\
  exists vocals accompaniment,
    extractVocals None clipping2x3 = Some (vocals, accompaniment) /\
    forall i c, (i < 3)%nat -> (c < 2)%nat ->
      let offset := (44 + 2 * (i * 2 + c))%nat in
      getInt16 (wavBytes vocals) offset
        = truncate (rd (getChannelData vocals c) i * 32767) /\
      getInt16 (wavBytes accompaniment) offset
        = truncate (rd (getChannelData accompaniment c) i * 32767) /\
      (-29490 <= getInt16 (wavBytes vocals) offset <= 29490)%Z /\
      (-29490 <= getInt16 (wavBytes accompaniment) offset <= 29490)%Z.
Proof.
  split; [exact wf_clipping2x3|].
  exact (stems_are_encoded_without_clamping None clipping2x3 wf_clipping2x3).
Defined.

(** ** From the decoded file to the two players *)

Lemma fitsWavHeader_shape (b b' : AudioBuffer) :
  numberOfChannels b' = numberOfChannels b ->
  bufferLength b' = bufferLength b ->
  sampleRate b' = sampleRate b ->
  fitsWavHeader b -> fitsWavHeader b'.
Proof. unfold fitsWavHeader. intros -> -> ->. auto. Qed.

Lemma createAudioBlob_encoded (audioBuffer : AudioBuffer) (format : option AudioFormat) :
  createAudioBlob (audioBufferToBase64 audioBuffer format) None
    = Some (mkBlob (wavBytes audioBuffer) "audio/wav").
Proof.
  unfold createAudioBlob.
  assert (audioBufferToBase64 audioBuffer format = audioBufferToWavBase64 audioBuffer)
    as -> by (destruct format as [[|]|]; reflexivity).
  rewrite atob_audioBufferToWavBase64. reflexivity.
Qed.

(** X9: a run that is not cut short hands the players two wav files.  When
    the 30 second timer does not fire while the promise is pending (it is
    cleared only after the separation and the encoding, so it can still fire
    once the file is decoded, and the promise then rejects), and the file is
    read and decoded before the 10 second timer of the decoding, the promise
    resolves, for every backend and either output format, with two texts
    that [createAudioBlob] turns into blobs of type audio/wav whose bytes are
    wav containers of the decoded buffer's channel count, sample rate and
    number of frames. *)
Theorem finished_run_yields_two_wav_blobs
    (tf : option TensorBackend) (outputFormat : AudioFormat) (audioBuffer : AudioBuffer) :
  wf_buffer audioBuffer ->
  fitsWavHeader audioBuffer ->
  let info :=
    mkWavInfo (Z.of_nat (numberOfChannels audioBuffer)) (sampleRate audioBuffer) 16
      (Z.of_nat (bufferLength audioBuffer) * Z.of_nat (numberOfChannels audioBuffer) * 2) in
  exists vocals64 accompaniment64 vocalsBlob accompanimentBlob,
    processAudioWithAI tf outputFormat false (ReadLoaded (Decoded audioBuffer))
      = Stems64 vocals64 accompaniment64 /\
    createAudioBlob vocals64 None = Some vocalsBlob /\
    createAudioBlob accompaniment64 None = Some accompanimentBlob /\
    blobType vocalsBlob = "audio/wav"%string /\
    blobType accompanimentBlob = "audio/wav"%string /\
    parseWav (blobBytes vocalsBlob) = Some info /\
    parseWav (blobBytes accompanimentBlob) = Some info.
Proof.
  intros Hwf Hfits. cbv zeta.
  destruct (extractVocals_channels tf audioBuffer Hwf)
    as (vb & ab & v & a & _ & Hrun & Wv & Wa & Nv & Na & Lv & La & Rv & Ra & _).
  unfold processAudioWithAI. rewrite Hrun.
  eexists _, _, _, _. split; [reflexivity|].
  split; [apply createAudioBlob_encoded|]. split; [apply createAudioBlob_encoded|].
  cbn [blobType blobBytes]. split; [reflexivity|]. split; [reflexivity|].
  split.
  - rewrite (parseWav_wavBytes v Wv (fitsWavHeader_shape audioBuffer v Nv Lv Rv Hfits)).
    rewrite Nv, Lv, Rv. reflexivity.
  - rewrite (parseWav_wavBytes a Wa (fitsWavHeader_shape audioBuffer a Na La Ra Hfits)).
    rewrite Na, La, Ra. reflexivity.
Qed.

Lemma finished_run_yields_two_wav_blobs_witness :
  wf_buffer stereo3 /\
  fitsWavHeader stereo3 /\
  exists vocals64 accompaniment64 vocalsBlob accompanimentBlob,
    processAudioWithAI None mp3 false (ReadLoaded (Decoded stereo3))
      = Stems64 vocals64 accompaniment64 /\
    createAudioBlob vocals64 None = Some vocalsBlob /\
    createAudioBlob accompaniment64 None = Some accompanimentBlob /\
    blobType vocalsBlob = "audio/wav"%string /\
    blobType accompanimentBlob = "audio/wav"%string /\
    parseWav (blobBytes vocalsBlob) = Some (mkWavInfo 2 44100 16 12) /\
    parseWav (blobBytes accompanimentBlob) = Some (mkWavInfo 2 44100 16 12).
Proof.
  split; [exact wf_stereo3|]. split; [exact fitsWavHeader_stereo3|].
  exact (finished_run_yields_two_wav_blobs None mp3 stereo3 wf_stereo3
           fitsWavHeader_stereo3).
Defined.

(** ** The component over a whole run *)

(** While a run is going on no result is held and the engine is loaded. *)
Lemma step_preserves_busy (m m' : Machine) :
  (isProcessing (extraction m) = true ->
   result (extraction m) = None /\ engineLoaded m = true) ->
  step m m' ->
  isProcessing (extraction m') = true ->
  result (extraction m') = None /\ engineLoaded m' = true.
Proof.
  intros Hinv Hstep.
  destruct Hstep as [m | m o p Hpos | m Hpos | m f | m | m]; cbn.
  - unfold invoke, handleExtractVocals.
    destruct (isProcessing (extraction m)) eqn:E; cbn; [rewrite E; exact Hinv|].
    destruct (inputFile (extraction m)); cbn; [|rewrite E; discriminate].
    destruct (engineLoaded m); cbn; [auto | rewrite E; discriminate].
  - destruct p; cbn; discriminate.
  - discriminate.
  - exact Hinv.
  - intros H. split; [apply Hinv; exact H | reflexivity].
  - exact Hinv.
Qed.

Lemma reachable_busy (m : Machine) :
  reachable m ->
  isProcessing (extraction m) = true ->
  result (extraction m) = None /\ engineLoaded m = true.
Proof.
  induction 1 as [|m m' _ IH Hstep].
  - discriminate.
  - exact (step_preserves_busy m m' IH Hstep).
Qed.

(** X10: a run starts from a clean slate and keeps it.  In every state the
    component can reach, if a run is in progress then no result is held
    (the result of an earlier run was dropped when this one started), the
    engine is loaded, and exactly one run is in flight. *)
Theorem no_result_is_held_during_a_run (m : Machine) :
  reachable m ->
  isProcessing (extraction m) = true ->
  result (extraction m) = None /\ engineLoaded m = true /\ inFlight m = 1%nat.
Proof.
  intros Hr Hbusy. destruct (reachable_busy m Hr Hbusy) as (H1 & H2).
  split; [exact H1|]. split; [exact H2|].
  pose proof (reachable_flag m Hr) as Hf. unfold inFlightMatchesFlag in Hf.
  rewrite Hbusy in Hf. exact Hf.
Qed.

Lemma reachable_secondRun : reachable secondRun.
Proof.
  unfold secondRun.
  apply reachable_step with (m := afterFirstRun); [|apply step_invoke].
  apply reachable_step with (m := pressedTwice); [apply reachable_pressedTwice|].
  exact (step_loaded pressedTwice "b3JpZw==" (Stems64 "dm9j" "YWNj") (Nat.lt_0_succ 0)).
Qed.

Lemma no_result_is_held_during_a_run_witness :
  reachable secondRun /\
  isProcessing (extraction secondRun) = true /\
  result (extraction afterFirstRun) = Some (mkResult "dm9j" "YWNj" "b3JpZw==") /\
  result (extraction secondRun) = None /\
  engineLoaded secondRun = true /\ inFlight secondRun = 1%nat.
Proof.
  split; [exact reachable_secondRun|]. split; [reflexivity|]. split; [reflexivity|].
  exact (no_result_is_held_during_a_run secondRun reachable_secondRun eq_refl).
Defined.

(** X11: every run ends, and ends in a state the user can act on.  From a
    reachable state with a run in progress, the step that ends the run (the
    [onload] handler returning, with stems or with a fault, or the [onerror]
    handler) leaves no run in flight and the progress at 0, keeps the input
    file, and leaves either a result, with the error untouched, or no result
    and an error message; the next press of the button is then accepted
    exactly when a file is selected. *)
Theorem a_run_ends_with_a_result_or_an_error (m m' : Machine) :
  reachable m ->
  isProcessing (extraction m) = true ->
  step m m' ->
  isProcessing (extraction m') = false ->
  inFlight m' = 0%nat /\
  progress (extraction m') = 0%Z /\
  inputFile (extraction m') = inputFile (extraction m) /\
  ((exists vocals64 accompaniment64 original64,
      result (extraction m') = Some (mkResult vocals64 accompaniment64 original64) /\
      error (extraction m') = error (extraction m)) \/
   (result (extraction m') = None /\
    exists message, error (extraction m') = Some message)) /\
  snd (handleExtractVocals (engineLoaded m') (extraction m'))
    = inputFile (extraction m').
Proof.
  intros Hr Hbusy Hstep Hidle.
  destruct (reachable_busy m Hr Hbusy) as (Hres & Heng).
  pose proof (reachable_flag m Hr) as Hf. unfold inFlightMatchesFlag in Hf.
  rewrite Hbusy in Hf.
  destruct Hstep as [m | m o p Hpos | m Hpos | m f | m | m];
    cbn [extraction engineLoaded inFlight] in *.
  - exfalso. unfold invoke in Hidle. cbn [extraction] in Hidle.
    rewrite handleExtractVocals_busy in Hidle by exact Hbusy.
    cbn [fst] in Hidle. congruence.
  - rewrite Hf, Heng. split; [reflexivity|].
    destruct p as [v a|message]; cbn.
    + split; [reflexivity|]. split; [reflexivity|]. split.
      * left. exists v, a, o. auto.
      * destruct (inputFile (extraction m)); reflexivity.
    + split; [reflexivity|]. split; [reflexivity|]. split.
      * right. split; [exact Hres|]. eexists. reflexivity.
      * destruct (inputFile (extraction m)); reflexivity.
  - rewrite Hf, Heng. split; [reflexivity|]. cbn.
    split; [reflexivity|]. split; [reflexivity|]. split.
    + right. split; [exact Hres|]. eexists. reflexivity.
    + destruct (inputFile (extraction m)); reflexivity.
  - exfalso. cbn in Hidle. congruence.
  - exfalso. congruence.
  - exfalso. cbn in Hidle. congruence.
Qed.

Lemma a_run_ends_with_a_result_or_an_error_witness :
  reachable pressedTwice /\
  isProcessing (extraction pressedTwice) = true /\
  step pressedTwice afterFirstRun /\
  isProcessing (extraction afterFirstRun) = false /\
  inFlight afterFirstRun = 0%nat /\
  progress (extraction afterFirstRun) = 0%Z /\
  inputFile (extraction afterFirstRun) = inputFile (extraction pressedTwice) /\
  ((exists vocals64 accompaniment64 original64,
      result (extraction afterFirstRun)
        = Some (mkResult vocals64 accompaniment64 original64) /\
      error (extraction afterFirstRun) = error (extraction pressedTwice)) \/
   (result (extraction afterFirstRun) = None /\
    exists message, error (extraction afterFirstRun) = Some message)) /\
  snd (handleExtractVocals (engineLoaded afterFirstRun) (extraction afterFirstRun))
    = inputFile (extraction afterFirstRun).
Proof.
  assert (step pressedTwice afterFirstRun) as Hstep
    by exact (step_loaded pressedTwice "b3JpZw==" (Stems64 "dm9j" "YWNj")
                (Nat.lt_0_succ 0)).
  split; [exact reachable_pressedTwice|]. split; [reflexivity|].
  split; [exact Hstep|]. split; [reflexivity|].
  exact (a_run_ends_with_a_result_or_an_error pressedTwice afterFirstRun
           reachable_pressedTwice eq_refl Hstep eq_refl).
Defined.

(** ** The upload control *)

(** What [handleFileSelect] does with a file, by its type and size. *)
Lemma handleFileSelect_cases (u : UploadState) (f : SelectedFile) :
  (startsWith (fileType f) "audio/" = true /\ (fileSize f <= 52428800)%Z /\
   handleFileSelect u f
     = (mkUploadState None (isDragOver u), Some (Some (fileContent f)))) \/
  (startsWith (fileType f) "audio/" = false /\
   handleFileSelect u f
     = (mkUploadState (Some "Please upload an audio file"%string) (isDragOver u), None)) \/
  (startsWith (fileType f) "audio/" = true /\ (52428800 < fileSize f)%Z /\
   handleFileSelect u f
     = (mkUploadState (Some "File size must be less than 50MB"%string) (isDragOver u),
        None)).
Proof.
  unfold handleFileSelect, validateFile.
  destruct (startsWith (fileType f) "audio/"); cbn [negb].
  - cbv zeta. change (50 * 1024 * 1024)%Z with 52428800%Z.
    destruct (Z.gtb_spec (fileSize f) 52428800); cbn [fst snd].
    + right. right. auto.
    + left. auto.
  - right. left. auto.
Qed.

(** X12: which files the upload control passes on.  Of the files selected
    or dropped it looks at the first only; it calls [onFileChange] with that
    file, and clears its error, exactly when the file's type starts with
    audio/ and its size is at most 52428800 bytes (50 MiB itself passes);
    otherwise it makes no call, so the file selected before stays, and it
    shows a message, the one about the type when both checks fail.  A drop
    on a disabled control does nothing but end the drag highlight. *)
Theorem upload_passes_on_first_audio_file_up_to_50MB
    (u : UploadState) (f : SelectedFile) (rest : list SelectedFile) :
  let audio := startsWith (fileType f) "audio/" in
  let small := (fileSize f <=? 52428800)%Z in
  handleInputChange u (f :: rest) = handleFileSelect u f /\
  handleDrop false u (f :: rest) = handleFileSelect (setIsDragOver u false) f /\
  handleDrop true u (f :: rest) = (setIsDragOver u false, None) /\
  (snd (handleFileSelect u f) = Some (Some (fileContent f)) <->
   audio = true /\ small = true) /\
  (audio = true -> small = true -> uploadError (fst (handleFileSelect u f)) = None) /\
  (audio = false ->
   handleFileSelect u f
     = (setUploadError u (Some "Please upload an audio file"%string), None)) /\
  (audio = true -> small = false ->
   handleFileSelect u f
     = (setUploadError u (Some "File size must be less than 50MB"%string), None)).
Proof.
  cbv zeta. do 3 (split; [reflexivity|]).
  destruct (handleFileSelect_cases u f)
    as [(A & S & E)|[(A & E)|(A & S & E)]]; rewrite E, A; cbn [fst snd uploadError].
  - apply Z.leb_le in S. rewrite S. repeat split; auto; discriminate.
  - repeat split; try discriminate. intros (C & _). discriminate.
  - assert ((fileSize f <=? 52428800)%Z = false) as S' by (apply Z.leb_gt; exact S).
    rewrite S'. repeat split; try discriminate. intros (_ & C). discriminate.
Qed.

(** The three sample files, computed: the wav file is passed on, the video
    and the file one byte over the limit are refused. *)
Example upload_samples :
  handleFileSelect (mkUploadState (Some "old"%string) true) songUpload
    = (mkUploadState None true, Some (Some song)) /\
  handleFileSelect (mkUploadState None false) clipUpload
    = (mkUploadState (Some "Please upload an audio file"%string) false, None) /\
  handleFileSelect (mkUploadState None false) longUpload
    = (mkUploadState (Some "File size must be less than 50MB"%string) false, None) /\
  handleFileSelect (mkUploadState None false)
      (mkSelectedFile "audio/mpeg" (50 * 1024 * 1024) song)
    = (mkUploadState None false, Some (Some song)).
Proof. repeat split. Qed.

(** ** The page *)

Lemma handleExtractVocals_inputFile (engine : bool) (s : ExtractionState) :
  inputFile (fst (handleExtractVocals engine s)) = inputFile s.
Proof.
  unfold handleExtractVocals.
  destruct (isProcessing s); [reflexivity|].
  destruct (inputFile s) eqn:E; [|cbn; exact E].
  destruct engine; cbn; exact E.
Qed.

(** An event of the page is a step of the component, or leaves it alone. *)
Lemma handle_step (p : Page) (e : PageEvent) :
  enabled p e = true ->
  step (component p) (component (handle p e)) \/
  component (handle p e) = component p.
Proof.
  intros Hen.
  assert (forall change,
    step (component p) (onFileChange (component p) change) \/
    onFileChange (component p) change = component p) as Hchange.
  { intros [file|]; [left; apply step_file_change | right; reflexivity]. }
  destruct e; cbn [handle component]; try (right; reflexivity).
  - left. apply step_invoke.
  - apply Hchange.
  - apply Hchange.
  - apply Hchange.
  - left. apply step_loaded. cbn [enabled] in Hen. apply Nat.ltb_lt. exact Hen.
  - left. apply step_read_error. cbn [enabled] in Hen. apply Nat.ltb_lt. exact Hen.
  - left. apply step_engine_ready.
  - left. apply step_engine_failed.
Qed.

Lemma pageReachable_component (p : Page) : pageReachable p -> reachable (component p).
Proof.
  induction 1 as [|p e _ IH Hen].
  - apply reachable_initial.
  - destruct (handle_step p e Hen) as [Hstep|Heq].
    + exact (reachable_step _ _ IH Hstep).
    + rewrite Heq. exact IH.
Qed.

(** X13: on the page, every press of the button starts a run.  The button
    is rendered once the engine is loaded and is enabled only while no run
    is in progress and a file is selected, so a press never takes one of
    the rejecting branches of [handleExtractVocals]: it clears error and
    result, sets [isProcessing], starts reading the selected file, and that
    run is the only one in flight. *)
Theorem on_the_page_every_press_starts_a_run (p : Page) :
  pageReachable p ->
  enabled p Click = true ->
  exists file,
    inputFile (extraction (component p)) = Some file /\
    handleExtractVocals (engineLoaded (component p)) (extraction (component p))
      = (mkState (Some file) true 0 None None, Some file) /\
    extraction (component (handle p Click)) = mkState (Some file) true 0 None None /\
    inFlight (component (handle p Click)) = 1%nat.
Proof.
  intros Hr Hen. cbn [enabled] in Hen.
  apply andb_prop in Hen. destruct Hen as (Heng & Hen).
  apply negb_true_iff, orb_false_elim in Hen. destruct Hen as (Hidle & Hfile).
  apply negb_false_iff, bool_decide_eq_true in Hfile.
  destruct (inputFile (extraction (component p))) as [file|] eqn:Efile; [|congruence].
  pose proof (reachable_flag _ (pageReachable_component p Hr)) as Hflag.
  unfold inFlightMatchesFlag in Hflag. rewrite Hidle in Hflag.
  assert (handleExtractVocals (engineLoaded (component p)) (extraction (component p))
          = (mkState (Some file) true 0 None None, Some file)) as Hrun.
  { unfold handleExtractVocals. rewrite Hidle, Efile, Heng. cbn [negb].
    unfold setProgress, setResult, setError, setIsProcessing.
    cbn [inputFile isProcessing progress error result]. rewrite Efile. reflexivity. }
  exists file. split; [reflexivity|]. split; [exact Hrun|].
  cbn [handle component]. unfold invoke. rewrite Hrun. cbn [fst snd extraction inFlight].
  rewrite Hflag. auto.
Qed.

Lemma pageReachable_songSelected :
  pageReachable (handle readyPage (InputChange [songUpload])).
Proof.
  apply pageReachable_step; [|reflexivity].
  apply pageReachable_step; [apply pageReachable_initial | reflexivity].
Qed.

Lemma on_the_page_every_press_starts_a_run_witness :
  pageReachable (handle readyPage (InputChange [songUpload])) /\
  enabled (handle readyPage (InputChange [songUpload])) Click = true /\
  exists file,
    inputFile (extraction (component (handle readyPage (InputChange [songUpload]))))
      = Some file /\
    handleExtractVocals true (mkState (Some song) false 0 None None)
      = (mkState (Some file) true 0 None None, Some file) /\
    extraction (component (handle (handle readyPage (InputChange [songUpload])) Click))
      = mkState (Some file) true 0 None None /\
    inFlight (component (handle (handle readyPage (InputChange [songUpload])) Click))
      = 1%nat.
Proof.
  split; [exact pageReachable_songSelected|]. split; [reflexivity|].
  exact (on_the_page_every_press_starts_a_run _ pageReachable_songSelected eq_refl).
Defined.

(** X14: the input file changes only through the idle upload control.  An
    event of the page that leaves the component with another input file
    happens while no run is in progress, and is either the removal of the
    file or the selection (by the file input or by a drop) of a list whose
    first file has a type starting with audio/ and at most 52428800 bytes,
    which becomes the input file.  No event changes the input file during a
    run. *)
Theorem input_file_changes_only_through_the_idle_upload_control
    (p : Page) (e : PageEvent) :
  enabled p e = true ->
  inputFile (extraction (component (handle p e)))
    <> inputFile (extraction (component p)) ->
  isProcessing (extraction (component p)) = false /\
  ((e = Remove /\ inputFile (extraction (component (handle p e))) = None) \/
   exists f rest,
     (e = InputChange (f :: rest) \/ e = Drop (f :: rest)) /\
     startsWith (fileType f) "audio/" = true /\
     (fileSize f <= 52428800)%Z /\
     inputFile (extraction (component (handle p e))) = Some (fileContent f)).
Proof.
  intros Hen Hchg.
  assert (forall u f,
    inputFile (extraction (onFileChange (component p) (snd (handleFileSelect u f))))
      <> inputFile (extraction (component p)) ->
    startsWith (fileType f) "audio/" = true /\
    (fileSize f <= 52428800)%Z /\
    inputFile (extraction (onFileChange (component p) (snd (handleFileSelect u f))))
      = Some (fileContent f)) as Hsel.
  { intros u f H.
    destruct (handleFileSelect_cases u f) as [(A & S & E)|[(A & E)|(A & S & E)]];
      rewrite E in H |- *; cbn [snd onFileChange extraction inputFile setInputFile] in *;
      [auto | congruence | congruence]. }
  destruct e; cbn [handle component] in Hchg |- *;
    try (exfalso; apply Hchg; reflexivity).
  - exfalso. apply Hchg. unfold invoke. cbn [extraction].
    apply handleExtractVocals_inputFile.
  - cbn [enabled] in Hen. apply andb_prop in Hen. destruct Hen as (_ & Hidle).
    apply negb_true_iff in Hidle. split; [exact Hidle|].
    destruct files as [|f rest]; cbn [handleInputChange] in Hchg |- *;
      [cbn in Hchg; congruence|].
    right. exists f, rest. split; [left; reflexivity|].
    exact (Hsel _ f Hchg).
  - unfold handleDrop in Hchg |- *. cbv zeta in Hchg |- *.
    destruct (isProcessing (extraction (component p))) eqn:Hbusy;
      [cbn in Hchg; congruence|].
    split; [reflexivity|].
    destruct files as [|f rest]; [cbn in Hchg; congruence|].
    right. exists f, rest. split; [right; reflexivity|].
    exact (Hsel _ f Hchg).
  - cbn [enabled] in Hen. apply andb_prop in Hen. destruct Hen as (_ & Hidle).
    apply negb_true_iff in Hidle. split; [exact Hidle|].
    left. split; reflexivity.
  - exfalso. apply Hchg. destruct p0; reflexivity.
Qed.

Lemma input_file_changes_only_through_the_idle_upload_control_witness :
  enabled readyPage (Drop [songUpload; clipUpload]) = true /\
  inputFile (extraction (component (handle readyPage (Drop [songUpload; clipUpload]))))
    <> inputFile (extraction (component readyPage)) /\
  isProcessing (extraction (component readyPage)) = false /\
  ((Drop [songUpload; clipUpload] = Remove /\
    inputFile (extraction (component (handle readyPage (Drop [songUpload; clipUpload]))))
      = None) \/
   exists f rest,
     (Drop [songUpload; clipUpload] = InputChange (f :: rest) \/
      Drop [songUpload; clipUpload] = Drop (f :: rest)) /\
     startsWith (fileType f) "audio/" = true /\
     (fileSize f <= 52428800)%Z /\
     inputFile (extraction (component (handle readyPage (Drop [songUpload; clipUpload]))))
       = Some (fileContent f)).
Proof.
  assert (inputFile (extraction (component
            (handle readyPage (Drop [songUpload; clipUpload]))))
          <> inputFile (extraction (component readyPage))) as Hchg
    by (cbn; discriminate).
  split; [reflexivity|]. split; [exact Hchg|].
  exact (input_file_changes_only_through_the_idle_upload_control
           readyPage (Drop [songUpload; clipUpload]) eq_refl Hchg).
Defined.

(** ** The enhancement when the backend works *)

(** The copy loop of lines 253-258 after a [try] block in which every call
    succeeded. *)
Lemma enhance_rows
    (backend : TensorBackend) (length : nat) (s : Stems)
    (vocalsData accompanimentData : list Q) :
  (vocalsTensor ← tensor2d backend [vocalsLeft s; vocalsRight s] (2%nat, length);
   vocalsScaled ← tf_mul backend vocalsTensor (12 # 10);
   vocalsEnhanced ← tf_tanh backend vocalsScaled;
   tf_data backend vocalsEnhanced) = Some vocalsData ->
  (accompanimentTensor ←
     tensor2d backend [accompanimentLeft s; accompanimentRight s] (2%nat, length);
   accompanimentScaled ← tf_mul backend accompanimentTensor (11 # 10);
   accompanimentEnhanced ← tf_tanh backend accompanimentScaled;
   tf_data backend accompanimentEnhanced) = Some accompanimentData ->
  List.length (vocalsLeft s) = length ->
  List.length (vocalsRight s) = length ->
  List.length (accompanimentLeft s) = length ->
  List.length (accompanimentRight s) = length ->
  let s' := enhance (Some backend) length s in
  forall i, (i < length)%nat ->
    rd (vocalsLeft s') i = rd vocalsData i /\
    rd (vocalsRight s') i = rd vocalsData (i + length) /\
    rd (accompanimentLeft s') i = rd accompanimentData i /\
    rd (accompanimentRight s') i = rd accompanimentData (i + length).
Proof.
  intros Hv Ha L1 L2 L3 L4. cbv zeta.
  assert (enhanceTry backend length s
          = Some (for_range 0 length
                    (fun i o =>
                       mkStems (<[i := rd vocalsData i]> (vocalsLeft o))
                               (<[i := rd vocalsData (i + length)]> (vocalsRight o))
                               (<[i := rd accompanimentData i]> (accompanimentLeft o))
                               (<[i := rd accompanimentData (i + length)]>
                                  (accompanimentRight o)))
                    s)) as Htry.
  { unfold enhanceTry.
    destruct (tensor2d backend [vocalsLeft s; vocalsRight s] (2%nat, length))
      as [vt|]; cbn [mbind option_bind] in Hv |- *; [|discriminate].
    destruct (tensor2d backend [accompanimentLeft s; accompanimentRight s]
                (2%nat, length))
      as [at'|]; cbn [mbind option_bind] in Ha |- *; [|discriminate].
    destruct (tf_mul backend vt (12 # 10)) as [vs|];
      cbn [mbind option_bind] in Hv |- *; [|discriminate].
    destruct (tf_tanh backend vs) as [ve|];
      cbn [mbind option_bind] in Hv |- *; [|discriminate].
    destruct (tf_mul backend at' (11 # 10)) as [as'|];
      cbn [mbind option_bind] in Ha |- *; [|discriminate].
    destruct (tf_tanh backend as') as [ae|];
      cbn [mbind option_bind] in Ha |- *; [|discriminate].
    rewrite Hv, Ha. reflexivity. }
  cbn [enhance]. rewrite Htry.
  match goal with |- context [for_range 0 length ?body s] =>
    set (copy := body) end.
  assert (forall n, (n <= length)%nat ->
    let o := for_range 0 n copy s in
    List.length (vocalsLeft o) = length /\
    List.length (vocalsRight o) = length /\
    List.length (accompanimentLeft o) = length /\
    List.length (accompanimentRight o) = length /\
    forall i, (i < n)%nat ->
      rd (vocalsLeft o) i = rd vocalsData i /\
      rd (vocalsRight o) i = rd vocalsData (i + length) /\
      rd (accompanimentLeft o) i = rd accompanimentData i /\
      rd (accompanimentRight o) i = rd accompanimentData (i + length)) as Hloop.
  { intros n Hn. cbv zeta.
    apply (for_range_invariant (fun n o =>
      List.length (vocalsLeft o) = length /\
      List.length (vocalsRight o) = length /\
      List.length (accompanimentLeft o) = length /\
      List.length (accompanimentRight o) = length /\
      forall i, (i < n)%nat ->
        rd (vocalsLeft o) i = rd vocalsData i /\
        rd (vocalsRight o) i = rd vocalsData (i + length) /\
        rd (accompanimentLeft o) i = rd accompanimentData i /\
        rd (accompanimentRight o) i = rd accompanimentData (i + length))); [lia| |].
    - repeat (split; [assumption|]). intros i Hi. lia.
    - intros k o Hk (K1 & K2 & K3 & K4 & K). unfold copy.
      cbn [vocalsLeft vocalsRight accompanimentLeft accompanimentRight].
      rewrite !length_insert. repeat (split; [assumption|]).
      intros i Hi. destruct (decide (i = k)) as [->|Hne].
      + rewrite !rd_insert_eq by lia. auto.
      + rewrite !rd_insert_ne by lia. apply K. lia. }
  intros i Hi. apply (Hloop length (Nat.le_refl length)). exact Hi.
Qed.

(** X16: what a working backend's answer becomes.  When every call of the
    [try] block succeeds, the vocals go through [tensor2d], [mul] by 1.2,
    [tanh] and [data] and the accompaniment through the same with 1.1, and
    the four arrays are overwritten at every position: a left channel holds
    the first [length] numbers of its stem's data and the right channel the
    [length] numbers after them (the tensor's two rows), and nothing of the
    smoothed signals is kept. *)
Theorem enhancement_stores_the_backend_rows
    (backend : TensorBackend) (length : nat) (s : Stems)
    (vocalsData accompanimentData : list Q) :
  (vocalsTensor ← tensor2d backend [vocalsLeft s; vocalsRight s] (2%nat, length);
   vocalsScaled ← tf_mul backend vocalsTensor (12 # 10);
   vocalsEnhanced ← tf_tanh backend vocalsScaled;
   tf_data backend vocalsEnhanced) = Some vocalsData ->
  (accompanimentTensor ←
     tensor2d backend [accompanimentLeft s; accompanimentRight s] (2%nat, length);
   accompanimentScaled ← tf_mul backend accompanimentTensor (11 # 10);
   accompanimentEnhanced ← tf_tanh backend accompanimentScaled;
   tf_data backend accompanimentEnhanced) = Some accompanimentData ->
  List.length (vocalsLeft s) = length ->
  List.length (vocalsRight s) = length ->
  List.length (accompanimentLeft s) = length ->
  List.length (accompanimentRight s) = length ->
  let s' := enhance (Some backend) length s in
  forall i, (i < length)%nat ->
    rd (vocalsLeft s') i = rd vocalsData i /\
    rd (vocalsRight s') i = rd vocalsData (i + length) /\
    rd (accompanimentLeft s') i = rd accompanimentData i /\
    rd (accompanimentRight s') i = rd accompanimentData (i + length).
Proof.
  exact (enhance_rows backend length s vocalsData accompanimentData).
Qed.

Lemma enhancement_stores_the_backend_rows_witness :
  let s := mkStems [1; 2] [3; 4] [5; 6] [7; 8] in
  let s' := enhance (Some rowMajorBackend) 2 s in
  Forall2 Qeq (vocalsLeft s') [12 # 10; 24 # 10] /\
  Forall2 Qeq (vocalsRight s') [36 # 10; 48 # 10] /\
  Forall2 Qeq (accompanimentLeft s') [55 # 10; 66 # 10] /\
  Forall2 Qeq (accompanimentRight s') [77 # 10; 88 # 10] /\
  forall i, (i < 2)%nat ->
    rd (vocalsLeft s') i = rd [1 * (12 # 10); 2 * (12 # 10); 3 * (12 # 10); 4 * (12 # 10)] i /\
    rd (vocalsRight s') i
      = rd [1 * (12 # 10); 2 * (12 # 10); 3 * (12 # 10); 4 * (12 # 10)] (i + 2) /\
    rd (accompanimentLeft s') i
      = rd [5 * (11 # 10); 6 * (11 # 10); 7 * (11 # 10); 8 * (11 # 10)] i /\
    rd (accompanimentRight s') i
      = rd [5 * (11 # 10); 6 * (11 # 10); 7 * (11 # 10); 8 * (11 # 10)] (i + 2).
Proof.
  cbv zeta.
  do 4 (split; [vm_compute; repeat constructor|]).
  exact (enhancement_stores_the_backend_rows rowMajorBackend 2
           (mkStems [1; 2] [3; 4] [5; 6] [7; 8]) _ _
           eq_refl eq_refl eq_refl eq_refl eq_refl eq_refl).
Defined.

Lemma rd_app_l (a b : list Q) (i : nat) :
  (i < List.length a)%nat -> rd (a ++ b) i = rd a i.
Proof. intros H. unfold rd. rewrite lookup_app_l by exact H. reflexivity. Qed.

Lemma rd_app_r (a b : list Q) (i : nat) :
  rd (a ++ b) (i + List.length a) = rd b i.
Proof.
  unfold rd. rewrite lookup_app_r by lia.
  replace (i + List.length a - List.length a)%nat with i by lia. reflexivity.
Qed.

(** The two rows of a tensor built from two arrays of one length, after an
    entry-by-entry operation. *)
Lemma rd_rows (f : Q -> Q) (a b : list Q) (n i : nat) :
  List.length a = n -> List.length b = n -> (i < n)%nat ->
  rd (List.map f (a ++ b ++ [])) i = f (rd a i) /\
  rd (List.map f (a ++ b ++ [])) (i + n) = f (rd b i).
Proof.
  intros La Lb Hi. subst n. split.
  - rewrite rd_map by (rewrite length_app; lia). rewrite rd_app_l by exact Hi.
    reflexivity.
  - rewrite rd_map by (rewrite !length_app; cbn [List.length]; lia).
    rewrite rd_app_r, rd_app_l by lia. reflexivity.
Qed.

(** What the enhancement stores when the backend is an elementwise one. *)
Lemma enhance_elementwise (mul : Q -> Q -> Q) (tanh : Q -> Q) (length : nat) (s : Stems) :
  List.length (vocalsLeft s) = length ->
  List.length (vocalsRight s) = length ->
  List.length (accompanimentLeft s) = length ->
  List.length (accompanimentRight s) = length ->
  let s' := enhance (Some (elementwiseBackend mul tanh)) length s in
  forall i, (i < length)%nat ->
    rd (vocalsLeft s') i = tanh (mul (rd (vocalsLeft s) i) (12 # 10)) /\
    rd (vocalsRight s') i = tanh (mul (rd (vocalsRight s) i) (12 # 10)) /\
    rd (accompanimentLeft s') i = tanh (mul (rd (accompanimentLeft s) i) (11 # 10)) /\
    rd (accompanimentRight s') i = tanh (mul (rd (accompanimentRight s) i) (11 # 10)).
Proof.
  intros L1 L2 L3 L4. cbv zeta. intros i Hi.
  pose proof (enhance_rows (elementwiseBackend mul tanh) length s
    (List.map tanh (List.map (fun x => mul x (12 # 10))
                      (vocalsLeft s ++ vocalsRight s ++ [])))
    (List.map tanh (List.map (fun x => mul x (11 # 10))
                      (accompanimentLeft s ++ accompanimentRight s ++ [])))) as H.
  cbn [elementwiseBackend tensor2d tf_mul tf_tanh tf_data List.length forallb fst snd
       concat] in H.
  rewrite L1, L2, L3, L4, !Nat.eqb_refl in H.
  specialize (H eq_refl eq_refl eq_refl eq_refl eq_refl eq_refl i Hi).
  cbv zeta in H. destruct H as (H1 & H2 & H3 & H4).
  rewrite H1, H2, H3, H4.
  rewrite !List.map_map.
  destruct (rd_rows (fun x => tanh (mul x (12 # 10))) _ _ length i L1 L2 Hi) as (-> & ->).
  destruct (rd_rows (fun x => tanh (mul x (11 # 10))) _ _ length i L3 L4 Hi) as (-> & ->).
  auto.
Qed.

(** A stereo run, channel by channel: the arrays the enhancement leaves,
    normalized. *)
Lemma extractVocals_stereo (tf : option TensorBackend) (audioBuffer : AudioBuffer) :
  wf_buffer audioBuffer ->
  (2 <= numberOfChannels audioBuffer)%nat ->
  let length := bufferLength audioBuffer in
  let vocalsBuffer :=
    createBuffer (numberOfChannels audioBuffer) length (sampleRate audioBuffer) in
  let accompanimentBuffer :=
    createBuffer (numberOfChannels audioBuffer) length (sampleRate audioBuffer) in
  let s := enhance tf length
             (separateStereo audioBuffer vocalsBuffer accompanimentBuffer) in
  exists vocals accompaniment,
    extractVocals tf audioBuffer = Some (vocals, accompaniment) /\
    getChannelData vocals 0 = normalizeChannel length (vocalsLeft s) /\
    getChannelData vocals 1 = normalizeChannel length (vocalsRight s) /\
    getChannelData accompaniment 0 = normalizeChannel length (accompanimentLeft s) /\
    getChannelData accompaniment 1 = normalizeChannel length (accompanimentRight s).
Proof.
  intros Hwf Hst. cbv zeta.
  destruct (extractVocals_channels tf audioBuffer Hwf)
    as (vb & ab & v & a & Hsep & Hrun & _ & _ & _ & _ & _ & _ & _ & _ & Hch).
  rewrite separate_stereo in Hsep by exact Hst. cbv zeta in Hsep.
  match type of Hsep with Some (storeStems ?b1 ?b2 ?s) = _ =>
    assert (storeStems b1 b2 s = (vb, ab)) as Hbufs by congruence;
    destruct (storeStems_channels (numberOfChannels audioBuffer)
                (bufferLength audioBuffer) (sampleRate audioBuffer) s Hst)
      as (E1 & E2 & E3 & E4)
  end.
  cbv zeta in E1, E2, E3, E4. rewrite Hbufs in E1, E2, E3, E4.
  cbn [fst snd] in E1, E2, E3, E4.
  exists v, a. split; [exact Hrun|].
  destruct (Hch 0%nat ltac:(lia)) as (_ & _ & Ev0 & Ea0).
  destruct (Hch 1%nat ltac:(lia)) as (_ & _ & Ev1 & Ea1).
  rewrite Ev0, Ev1, Ea0, Ea1, E1, E2, E3, E4. auto.
Qed.

(** The peak of a non-empty channel whose samples all equal [v]. *)
Lemma peak_all_equal (d : list Q) (v : Q) :
  d <> [] -> (forall x, In x d -> x == v) -> peak d == Qabs v.
Proof.
  intros Hne Hall. apply Qle_antisym.
  - apply peak_le_bound; [apply Qabs_nonneg|]. intros x Hx.
    rewrite (Hall x Hx). apply Qle_refl.
  - destruct d as [|x d]; [congruence|].
    destruct (peak_spec (x :: d)) as (_ & Hub & _).
    specialize (Hub x ltac:(left; reflexivity)).
    rewrite <- (Hall x ltac:(left; reflexivity)). exact Hub.
Qed.

(** A channel of [n >= 1] samples that all equal [v]: the normalizer returns
    it with a peak of at most [|v|] and at most 0.9, and as it is when [|v|]
    is at most 0.9. *)
Lemma normalizeChannel_all_equal (d : list Q) (n : nat) (v : Q) :
  (1 <= n)%nat -> List.length d = n ->
  (forall i, (i < n)%nat -> rd d i == v) ->
  peak (normalizeChannel n d) <= Qabs v /\
  peak (normalizeChannel n d) <= 9 # 10 /\
  (Qabs v <= 9 # 10 ->
   peak (normalizeChannel n d) == Qabs v /\
   forall i, (i < n)%nat -> rd (normalizeChannel n d) i == v).
Proof.
  intros Hn Hd Hall.
  assert (peak d == Qabs v) as Hp.
  { apply peak_all_equal; [apply length_nonempty; lia|].
    apply (all_of_rd d n (fun x => x == v) Hd). exact Hall. }
  split; [|split].
  - destruct (normalizeChannel_gain d n Hd) as (g & Hg0 & Hg1 & Hg).
    apply peak_le_bound; [apply Qabs_nonneg|].
    apply (all_of_rd _ n (fun x => Qabs x <= Qabs v));
      [rewrite <- Hd at 1; rewrite normalizeChannel_length; exact Hd|].
    intros i Hi. rewrite (Hg i Hi), (Hall i Hi), Qabs_Qmult.
    rewrite (Qabs_pos g) by (apply Qlt_le_weak; exact Hg0).
    pose proof (Qabs_nonneg v). nra.
  - rewrite <- Hd. apply normalizeChannel_peak.
  - intros Hle. subst n.
    rewrite normalizeChannel_below_ceiling by (rewrite Hp; exact Hle).
    split; [exact Hp|exact Hall].
Qed.

Lemma wf_constantStereo (n : nat) (v : Q) : wf_buffer (constantStereo n v).
Proof.
  unfold wf_buffer, constantStereo. cbn [numberOfChannels bufferLength channels].
  split; [lia|]. split; [reflexivity|].
  repeat constructor; apply length_replicate.
Qed.

(** The run on [constantStereo n (1 # 2)] with a backend whose calls
    succeed. *)
Lemma constant_half_enhanced_run (n : nat) (mul : Q -> Q -> Q) (tanh : Q -> Q) :
  (1 <= n)%nat ->
  Proper (Qeq ==> Qeq ==> Qeq) mul -> Proper (Qeq ==> Qeq) tanh ->
  let v := tanh (mul (1 # 2) (12 # 10)) in
  let a := tanh (mul 0 (11 # 10)) in
  exists vocals accompaniment,
    extractVocals (Some (elementwiseBackend mul tanh)) (constantStereo n (1 # 2))
      = Some (vocals, accompaniment) /\
    forall channel, (channel < 2)%nat ->
      (peak (getChannelData vocals channel) <= Qabs v /\
       peak (getChannelData vocals channel) <= 9 # 10 /\
       (Qabs v <= 9 # 10 ->
        peak (getChannelData vocals channel) == Qabs v /\
        forall i, (i < n)%nat -> rd (getChannelData vocals channel) i == v)) /\
      (peak (getChannelData accompaniment channel) <= Qabs a /\
       peak (getChannelData accompaniment channel) <= 9 # 10 /\
       (Qabs a <= 9 # 10 ->
        peak (getChannelData accompaniment channel) == Qabs a /\
        forall i, (i < n)%nat -> rd (getChannelData accompaniment channel) i == a)).
Proof.
  intros Hn Hmul Htanh. cbv zeta.
  assert (2 <= numberOfChannels (constantStereo n (1 # 2)))%nat as Hst
    by (cbn [numberOfChannels constantStereo]; lia).
  destruct (extractVocals_stereo (Some (elementwiseBackend mul tanh))
              (constantStereo n (1 # 2)) (wf_constantStereo n (1 # 2)) Hst)
    as (vocals & accompaniment & Hrun & E1 & E2 & E3 & E4).
  destruct (constant_half_run n Hn) as (_ & Hstems & _).
  destruct (separateStereo_spec (constantStereo n (1 # 2)) Hst)
    as (L1 & L2 & L3 & L4 & _).
  cbv zeta in E1, E2, E3, E4, Hstems, L1, L2, L3, L4.
  cbn [bufferLength numberOfChannels sampleRate constantStereo]
    in E1, E2, E3, E4, Hstems, L1, L2, L3, L4.
  set (stems := separateStereo (constantStereo n (1 # 2))
                  (createBuffer 2 n 44100) (createBuffer 2 n 44100)) in *.
  pose proof (enhance_elementwise mul tanh n stems L1 L2 L3 L4) as Henh.
  destruct (enhance_lengths (Some (elementwiseBackend mul tanh)) n stems)
    as (K1 & K2 & K3 & K4).
  cbv zeta in Henh, K1, K2, K3, K4.
  set (s := enhance (Some (elementwiseBackend mul tanh)) n stems) in *.
  exists vocals, accompaniment. split; [exact Hrun|].
  intros channel Hc.
  assert (channel = 0 \/ channel = 1)%nat as [->| ->] by lia.
  - rewrite E1, E3. split.
    + apply normalizeChannel_all_equal; [exact Hn | congruence |].
      intros i Hi. destruct (Henh i Hi) as (-> & _).
      destruct (Hstems i Hi) as (-> & _). reflexivity.
    + apply normalizeChannel_all_equal; [exact Hn | congruence |].
      intros i Hi. destruct (Henh i Hi) as (_ & _ & -> & _).
      destruct (Hstems i Hi) as (_ & _ & -> & _). reflexivity.
  - rewrite E2, E4. split.
    + apply normalizeChannel_all_equal; [exact Hn | congruence |].
      intros i Hi. destruct (Henh i Hi) as (_ & -> & _).
      destruct (Hstems i Hi) as (_ & -> & _). reflexivity.
    + apply normalizeChannel_all_equal; [exact Hn | congruence |].
      intros i Hi. destruct (Henh i Hi) as (_ & _ & _ & ->).
      destruct (Hstems i Hi) as (_ & _ & _ & ->). reflexivity.
Qed.

Lemma tanhApprox_proper : Proper (Qeq ==> Qeq) tanhApprox.
Proof. intros x y E. unfold tanhApprox. rewrite E. reflexivity. Qed.

(** ** A constant stereo input, enhanced *)

(** C5 as stated fails on every path a run can take: on the two-second
    constant 0.5 input there is no run whose vocals come out with peak 0.9,
    neither without a backend, nor with a backend whose calls throw, nor with
    one whose calls succeed and whose [tanh] of the scaled sample
    ([tanh(0.6)], about 0.537) is below 0.9. *)
Lemma C5_counterexample :
  ~ (exists tf vocals accompaniment,
       (tf = None \/ tf = Some throwingBackend \/
        exists mul tanh,
          Proper (Qeq ==> Qeq ==> Qeq) mul /\ Proper (Qeq ==> Qeq) tanh /\
          Qabs (tanh (mul (1 # 2) (12 # 10))) < 9 # 10 /\
          tf = Some (elementwiseBackend mul tanh)) /\
       extractVocals tf halfStereo = Some (vocals, accompaniment) /\
       (peak (getChannelData vocals 0) == 9 # 10 \/
        peak (getChannelData vocals 1) == 9 # 10)).
Proof.
  intros (tf & vocals & accompaniment & Htf & Hrun & Hpeak).
  assert (1 <= Z.to_nat (2 * 44100))%nat as Hn by lia.
  assert (exists p, p < 9 # 10 /\
            peak (getChannelData vocals 0) <= p /\
            peak (getChannelData vocals 1) <= p) as (p & Hp & P0 & P1).
  { destruct Htf as [->|[->|(mul & tanh & Hmul & Htanh & Hlt & ->)]].
    - destruct (constant_half_run _ Hn)
        as (_ & _ & v & a & Hv & _ & _ & P0 & P1 & _).
      unfold halfStereo in Hrun. rewrite Hv in Hrun. injection Hrun as <- <-.
      exists (1 # 2). rewrite P0, P1. repeat split; discriminate.
    - destruct (constant_half_run _ Hn)
        as (_ & _ & v & a & _ & Hv & _ & P0 & P1 & _).
      unfold halfStereo in Hrun. rewrite Hv in Hrun. injection Hrun as <- <-.
      exists (1 # 2). rewrite P0, P1. repeat split; discriminate.
    - destruct (constant_half_enhanced_run _ mul tanh Hn Hmul Htanh)
        as (v & a & Hv & Hch).
      unfold halfStereo in Hrun. rewrite Hv in Hrun. injection Hrun as <- <-.
      exists (Qabs (tanh (mul (1 # 2) (12 # 10)))). split; [exact Hlt|].
      split; [apply (Hch 0%nat) | apply (Hch 1%nat)]; lia. }
  destruct Hpeak as [E|E]; rewrite E in *.
  - apply (Qlt_irrefl (9 # 10)). apply Qle_lt_trans with p; assumption.
  - apply (Qlt_irrefl (9 # 10)). apply Qle_lt_trans with p; assumption.
Qed.

(** C5, amended: on the two-second constant 0.5 stereo input the center is
    0.5 and both sides are 0 at every index, and the smoothed vocals are 0.5
    and the smoothed accompaniment 0 at every index.  When the enhancement
    is skipped (no backend, or one whose calls throw) the normalizer returns
    the buffers as they are: the vocals channels have peak 0.5 and the
    accompaniment channels peak 0.  When the backend's calls succeed, every
    vocals sample becomes [v = tanh(1.2 * 0.5)] and every accompaniment
    sample [a = tanh(1.1 * 0)], in the backend's own arithmetic: the
    returned vocals channels have a peak of at most [|v|] and at most 0.9,
    and hold [v] at every index, with peak [|v|], when [|v|] is at most 0.9
    (the hyperbolic tangent of 0.6 is about 0.537); the same holds of the
    accompaniment channels with [a] (the hyperbolic tangent of 0 is 0).  The
    normalizer never amplifies, so no run reaches a peak of 0.9 from
    below. *)
Theorem C5_constant_half_input_is_never_amplified :
  let left := getChannelData halfStereo 0 in
  let right := getChannelData halfStereo 1 in
  let length := bufferLength halfStereo in
  let vocalsBuffer := createBuffer 2 length 44100 in
  let accompanimentBuffer := createBuffer 2 length 44100 in
  let stems := separateStereo halfStereo vocalsBuffer accompanimentBuffer in
  (forall i, (i < length)%nat ->
     center left right i == 1 # 2 /\
     sideLeft left right i == 0 /\ sideRight left right i == 0) /\
  (forall i, (i < length)%nat ->
     rd (vocalsLeft stems) i == 1 # 2 /\ rd (vocalsRight stems) i == 1 # 2 /\
     rd (accompanimentLeft stems) i == 0 /\ rd (accompanimentRight stems) i == 0) /\
  (exists vocals accompaniment,
     extractVocals None halfStereo = Some (vocals, accompaniment) /\
     extractVocals (Some throwingBackend) halfStereo = Some (vocals, accompaniment) /\
     (vocals, accompaniment) = storeStems vocalsBuffer accompanimentBuffer stems /\
     peak (getChannelData vocals 0) == 1 # 2 /\
     peak (getChannelData vocals 1) == 1 # 2 /\
     peak (getChannelData accompaniment 0) == 0 /\
     peak (getChannelData accompaniment 1) == 0) /\
  (forall (mul : Q -> Q -> Q) (tanh : Q -> Q),
     Proper (Qeq ==> Qeq ==> Qeq) mul -> Proper (Qeq ==> Qeq) tanh ->
     let v := tanh (mul (1 # 2) (12 # 10)) in
     let a := tanh (mul 0 (11 # 10)) in
     exists vocals accompaniment,
       extractVocals (Some (elementwiseBackend mul tanh)) halfStereo
         = Some (vocals, accompaniment) /\
       forall channel, (channel < 2)%nat ->
         (peak (getChannelData vocals channel) <= Qabs v /\
          peak (getChannelData vocals channel) <= 9 # 10 /\
          (Qabs v <= 9 # 10 ->
           peak (getChannelData vocals channel) == Qabs v /\
           forall i, (i < length)%nat -> rd (getChannelData vocals channel) i == v)) /\
         (peak (getChannelData accompaniment channel) <= Qabs a /\
          peak (getChannelData accompaniment channel) <= 9 # 10 /\
          (Qabs a <= 9 # 10 ->
           peak (getChannelData accompaniment channel) == Qabs a /\
           forall i, (i < length)%nat ->
             rd (getChannelData accompaniment channel) i == a))).
Proof.
  cbv zeta. unfold halfStereo.
  assert (1 <= Z.to_nat (2 * 44100))%nat as Hn by lia.
  destruct (constant_half_run _ Hn) as (Hcs & Hst & Hskip).
  split; [exact Hcs|]. split; [exact Hst|]. split; [exact Hskip|].
  intros mul tanh Hmul Htanh.
  exact (constant_half_enhanced_run _ mul tanh Hn Hmul Htanh).
Qed.

(** The enhanced run with exact products and [tanhApprox] in the place of the
    hyperbolic tangent: every vocals sample is [tanhApprox (6 # 10)], which
    is 384/715, about 0.537, and the accompaniment stays silent. *)
Example constant_half_enhanced :
  exists vocals accompaniment,
    extractVocals (Some (elementwiseBackend Qmult tanhApprox)) halfStereo
      = Some (vocals, accompaniment) /\
    forall channel, (channel < 2)%nat ->
      peak (getChannelData vocals channel) == 384 # 715 /\
      peak (getChannelData accompaniment channel) == 0.
Proof.
  destruct (constant_half_enhanced_run (Z.to_nat (2 * 44100)) Qmult tanhApprox
              ltac:(lia) Qmult_comp tanhApprox_proper)
    as (v & a & Hrun & Hch).
  exists v, a. split; [exact Hrun|]. intros channel Hc.
  destruct (Hch channel Hc) as ((_ & _ & Hv) & (_ & _ & Ha)).
  split.
  - rewrite (proj1 (Hv ltac:(vm_compute; discriminate))). reflexivity.
  - rewrite (proj1 (Ha ltac:(vm_compute; discriminate))). reflexivity.
Qed.

(** The same run on four samples, computed. *)
Example constant_half_enhanced_four_samples :
  exists vocals accompaniment,
    extractVocals (Some (elementwiseBackend Qmult tanhApprox))
                  (constantStereo 4 (1 # 2))
      = Some (vocals, accompaniment) /\
    Forall (fun x => x == 384 # 715) (getChannelData vocals 0) /\
    Forall (fun x => x == 384 # 715) (getChannelData vocals 1) /\
    Forall (fun x => x == 0) (getChannelData accompaniment 0) /\
    Forall (fun x => x == 0) (getChannelData accompaniment 1).
Proof.
  eexists _, _. split; [vm_compute; reflexivity|].
  repeat split; vm_compute; repeat constructor.
Qed.

(** ** The two vocals channels *)

(** X4: the vocals of a stereo input are the same in both channels.  With
    no backend, with a backend one of whose calls throws, and with a backend
    whose calls succeed and work entry by entry, the two vocals channels
    returned for a stereo input are equal, sample for sample. *)
Theorem stereo_vocals_channels_are_identical
    (tf : option TensorBackend) (audioBuffer : AudioBuffer) :
  wf_buffer audioBuffer ->
  (2 <= numberOfChannels audioBuffer)%nat ->
  let length := bufferLength audioBuffer in
  let vocalsBuffer :=
    createBuffer (numberOfChannels audioBuffer) length (sampleRate audioBuffer) in
  let accompanimentBuffer :=
    createBuffer (numberOfChannels audioBuffer) length (sampleRate audioBuffer) in
  (tf = None \/
   (exists backend,
      tf = Some backend /\
      enhanceTry backend length
        (separateStereo audioBuffer vocalsBuffer accompanimentBuffer) = None) \/
   (exists mul tanh, tf = Some (elementwiseBackend mul tanh))) ->
  exists vocals accompaniment,
    extractVocals tf audioBuffer = Some (vocals, accompaniment) /\
    getChannelData vocals 1 = getChannelData vocals 0.
Proof.
  intros Hwf Hst. cbv zeta. intros Htf.
  destruct (extractVocals_stereo tf audioBuffer Hwf Hst)
    as (v & a & Hrun & E0 & E1 & _).
  cbv zeta in E0, E1. exists v, a. split; [exact Hrun|].
  rewrite E0, E1. f_equal.
  destruct (separateStereo_spec audioBuffer Hst) as (L1 & L2 & L3 & L4 & Hrd).
  cbv zeta in L1, L2, L3, L4, Hrd.
  destruct (enhance_lengths tf (bufferLength audioBuffer)
              (separateStereo audioBuffer
                 (createBuffer (numberOfChannels audioBuffer)
                    (bufferLength audioBuffer) (sampleRate audioBuffer))
                 (createBuffer (numberOfChannels audioBuffer)
                    (bufferLength audioBuffer) (sampleRate audioBuffer))))
    as (K1 & K2 & _).
  cbv zeta in K1, K2.
  apply rd_ext; [congruence|]. intros i Hi.
  assert (i < bufferLength audioBuffer)%nat as Hi' by congruence.
  destruct (Hrd i Hi') as (R1 & R2 & _).
  destruct Htf as [->|[(backend & -> & Hfail)|(mul & tanh & ->)]].
  - cbn [enhance]. congruence.
  - cbn [enhance]. rewrite Hfail. congruence.
  - destruct (enhance_elementwise mul tanh _ _ L1 L2 L3 L4 i Hi') as (-> & -> & _).
    congruence.
Qed.

Lemma stereo_vocals_channels_are_identical_witness :
  wf_buffer stereo3 /\
  (2 <= numberOfChannels stereo3)%nat /\
  (Some (elementwiseBackend Qmult tanhApprox) = None \/
   (exists backend,
      Some (elementwiseBackend Qmult tanhApprox) = Some backend /\
      enhanceTry backend 3
        (separateStereo stereo3 (createBuffer 2 3 44100) (createBuffer 2 3 44100))
        = None) \/
   (exists mul tanh,
      Some (elementwiseBackend Qmult tanhApprox) = Some (elementwiseBackend mul tanh))) /\
  exists vocals accompaniment,
    extractVocals (Some (elementwiseBackend Qmult tanhApprox)) stereo3
      = Some (vocals, accompaniment) /\
    getChannelData vocals 1 = getChannelData vocals 0.
Proof.
  assert (2 <= numberOfChannels stereo3)%nat as Hn by (simpl; lia).
  assert (exists mul tanh,
            Some (elementwiseBackend Qmult tanhApprox)
            = Some (elementwiseBackend mul tanh)) as Hb
    by (exists Qmult, tanhApprox; reflexivity).
  split; [exact wf_stereo3|]. split; [exact Hn|].
  split; [right; right; exact Hb|].
  exact (stereo_vocals_channels_are_identical
           (Some (elementwiseBackend Qmult tanhApprox)) stereo3 wf_stereo3 Hn
           (or_intror (or_intror Hb))).
Defined.

(** The vocals of [stereo3] after the enhancement, computed: both channels
    hold the same three numbers. *)
Example stereo3_enhanced_vocals :
  exists vocals accompaniment,
    extractVocals (Some (elementwiseBackend Qmult tanhApprox)) stereo3
      = Some (vocals, accompaniment) /\
    getChannelData vocals 0 = getChannelData vocals 1 /\
    List.length (getChannelData vocals 0) = 3%nat.
Proof. eexists _, _. split; [vm_compute; reflexivity|]. split; reflexivity. Qed.

(** ** Before the engine is loaded *)

Lemma engineLoaded_onFileChange (m : Machine) (change : FileChange) :
  engineLoaded (onFileChange m change) = engineLoaded m.
Proof. destruct change; reflexivity. Qed.

(** X17: until the engine is loaded the page is inert.  In every state the
    page can reach with [engineLoaded] still false, no file is selected, no
    run is or was in progress (no result, progress 0, nothing in flight),
    the upload control is in its initial state, and the only events that
    can happen are the two outcomes of the engine's initialization. *)
Theorem page_is_inert_until_the_engine_is_loaded (p : Page) :
  pageReachable p ->
  engineLoaded (component p) = false ->
  inputFile (extraction (component p)) = None /\
  isProcessing (extraction (component p)) = false /\
  result (extraction (component p)) = None /\
  progress (extraction (component p)) = 0%Z /\
  inFlight (component p) = 0%nat /\
  uploadControl p = mkUploadState None false /\
  forall e, enabled p e = true -> e = EngineReady \/ e = EngineFailed.
Proof.
  intros Hr.
  assert (engineLoaded (component p) = false ->
          inputFile (extraction (component p)) = None /\
          isProcessing (extraction (component p)) = false /\
          result (extraction (component p)) = None /\
          progress (extraction (component p)) = 0%Z /\
          inFlight (component p) = 0%nat /\
          uploadControl p = mkUploadState None false) as Hinv.
  { induction Hr as [|p e Hr IH Hen]; [intros _; repeat split|].
    destruct e; cbn [enabled] in Hen; cbn [handle component uploadControl];
      unfold invoke; rewrite ?engineLoaded_onFileChange; cbn [engineLoaded extraction];
      intros Hoff; try (rewrite Hoff in Hen; discriminate).
    - destruct (IH Hoff) as (_ & _ & _ & _ & F & _). rewrite F in Hen. discriminate.
    - destruct (IH Hoff) as (_ & _ & _ & _ & F & _). rewrite F in Hen. discriminate.
    - exact (IH Hoff). }
  intros Hoff. destruct (Hinv Hoff) as (I1 & I2 & I3 & I4 & I5 & I6).
  repeat (split; [assumption|]).
  intros e Hen. destruct e; cbn [enabled] in Hen; auto;
    try (rewrite Hoff in Hen; discriminate); rewrite I5 in Hen; discriminate.
Qed.

Lemma page_is_inert_until_the_engine_is_loaded_witness :
  pageReachable (handle initialPage EngineFailed) /\
  engineLoaded (component (handle initialPage EngineFailed)) = false /\
  error (extraction (component (handle initialPage EngineFailed)))
    = Some "Failed to initialize AI processing engine"%string /\
  inputFile (extraction (component (handle initialPage EngineFailed))) = None /\
  isProcessing (extraction (component (handle initialPage EngineFailed))) = false /\
  result (extraction (component (handle initialPage EngineFailed))) = None /\
  progress (extraction (component (handle initialPage EngineFailed))) = 0%Z /\
  inFlight (component (handle initialPage EngineFailed)) = 0%nat /\
  uploadControl (handle initialPage EngineFailed) = mkUploadState None false /\
  forall e, enabled (handle initialPage EngineFailed) e = true ->
    e = EngineReady \/ e = EngineFailed.
Proof.
  assert (pageReachable (handle initialPage EngineFailed)) as Hr
    by (apply pageReachable_step; [apply pageReachable_initial | reflexivity]).
  split; [exact Hr|]. split; [reflexivity|]. split; [reflexivity|].
  exact (page_is_inert_until_the_engine_is_loaded _ Hr eq_refl).
Defined.

(** ** How a run can fail *)

(** X18: the separation and the encoding never fail a run.  For a file that
    decodes to a well-formed buffer, or does not decode at all, the promise
    of [processAudioWithAI] resolves with two stems exactly when the 30
    second timer did not fire first and the file was read and decoded, for
    every backend, working or not.  In every other case it rejects, and the
    [onload] handler of [handleExtractVocals] then shows the fault's
    message: the timer's, whatever else happened, else the reader's or the
    decoder's, or "Failed to extract vocals" for a fault without a message;
    the result is left as it was, and the run is over. *)
Theorem a_run_fails_only_before_the_separation
    (tf : option TensorBackend) (outputFormat : AudioFormat)
    (timedOut : bool) (read : ReadOutcome)
    (s : ExtractionState) (originalBase64 : string) :
  (forall audioBuffer, read = ReadLoaded (Decoded audioBuffer) -> wf_buffer audioBuffer) ->
  let settled := processAudioWithAI tf outputFormat timedOut read in
  let s' := readerOnload s originalBase64 settled in
  ((exists vocals64 accompaniment64, settled = Stems64 vocals64 accompaniment64) <->
   timedOut = false /\ exists audioBuffer, read = ReadLoaded (Decoded audioBuffer)) /\
  (timedOut = true ->
   error s' = Some "Audio processing timed out after 30 seconds"%string) /\
  (timedOut = false -> read = ReadFailed ->
   error s' = Some "Failed to read audio file"%string) /\
  (timedOut = false -> read = ReadLoaded DecodeTimedOut ->
   error s' = Some "Audio decoding timed out"%string) /\
  (forall message, timedOut = false ->
     read = ReadLoaded (DecodeRejected message) \/ read = ContextThrew message ->
     error s' = Some (default "Failed to extract vocals"%string message)) /\
  ((forall vocals64 accompaniment64, settled <> Stems64 vocals64 accompaniment64) ->
   result s' = result s /\ error s' <> None) /\
  isProcessing s' = false /\ progress s' = 0%Z /\ inputFile s' = inputFile s.
Proof.
  intros Hwf. cbv zeta. unfold processAudioWithAI.
  destruct timedOut.
  { split; [split; [intros (v & a & H); discriminate | intros (H & _); discriminate]|].
    cbn. repeat split; try discriminate; auto. }
  destruct read as [message| |[audioBuffer|message|]].
  - split; [split; [intros (v & a & H); discriminate
                   | intros (_ & b & H); discriminate]|].
    cbn. repeat split; try discriminate; auto.
    intros m _ [H|H]; congruence.
  - split; [split; [intros (v & a & H); discriminate
                   | intros (_ & b & H); discriminate]|].
    cbn. repeat split; try discriminate; auto.
    intros m _ [H|H]; discriminate.
  - destruct (extractVocals_channels tf audioBuffer (Hwf audioBuffer eq_refl))
      as (vb & ab & v & a & _ & Hrun & _).
    rewrite Hrun.
    split; [split; [intros _; split; [reflexivity|]; eexists; reflexivity
                   | intros _; eexists _, _; reflexivity]|].
    cbn. repeat split; try discriminate; auto.
    + intros m _ [H|H]; discriminate.
    + exfalso. eapply H. reflexivity.
    + exfalso. eapply H. reflexivity.
  - split; [split; [intros (v & a & H); discriminate
                   | intros (_ & b & H); discriminate]|].
    cbn. repeat split; try discriminate; auto.
    intros m _ [H|H]; congruence.
  - split; [split; [intros (v & a & H); discriminate
                   | intros (_ & b & H); discriminate]|].
    cbn. repeat split; try discriminate; auto.
    intros m _ [H|H]; discriminate.
Qed.

Lemma a_run_fails_only_before_the_separation_witness :
  (forall audioBuffer,
     ReadLoaded (Decoded stereo3) = ReadLoaded (Decoded audioBuffer) ->
     wf_buffer audioBuffer) /\
  let settled := processAudioWithAI None wav false (ReadLoaded (Decoded stereo3)) in
  let s' := readerOnload busyState "b3JpZw==" settled in
  ((exists vocals64 accompaniment64, settled = Stems64 vocals64 accompaniment64) <->
   false = false /\
   exists audioBuffer, ReadLoaded (Decoded stereo3) = ReadLoaded (Decoded audioBuffer)) /\
  (false = true ->
   error s' = Some "Audio processing timed out after 30 seconds"%string) /\
  (false = false -> ReadLoaded (Decoded stereo3) = ReadFailed ->
   error s' = Some "Failed to read audio file"%string) /\
  (false = false -> ReadLoaded (Decoded stereo3) = ReadLoaded DecodeTimedOut ->
   error s' = Some "Audio decoding timed out"%string) /\
  (forall message, false = false ->
     ReadLoaded (Decoded stereo3) = ReadLoaded (DecodeRejected message) \/
     ReadLoaded (Decoded stereo3) = ContextThrew message ->
     error s' = Some (default "Failed to extract vocals"%string message)) /\
  ((forall vocals64 accompaniment64, settled <> Stems64 vocals64 accompaniment64) ->
   result s' = result busyState /\ error s' <> None) /\
  isProcessing s' = false /\ progress s' = 0%Z /\ inputFile s' = inputFile busyState.
Proof.
  assert (forall audioBuffer,
            ReadLoaded (Decoded stereo3) = ReadLoaded (Decoded audioBuffer) ->
            wf_buffer audioBuffer) as Hwf
    by (intros b H; injection H as <-; exact wf_stereo3).
  split; [exact Hwf|].
  exact (a_run_fails_only_before_the_separation None wav false
           (ReadLoaded (Decoded stereo3)) busyState "b3JpZw==" Hwf).
Defined.

(** The faults of a run and what the user is shown, computed. *)
Example run_faults :
  let shown := fun timedOut read =>
    error (readerOnload busyState "b3JpZw=="
             (processAudioWithAI (Some throwingBackend) mp3 timedOut read)) in
  shown true (ReadLoaded (Decoded stereo3))
    = Some "Audio processing timed out after 30 seconds"%string /\
  shown false ReadFailed = Some "Failed to read audio file"%string /\
  shown false (ReadLoaded DecodeTimedOut) = Some "Audio decoding timed out"%string /\
  shown false (ReadLoaded (DecodeRejected (Some "Unable to decode audio data"%string)))
    = Some "Unable to decode audio data"%string /\
  shown false (ContextThrew None) = Some "Failed to extract vocals"%string /\
  shown false (ReadLoaded (Decoded stereo3)) = None.
Proof. cbv zeta. repeat split; vm_compute; reflexivity. Qed.

(** ** Left and right *)

Lemma smoothed_eq (x y : nat -> Q) (i : nat) :
  (forall j, (j <= i)%nat -> y j == x j) -> smoothed y i == smoothed x i.
Proof.
  induction i as [|i IH]; intros H; cbn [smoothed].
  - apply H. lia.
  - rewrite IH by (intros j Hj; apply H; lia). rewrite (H (S i)) by lia. reflexivity.
Qed.

Lemma peak_eq (d e : list Q) (n : nat) :
  List.length d = n -> List.length e = n ->
  (forall i, (i < n)%nat -> rd e i == rd d i) ->
  peak e == peak d.
Proof.
  intros Hd He H.
  destruct (peak_spec d) as (Hd0 & _ & _). destruct (peak_spec e) as (He0 & _ & _).
  apply Qle_antisym; apply peak_le_bound; try assumption.
  - apply (all_of_rd e n (fun x => Qabs x <= peak d) He). intros i Hi.
    rewrite (H i Hi). apply Qabs_rd_le_peak.
  - apply (all_of_rd d n (fun x => Qabs x <= peak e) Hd). intros i Hi.
    rewrite <- (H i Hi). apply Qabs_rd_le_peak.
Qed.

(** The normalizer takes equal channels to equal channels. *)
Lemma normalizeChannel_eq (d e : list Q) (n : nat) :
  List.length d = n -> List.length e = n ->
  (forall i, (i < n)%nat -> rd e i == rd d i) ->
  forall i, (i < n)%nat -> rd (normalizeChannel n e) i == rd (normalizeChannel n d) i.
Proof.
  intros Hd He H i Hi. pose proof (peak_eq d e n Hd He H) as Hp.
  rewrite <- Hd at 2. rewrite <- He at 1.
  destruct (Qlt_le_dec 0 (peak d)) as [Pd|Pd].
  - assert (0 < peak e) as Pe by (rewrite Hp; exact Pd).
    rewrite !normalizeChannel_scaled by assumption.
    rewrite !rd_map by lia. rewrite (H i Hi).
    unfold gainFor. rewrite Hp. reflexivity.
  - assert (~ 0 < peak d) as Nd by (intros C; apply (Qlt_not_le _ _ C Pd)).
    assert (~ 0 < peak e) as Ne by (rewrite Hp; exact Nd).
    rewrite !normalizeChannel_silent by assumption. apply H. exact Hi.
Qed.

(** X19: left and right are treated alike.  Without the enhancement, the
    same stereo input with channels 0 and 1 exchanged comes back with the
    same vocals and with the two accompaniment channels exchanged. *)
Theorem exchanging_the_input_channels_exchanges_the_accompaniment
    (audioBuffer exchanged : AudioBuffer) :
  wf_buffer audioBuffer ->
  wf_buffer exchanged ->
  (2 <= numberOfChannels audioBuffer)%nat ->
  numberOfChannels exchanged = numberOfChannels audioBuffer ->
  bufferLength exchanged = bufferLength audioBuffer ->
  getChannelData exchanged 0 = getChannelData audioBuffer 1 ->
  getChannelData exchanged 1 = getChannelData audioBuffer 0 ->
  exists vocals accompaniment vocals' accompaniment',
    extractVocals None audioBuffer = Some (vocals, accompaniment) /\
    extractVocals None exchanged = Some (vocals', accompaniment') /\
    forall i, (i < bufferLength audioBuffer)%nat ->
      rd (getChannelData vocals' 0) i == rd (getChannelData vocals 0) i /\
      rd (getChannelData vocals' 1) i == rd (getChannelData vocals 1) i /\
      rd (getChannelData accompaniment' 0) i == rd (getChannelData accompaniment 1) i /\
      rd (getChannelData accompaniment' 1) i == rd (getChannelData accompaniment 0) i.
Proof.
  intros Hwf Hwf' Hst Hn HL H0 H1.
  destruct (extractVocals_basic_stereo audioBuffer Hwf Hst)
    as (v & a & vl & vr & al & ar & Hrun & (L1 & L2 & L3 & L4) & Hrd
        & E1 & E2 & E3 & E4).
  destruct (extractVocals_basic_stereo exchanged Hwf' ltac:(lia))
    as (v' & a' & vl' & vr' & al' & ar' & Hrun' & (L1' & L2' & L3' & L4') & Hrd'
        & E1' & E2' & E3' & E4').
  cbv zeta in *. rewrite HL, H0, H1 in *.
  exists v, a, v', a'. split; [exact Hrun|]. split; [exact Hrun'|].
  set (left := getChannelData audioBuffer 0) in *.
  set (right := getChannelData audioBuffer 1) in *.
  intros i Hi. rewrite E1, E2, E3, E4, E1', E2', E3', E4'.
  repeat split; apply normalizeChannel_eq; try assumption.
  all: intros k Hk; destruct (Hrd k Hk) as (R1 & R2 & R3 & R4);
    destruct (Hrd' k Hk) as (R1' & R2' & R3' & R4').
  all: rewrite ?R1', ?R2', ?R3', ?R4', ?R1, ?R2, ?R3, ?R4.
  all: apply smoothed_eq; intros j _; unfold sideLeft, sideRight, center; field.
Qed.

Lemma wf_stereo3swapped : wf_buffer stereo3swapped.
Proof. unfold wf_buffer. simpl. repeat split; [lia|]. repeat constructor. Qed.

Lemma exchanging_the_input_channels_exchanges_the_accompaniment_witness :
  wf_buffer stereo3 /\
  wf_buffer stereo3swapped /\
  (2 <= numberOfChannels stereo3)%nat /\
  numberOfChannels stereo3swapped = numberOfChannels stereo3 /\
  bufferLength stereo3swapped = bufferLength stereo3 /\
  getChannelData stereo3swapped 0 = getChannelData stereo3 1 /\
  getChannelData stereo3swapped 1 = getChannelData stereo3 0 /\
  exists vocals accompaniment vocals' accompaniment',
    extractVocals None stereo3 = Some (vocals, accompaniment) /\
    extractVocals None stereo3swapped = Some (vocals', accompaniment') /\
    forall i, (i < 3)%nat ->
      rd (getChannelData vocals' 0) i == rd (getChannelData vocals 0) i /\
      rd (getChannelData vocals' 1) i == rd (getChannelData vocals 1) i /\
      rd (getChannelData accompaniment' 0) i == rd (getChannelData accompaniment 1) i /\
      rd (getChannelData accompaniment' 1) i == rd (getChannelData accompaniment 0) i.
Proof.
  assert (2 <= numberOfChannels stereo3)%nat as Hn by (simpl; lia).
  split; [exact wf_stereo3|]. split; [exact wf_stereo3swapped|]. split; [exact Hn|].
  do 4 (split; [reflexivity|]).
  exact (exchanging_the_input_channels_exchanges_the_accompaniment
           stereo3 stereo3swapped wf_stereo3 wf_stereo3swapped Hn
           eq_refl eq_refl eq_refl eq_refl).
Defined.

(** ** Samples at and beyond full scale *)

Lemma truncate_floor (q : Q) : 0 <= q -> truncate q = Qfloor q.
Proof.
  destruct q as [a b]. unfold truncate, Qfloor, Qle. cbn [Qnum Qden]. intros H.
  apply Z.quot_div_nonneg; lia.
Qed.

Lemma truncate_opp (q : Q) : truncate (- q) = (- truncate q)%Z.
Proof. destruct q as [a b]. unfold truncate. cbn. apply Z.quot_opp_l. lia. Qed.

Lemma truncate_monotone (p q : Q) : p <= q -> (truncate p <= truncate q)%Z.
Proof.
  intros H. pose proof (truncate_opp p) as Op. pose proof (truncate_opp q) as Oq.
  destruct (Qlt_le_dec p 0) as [Hp|Hp], (Qlt_le_dec q 0) as [Hq|Hq].
  - rewrite (truncate_floor (- p)) in Op by lra.
    rewrite (truncate_floor (- q)) in Oq by lra.
    pose proof (Qfloor_resp_le (- q) (- p) ltac:(lra)). lia.
  - rewrite (truncate_floor (- p)) in Op by lra. rewrite (truncate_floor q) by exact Hq.
    pose proof (Qfloor_resp_le 0 (- p) ltac:(lra)).
    pose proof (Qfloor_resp_le 0 q Hq). change (Qfloor 0) with 0%Z in *. lia.
  - lra.
  - rewrite !truncate_floor by assumption. apply Qfloor_resp_le. exact H.
Qed.

Lemma clamp_high (x : Q) : 1 <= x -> Qmax (-1) (Qmin 1 x) = 1.
Proof.
  intros H. unfold Qmax, Qmin, GenericMinMax.gmax, GenericMinMax.gmin.
  destruct (1 ?= x) eqn:C; try reflexivity.
  apply Qgt_alt in C. lra.
Qed.

Lemma clamp_low (x : Q) : x <= -1 -> Qmax (-1) (Qmin 1 x) = -1.
Proof.
  intros H. unfold Qmax, Qmin, GenericMinMax.gmax, GenericMinMax.gmin.
  assert ((1 ?= x) = Gt) as -> by (apply Qgt_alt; lra).
  destruct (-1 ?= x) eqn:C; try reflexivity.
  apply Qlt_alt in C. lra.
Qed.

Lemma clamp_monotone (x y : Q) :
  x <= y -> Qmax (-1) (Qmin 1 x) <= Qmax (-1) (Qmin 1 y).
Proof.
  intros H. apply Q.max_le_compat_l. apply Q.min_le_compat_l. exact H.
Qed.

(** X20: full scale and beyond.  A sample of 1 or more is stored as 32767
    and a sample of -1 or less as -32767 (never -32768); a zero sample is
    stored as 0; and the stored numbers keep the order of the samples:
    wherever one sample of a buffer is at most another, so are the numbers
    stored for them. *)
Theorem wav_samples_saturate_and_keep_their_order
    (audioBuffer : AudioBuffer) (i c i' c' : nat) :
  (i < bufferLength audioBuffer)%nat ->
  (c < numberOfChannels audioBuffer)%nat ->
  (i' < bufferLength audioBuffer)%nat ->
  (c' < numberOfChannels audioBuffer)%nat ->
  let stored := fun i c =>
    getInt16 (wavBytes audioBuffer) (44 + 2 * (i * numberOfChannels audioBuffer + c)) in
  let x := rd (getChannelData audioBuffer c) i in
  let y := rd (getChannelData audioBuffer c') i' in
  (1 <= x -> stored i c = 32767%Z) /\
  (x <= -1 -> stored i c = (-32767)%Z) /\
  (x == 0 -> stored i c = 0%Z) /\
  (x <= y -> (stored i c <= stored i' c')%Z).
Proof.
  intros Hi Hc Hi' Hc'. cbv beta zeta.
  rewrite !wavBytes_sample by assumption.
  split; [|split; [|split]].
  - intros H. rewrite clamp_high by exact H. reflexivity.
  - intros H. rewrite clamp_low by exact H. reflexivity.
  - intros H. rewrite clamp_inside by (rewrite H; reflexivity).
    destruct (rd (getChannelData audioBuffer c) i) as [a b].
    unfold Qeq in H. cbn in H. assert (a = 0%Z) as -> by lia. reflexivity.
  - intros H. apply truncate_monotone.
    apply Qmult_le_compat_r; [apply clamp_monotone; exact H | discriminate].
Qed.

Lemma wav_samples_saturate_and_keep_their_order_witness :
  (1 < bufferLength clipping2x3)%nat /\
  (0 < numberOfChannels clipping2x3)%nat /\
  (0 < bufferLength clipping2x3)%nat /\
  let stored := fun i c => getInt16 (wavBytes clipping2x3) (44 + 2 * (i * 2 + c)) in
  (1 <= -1 -> stored 1%nat 0%nat = 32767%Z) /\
  (-1 <= -1 -> stored 1%nat 0%nat = (-32767)%Z) /\
  (-1 == 0 -> stored 1%nat 0%nat = 0%Z) /\
  (-1 <= 2 -> (stored 1%nat 0%nat <= stored 0%nat 0%nat)%Z).
Proof.
  assert (1 < bufferLength clipping2x3)%nat as H1 by (simpl; lia).
  assert (0 < numberOfChannels clipping2x3)%nat as Hc by (simpl; lia).
  assert (0 < bufferLength clipping2x3)%nat as H0 by (simpl; lia).
  split; [exact H1|]. split; [exact Hc|]. split; [exact H0|].
  exact (wav_samples_saturate_and_keep_their_order clipping2x3 1 0 0 0 H1 Hc H0 Hc).
Defined.

(** The container of [clipping2x3], whose first channel holds 2, -1 and
    0.5: the numbers stored for it. *)
Example clipping2x3_stored :
  List.map (fun i => getInt16 (wavBytes clipping2x3) (44 + 2 * (i * 2)))
           [0; 1; 2]%nat
    = [32767; -32767; 16383]%Z.
Proof. vm_compute. reflexivity. Qed.

(** * The job store *)

Lemma isJobRunning_lookup (id : string) (state state' : TTSStore) :
  jobs state' !! id = jobs state !! id -> isJobRunning id state' = isJobRunning id state.
Proof. unfold isJobRunning. intros ->. reflexivity. Qed.

Lemma jobs_updateJobStatus (id : string) (status : StoreStatus)
    (result : option Output) (error : option string) (now : Z) (state : TTSStore) :
  jobs (updateJobStatus id status result error now state) !! id
    = Some (mkJobStatus (jobs state !! id ≫= jobId) status result error
              (jobs state !! id ≫= createdAt) now) /\
  forall other, other <> id ->
    jobs (updateJobStatus id status result error now state) !! other
      = jobs state !! other.
Proof.
  unfold updateJobStatus. cbn [jobs]. split.
  - apply lookup_insert_eq.
  - intros other Hne. apply lookup_insert_ne. congruence.
Qed.

(** X21: a job from its start through an update.  After [startJob] and any
    later [updateJobStatus] for the same id, the store holds for that id a
    job with this id, the creation date of the start, the update's status,
    result, error and date, and it is the current job; whether it counts as
    running depends on the new status alone; every other job is as it was,
    through both actions.  Starting an id again replaces what the store held
    for it by a fresh pending job. *)
Theorem a_started_job_keeps_its_identity_through_updates
    (id : string) (created updated : Z) (status : StoreStatus)
    (result : option Output) (error : option string) (state : TTSStore) :
  let started := startJob id created state in
  let state' := updateJobStatus id status result error updated started in
  jobs started !! id = Some (mkJobStatus (Some id) pending None None (Some created) created) /\
  isJobRunning id started = true /\
  jobs state' !! id
    = Some (mkJobStatus (Some id) status result error (Some created) updated) /\
  currentJobId state' = Some id /\
  (id <> EmptyString ->
   getCurrentJob state'
     = Some (mkJobStatus (Some id) status result error (Some created) updated)) /\
  isJobRunning id state'
    = match status with pending | running => true | completed | failed => false end /\
  forall other, other <> id ->
    jobs state' !! other = jobs state !! other /\
    isJobRunning other state' = isJobRunning other state.
Proof.
  cbv zeta.
  assert (jobs (startJob id created state) !! id
          = Some (mkJobStatus (Some id) pending None None (Some created) created)) as Hs
    by apply lookup_insert_eq.
  destruct (jobs_updateJobStatus id status result error updated
              (startJob id created state)) as (Hu & Hframe).
  rewrite Hs in Hu. cbn [mbind option_bind jobId createdAt] in Hu.
  split; [exact Hs|]. split; [unfold isJobRunning; rewrite Hs; reflexivity|].
  split; [exact Hu|]. split; [reflexivity|]. split; [|split].
  - intros Hne. unfold getCurrentJob. cbn [currentJobId updateJobStatus startJob].
    destruct id; [congruence|]. cbn [isEmpty]. exact Hu.
  - unfold isJobRunning. rewrite Hu. reflexivity.
  - intros other Hne.
    assert (jobs (updateJobStatus id status result error updated
                    (startJob id created state)) !! other = jobs state !! other) as E.
    { rewrite (Hframe other Hne). unfold startJob. cbn [jobs].
      apply lookup_insert_ne. congruence. }
    split; [exact E | exact (isJobRunning_lookup other _ _ E)].
Qed.

(** X22: an update for a job the store does not hold.  After [clearJob] the
    store holds nothing for the id, the job is not running, and it is no
    longer the current job; an [updateJobStatus] that arrives afterwards, or
    for any id the store has no entry for, puts an entry back that has the
    status, result and error given but neither an id nor a creation date,
    and leaves the current job id alone. *)
Theorem an_update_for_a_missing_job_leaves_a_job_without_identity
    (id : string) (status : StoreStatus) (result : option Output)
    (error : option string) (now : Z) (state : TTSStore) :
  let cleared := clearJob id state in
  jobs cleared !! id = None /\
  isJobRunning id cleared = false /\
  currentJobId cleared <> Some id /\
  (currentJobId state <> Some id -> currentJobId cleared = currentJobId state) /\
  (forall other, other <> id -> jobs cleared !! other = jobs state !! other) /\
  (forall s, jobs s !! id = None ->
     jobs (updateJobStatus id status result error now s) !! id
       = Some (mkJobStatus None status result error None now) /\
     currentJobId (updateJobStatus id status result error now s) = currentJobId s) /\
  jobs (updateJobStatus id status result error now cleared) !! id
    = Some (mkJobStatus None status result error None now).
Proof.
  cbv zeta.
  assert (jobs (clearJob id state) !! id = None) as Hc
    by (unfold clearJob; cbn [jobs]; apply lookup_delete_eq).
  assert (forall s, jobs s !! id = None ->
            jobs (updateJobStatus id status result error now s) !! id
              = Some (mkJobStatus None status result error None now)) as Hu.
  { intros s Hs. destruct (jobs_updateJobStatus id status result error now s) as (E & _).
    rewrite Hs in E. exact E. }
  split; [exact Hc|]. split; [unfold isJobRunning; rewrite Hc; reflexivity|].
  split; [|split; [|split; [|split]]].
  - unfold clearJob. cbn [currentJobId].
    destruct (bool_decide (currentJobId state = Some id)) eqn:E; [discriminate|].
    apply bool_decide_eq_false in E. exact E.
  - intros Hne. unfold clearJob. cbn [currentJobId].
    rewrite bool_decide_eq_false_2 by exact Hne. reflexivity.
  - intros other Hne. unfold clearJob. cbn [jobs]. apply lookup_delete_ne. congruence.
  - intros s Hs. split; [exact (Hu s Hs) | reflexivity].
  - exact (Hu _ Hc).
Qed.

(** The two samples, computed: the finished job and the one being polled,
    and what a late update makes of a cleared job. *)
Example twoJobs_state :
  jobs twoJobs !! "job-1"%string
    = Some (mkJobStatus (Some "job-1"%string) completed (Some "{}"%string) None
              (Some 10%Z) 30) /\
  getCurrentJob twoJobs
    = Some (mkJobStatus (Some "job-2"%string) pending None None (Some 20%Z) 20) /\
  isJobRunning "job-1" twoJobs = false /\
  isJobRunning "job-2" twoJobs = true /\
  getCurrentJob (clearJob "job-2" twoJobs) = None /\
  jobs (updateJobStatus "job-2" running None None 40 (clearJob "job-2" twoJobs))
    !! "job-2"%string
    = Some (mkJobStatus None running None None None 40).
Proof. repeat split; vm_compute; reflexivity. Qed.

(** ** Polling *)

Lemma storeStatusOf_cases (status : string) :
  (status = "IN_QUEUE"%string /\ storeStatusOf status = pending) \/
  (status = "IN_PROGRESS"%string /\ storeStatusOf status = running) \/
  (status = "COMPLETED"%string /\ storeStatusOf status = completed) \/
  (status = "FAILED"%string /\ storeStatusOf status = failed) \/
  (status = "CANCELLED"%string /\ storeStatusOf status = failed) \/
  (status <> "IN_QUEUE"%string /\ status <> "IN_PROGRESS"%string /\
   status <> "COMPLETED"%string /\ status <> "FAILED"%string /\
   status <> "CANCELLED"%string /\ storeStatusOf status = pending).
Proof.
  unfold storeStatusOf.
  destruct (String.eqb_spec status "IN_QUEUE") as [->|H1]; [left; auto|].
  destruct (String.eqb_spec status "IN_PROGRESS") as [->|H2]; [right; left; auto|].
  destruct (String.eqb_spec status "COMPLETED") as [->|H3]; [right; right; left; auto|].
  destruct (String.eqb_spec status "FAILED") as [->|H4];
    [right; right; right; left; auto|].
  destruct (String.eqb_spec status "CANCELLED") as [->|H5];
    [right; right; right; right; left; auto|].
  right. right. right. right. right. auto 10.
Qed.

(** X23: when polling stops.  A call of pollJob whose API call has settled
    leaves the interval set exactly when it found it set and the API answered
    with a status other than COMPLETED, FAILED and CANCELLED: a final status
    or a throw clears the interval, and no answer sets it again.  The job
    counts as running afterwards exactly when the answer was such a status,
    whatever the job's state and the interval were before: an answer that
    arrives after the interval was cleared (by an earlier call that is still
    pending, or by the cleanup) leaves the job running with no interval set.
    A status the hook does not know (any text other than the five it names)
    is stored as pending.  A throw of the API call stores the job as failed
    with the thrown message, or "Polling failed".  The current job id is not
    touched. *)
Theorem polling_stops_at_a_final_status_and_is_not_set_again
    (id : string) (outcome : PollOutcome) (now : Z) (state : TTSStore)
    (intervalRef : IntervalRef) :
  let state' := fst (pollJob id outcome now state intervalRef) in
  let intervalRef' := snd (pollJob id outcome now state intervalRef) in
  (intervalRef' = true <-> intervalRef = true /\ notFinal outcome) /\
  (isJobRunning id state' = true <-> notFinal outcome) /\
  (forall status output error,
     outcome = Polled status output error ->
     status <> "IN_QUEUE"%string -> status <> "IN_PROGRESS"%string ->
     status <> "COMPLETED"%string -> status <> "FAILED"%string ->
     status <> "CANCELLED"%string ->
     jobs state' !! id
       = Some (mkJobStatus (jobs state !! id ≫= jobId) pending output error
                 (jobs state !! id ≫= createdAt) now)) /\
  (forall message,
     outcome = PollThrew message ->
     jobs state' !! id
       = Some (mkJobStatus (jobs state !! id ≫= jobId) failed None
                 (Some (default "Polling failed"%string message))
                 (jobs state !! id ≫= createdAt) now)) /\
  currentJobId state' = currentJobId state.
Proof.
  cbv zeta. destruct outcome as [status output error|message]; cbn [pollJob fst snd].
  - destruct (jobs_updateJobStatus id (storeStatusOf status) output error now state)
      as (Hu & _).
    assert (isJobRunning id
              (updateJobStatus id (storeStatusOf status) output error now state)
            = match storeStatusOf status with
              | completed | failed => false
              | pending | running => true
              end) as Hrun
      by (unfold isJobRunning; rewrite Hu; cbn [jobState];
          destruct (storeStatusOf status); reflexivity).
    assert (match storeStatusOf status with
            | completed | failed => false
            | pending | running => true
            end = true <-> notFinal (Polled status output error)) as Hon.
    { unfold notFinal. destruct (storeStatusOf_cases status)
        as [(-> & E)|[(-> & E)|[(-> & E)|[(-> & E)|[(-> & E)|(N1 & N2 & N3 & N4 & N5 & E)]]]]];
        rewrite E; split.
      all: try (intros _; eexists _, _, _; split; [reflexivity|];
                repeat split; discriminate).
      all: try (intros _; reflexivity).
      all: try discriminate.
      all: try (intros (s & o & e & H & C1 & C2 & C3); injection H as <- <- <-;
                congruence).
      intros _; eexists _, _, _; (split; [reflexivity|auto]). }
    split; [|split; [|split; [|split]]].
    + rewrite <- Hon. destruct (storeStatusOf status), intervalRef; intuition congruence.
    + rewrite Hrun. exact Hon.
    + intros s o e H N1 N2 N3 N4 N5. injection H as <- <- <-.
      destruct (storeStatusOf_cases status)
        as [(C & _)|[(C & _)|[(C & _)|[(C & _)|[(C & _)|(_ & _ & _ & _ & _ & E)]]]]];
        congruence.
    + intros m H. discriminate.
    + reflexivity.
  - destruct (jobs_updateJobStatus id failed None
                (Some (default "Polling failed"%string message)) now state) as (Hu & _).
    split; [|split; [|split; [|split]]].
    + split; [discriminate|]. intros (_ & s & o & e & H & _). discriminate.
    + unfold isJobRunning, notFinal. rewrite Hu. cbn [jobState].
      split; [discriminate|]. intros (s & o & e & H & _). discriminate.
    + intros s o e H. discriminate.
    + intros m H. injection H as <-. exact Hu.
    + reflexivity.
Qed.

(** A finished job, a queued one and one with a status the hook has no case
    for, computed. *)
Example poll_samples :
  isJobRunning "job-2"
    (fst (pollJob "job-2" (Polled "COMPLETED" (Some "{}"%string) None) 40 twoJobs true))
    = false /\
  snd (pollJob "job-2" (Polled "COMPLETED" (Some "{}"%string) None) 40 twoJobs true)
    = false /\
  snd (pollJob "job-2" (Polled "IN_QUEUE" None None) 40 twoJobs true) = true /\
  snd (pollJob "job-2" (Polled "TIMED_OUT" None None) 40 twoJobs true) = true /\
  jobs (fst (pollJob "job-2" (Polled "TIMED_OUT" None None) 40 twoJobs true))
    !! "job-2"%string
    = Some (mkJobStatus (Some "job-2"%string) pending None None (Some 20%Z) 40) /\
  jobs (fst (pollJob "job-2" (PollThrew None) 40 twoJobs true)) !! "job-2"%string
    = Some (mkJobStatus (Some "job-2"%string) failed None
              (Some "Polling failed"%string) (Some 20%Z) 40).
Proof. repeat split; vm_compute; reflexivity. Qed.

(** Two calls in flight at once: the first is answered COMPLETED and clears
    the interval, the second is then answered IN_PROGRESS.  The job is stored
    as running again, without its result, and no interval is set.  The same
    happens to an answer that arrives after the cleanup. *)
Example overlapping_calls :
  let first := pollJob "job-2" (Polled "COMPLETED" (Some "{}"%string) None) 40
                 twoJobs (startPolling (Some "job-2"%string) twoJobs false) in
  let second := pollJob "job-2" (Polled "IN_PROGRESS" None None) 41
                  (fst first) (snd first) in
  let late := pollJob "job-2" (Polled "IN_QUEUE" None None) 42
                twoJobs (stopPolling true) in
  startPolling (Some "job-2"%string) twoJobs false = true /\
  snd first = false /\ isJobRunning "job-2" (fst first) = false /\
  snd second = false /\ isJobRunning "job-2" (fst second) = true /\
  jobs (fst second) !! "job-2"%string
    = Some (mkJobStatus (Some "job-2"%string) running None None (Some 20%Z) 41) /\
  snd late = false /\ isJobRunning "job-2" (fst late) = true.
Proof. repeat split; vm_compute; reflexivity. Qed.

(** ** What holds of every store *)

Lemma storeStep_consistent (state state' : TTSStore) :
  storeConsistent state -> storeStep state state' -> storeConsistent state'.
Proof.
  intros (Hcur & Hjobs) Hstep.
  destruct Hstep as [state id now | state id status result error now | state id Hid
                    | state | state id | state]; split.
  - intros id' H. injection H as <-. unfold startJob. cbn [jobs].
    rewrite lookup_insert_eq. eauto.
  - intros key job H. unfold startJob in H. cbn [jobs] in H.
    destruct (decide (key = id)) as [->|Hne].
    + rewrite lookup_insert_eq in H. injection H as <-. cbn [jobId createdAt].
      split; [intros i Hi; congruence | split; discriminate].
    + rewrite lookup_insert_ne in H by congruence. exact (Hjobs key job H).
  - intros id' H. cbn [updateJobStatus currentJobId jobs] in *.
    destruct (decide (id' = id)) as [->|Hne].
    + rewrite lookup_insert_eq. eauto.
    + rewrite lookup_insert_ne by congruence. exact (Hcur id' H).
  - intros key job H. cbn [updateJobStatus jobs] in H.
    destruct (decide (key = id)) as [->|Hne].
    + rewrite lookup_insert_eq in H. injection H as <-. cbn [jobId createdAt].
      destruct (jobs state !! id) as [old|] eqn:E; cbn [mbind option_bind].
      * exact (Hjobs id old E).
      * split; [discriminate | split; reflexivity].
    + rewrite lookup_insert_ne in H by congruence. exact (Hjobs key job H).
  - intros id' H. cbn [setCurrentJob currentJobId jobs] in *. injection H as <-.
    exact Hid.
  - exact Hjobs.
  - intros id' H. discriminate.
  - exact Hjobs.
  - intros id' H. cbn [clearJob currentJobId jobs] in *.
    destruct (bool_decide (currentJobId state = Some id)) eqn:E; [discriminate|].
    apply bool_decide_eq_false in E.
    rewrite lookup_delete_ne by congruence. exact (Hcur id' H).
  - intros key job H. cbn [clearJob jobs] in H.
    destruct (decide (key = id)) as [->|Hne].
    + rewrite lookup_delete_eq in H. discriminate.
    + rewrite lookup_delete_ne in H by congruence. exact (Hjobs key job H).
  - intros id' H. discriminate.
  - intros key job H. cbn [clearAllJobs jobs] in H. rewrite lookup_empty in H.
    discriminate.
Qed.

(** X24: what holds of every store.  However the store was reached (by
    [startJob], [updateJobStatus], [clearJob], [clearAllJobs], and
    [setCurrentJob] with the id of a stored job or [null]), the current job
    id names a job the store holds, so [getCurrentJob] finds a job unless no
    id is set or the id is the empty string; every stored job that carries
    an id carries the key it is stored under; and a stored job lacks an id
    exactly when it lacks a creation date. *)
Theorem every_reachable_store_is_consistent (state : TTSStore) :
  storeReachable state ->
  storeConsistent state /\
  (getCurrentJob state = None <->
   currentJobId state = None \/ currentJobId state = Some EmptyString).
Proof.
  intros Hr.
  assert (storeConsistent state) as Hc.
  { induction Hr as [|state state' _ IH Hstep].
    - split; [discriminate|]. intros key job H. cbn in H.
      rewrite lookup_empty in H. discriminate.
    - exact (storeStep_consistent state state' IH Hstep). }
  split; [exact Hc|]. destruct Hc as (Hcur & _). unfold getCurrentJob.
  destruct (currentJobId state) as [id|] eqn:E; [|split; auto].
  destruct id as [|a id]; cbn [isEmpty]; [split; auto|].
  split.
  - intros H. destruct (Hcur _ eq_refl) as (job & Hjob). congruence.
  - intros [H|H]; discriminate.
Qed.

Lemma storeReachable_twoJobs : storeReachable twoJobs.
Proof.
  unfold twoJobs.
  eapply storeReachable_step; [|apply storeStep_update].
  eapply storeReachable_step; [|apply storeStep_start].
  eapply storeReachable_step; [|apply storeStep_start].
  apply storeReachable_initial.
Qed.

Lemma every_reachable_store_is_consistent_witness :
  storeReachable twoJobs /\
  storeConsistent twoJobs /\
  (getCurrentJob twoJobs = None <->
   currentJobId twoJobs = None \/ currentJobId twoJobs = Some EmptyString).
Proof.
  split; [exact storeReachable_twoJobs|].
  exact (every_reachable_store_is_consistent twoJobs storeReachable_twoJobs).
Defined.
